(** * Verification of the password manager and the port-occupancy tool

    A shallow embedding of the Python sources of the two tools of the
    repository:

    - 本地密码管理器 (local password manager): [security/crypto.py],
      [security/password_generator.py], [security/validator.py],
      [core/models.py], [data/repository.py], [core/authentication.py],
      [core/password_manager.py];
    - 服务器端口占用检测工具 (port-occupancy tool):
      [src/models/data_models.py], [src/utils/config.py].

    Python values are modelled as follows.  A [str] is a [string], a text
    that the UTF-8 codec can encode; the port list that the user types is a
    [PyStr.str], the list of its code points, since there every character
    of Unicode matters; [bytes]
    are a [list byte]; an [int] is a [Z] (a length or an index a [nat]); a
    [float] is a binary64 [float]; a [datetime] is a number of microseconds
    ([Z]); a [dict] built from or for JSON is a [json] value; [None] where a
    value is optional is [None]; a caught exception is [None] too, and so is
    one that leaves the function where the model says so.  The
    third-party and built-in functions the sources call (PyCryptodome's AES
    and PBKDF2, [base64], the UTF-8 codec, [json], [datetime.isoformat]) are
    the operations of the class [PyLib], with the part of their contract that
    the sources rely on; what depends on the interpreter that runs the port
    tool (its Unicode database, its limit on the digits of an integer, the
    room for a list) is the class [Interpreter].  Writing a file can fail:
    the [World] says which writes do and what they leave behind. *)

From Stdlib Require Import ZArith Lia Bool Floats Uint63.
From Stdlib.Strings Require Import Ascii String Byte.
From Stdlib.Strings Require BinaryString.
From stdpp Require Import base option list sorting strings.

#[local] Set Warnings "-register-all,-inexact-float".
#[local] Open Scope string_scope.
#[local] Open Scope list_scope.

(** ** Python values *)

Definition bytes := list byte.

(** What [json.loads] returns and [json.dumps] takes; a [dict] keeps the
    order in which its keys were inserted. *)
Inductive json : Type :=
| JNull
| JBool (b : bool)
| JInt (z : Z)
| JStr (s : string)
| JList (l : list json)
| JDict (d : list (string * json)).

(** [datetime]: the microseconds since [datetime.min], the start of year
    1.  The clock is taken to read times from which the periods that the
    program adds on its own (the 90 days of an expiry, the 5 minutes of a
    lockout) do not lead beyond year 9999; a number of days that the caller
    gives is checked against that bound where it is added. *)
Definition datetime := Z.

(** [d[k]] on a dict; [None] is [KeyError]. *)
Fixpoint dict_get (k : string) (d : list (string * json)) : option json :=
  match d with
  | [] => None
  | (k', v) :: d' => if String.eqb k' k then Some v else dict_get k d'
  end.

(** [d[k] = v]: an existing key keeps its place, a new one goes last. *)
Fixpoint dict_set (k : string) (v : json) (d : list (string * json)) : list (string * json) :=
  match d with
  | [] => [(k, v)]
  | (k', v') :: d' => if String.eqb k' k then (k', v) :: d' else (k', v') :: dict_set k v d'
  end.

(** [x[k]] for any value [x]: only a dict can be subscripted by a string. *)
Definition subscript (x : json) (k : string) : option json :=
  match x with
  | JDict d => dict_get k d
  | _ => None
  end.

Definition as_str (x : json) : option string :=
  match x with JStr s => Some s | _ => None end.

Definition as_int (x : json) : option Z :=
  match x with JInt z => Some z | _ => None end.

Definition as_bool (x : json) : option bool :=
  match x with JBool b => Some b | _ => None end.

(** [l[:stop]] with Python's treatment of a negative or too large [stop]. *)
Definition slice_to {A} (l : list A) (stop : Z) : list A :=
  let n := Z.of_nat (length l) in
  let stop' := if (stop <? 0)%Z then Z.max 0 (stop + n) else Z.min stop n in
  take (Z.to_nat stop') l.

(** Byte-wise exclusive or, through the eight bits of each byte. *)
Definition xor_ascii (a b : ascii) : ascii :=
  match a, b with
  | Ascii a0 a1 a2 a3 a4 a5 a6 a7, Ascii b0 b1 b2 b3 b4 b5 b6 b7 =>
      Ascii (xorb a0 b0) (xorb a1 b1) (xorb a2 b2) (xorb a3 b3)
            (xorb a4 b4) (xorb a5 b5) (xorb a6 b6) (xorb a7 b7)
  end.

Definition xor_byte (a b : byte) : byte :=
  byte_of_ascii (xor_ascii (ascii_of_byte a) (ascii_of_byte b)).

(** [strxor]: the shorter operand decides the length. *)
Fixpoint xor_bytes (a b : bytes) : bytes :=
  match a, b with
  | x :: a', y :: b' => xor_byte x y :: xor_bytes a' b'
  | _, _ => []
  end.

(** [bytes([n])] for [n < 256]; the sources only build it for a padding
    length, which is at most 16. *)
Definition byte_of_nat (n : nat) : byte :=
  match Byte.of_nat n with Some b => b | None => x00 end.

(** ** The libraries the sources call *)

Class PyLib : Type := {
  (** [str.encode('utf-8')] and [bytes.decode('utf-8')] *)
  utf8_encode : string -> bytes;
  utf8_decode : bytes -> option string;
  utf8_decode_encode : forall s, utf8_decode (utf8_encode s) = Some s;
  utf8_encode_empty : utf8_encode "" = [];
  (** [base64.b64encode(..).decode('utf-8')] and [base64.b64decode] *)
  b64encode : bytes -> string;
  b64decode : string -> option bytes;
  b64decode_b64encode : forall b, b64decode (b64encode b) = Some b;
  (** [PBKDF2(password, salt, dkLen, count, hmac_hash_module=SHA256)] *)
  PBKDF2 : bytes -> bytes -> nat -> Z -> bytes;
  PBKDF2_length : forall p s n c, length (PBKDF2 p s n c) = n;
  (** The AES block permutation under a key, and its inverse. *)
  aes_encrypt_block : bytes -> bytes -> bytes;
  aes_decrypt_block : bytes -> bytes -> bytes;
  aes_encrypt_block_length :
    forall k b, length b = 16 -> length (aes_encrypt_block k b) = 16;
  aes_decrypt_block_length :
    forall k b, length b = 16 -> length (aes_decrypt_block k b) = 16;
  aes_decrypt_encrypt_block :
    forall k b, length b = 16 -> aes_decrypt_block k (aes_encrypt_block k b) = b;
  (** [json.dumps(x, ensure_ascii=.., indent=..)] and [json.loads] *)
  json_dumps : bool -> option nat -> json -> string;
  json_loads : string -> option json;
  json_loads_dumps : forall a i x, json_loads (json_dumps a i x) = Some x;
  (** [datetime.isoformat] and [datetime.fromisoformat] *)
  isoformat : datetime -> string;
  fromisoformat : string -> option datetime;
  fromisoformat_isoformat : forall t, fromisoformat (isoformat t) = Some t;
  (** [datetime.strftime('%Y%m%d_%H%M%S')] *)
  strftime : datetime -> string
}.

(** ** security/crypto.py *)

Module Crypto.

(** [Crypto.Random.get_random_bytes]: the bytes the operating system will
    hand out, and how many of them were taken so far. *)
Record Entropy : Type := mkEntropy {
  pool : nat -> byte;
  taken : nat
}.

Definition get_random_bytes (n : nat) (e : Entropy) : bytes * Entropy :=
  (map (pool e) (seq (taken e) n), mkEntropy (pool e) (taken e + n)).

Section WithLib.
Context {L : PyLib}.

(** The attributes set by [CryptoService.__init__]. *)
Definition key_length : nat := 32.
Definition iv_length : nat := 16.
Definition salt_length : nat := 32.
Definition iterations : Z := 100000.

(** [AES.block_size] *)
Definition block_size : nat := 16.

Definition generate_salt (e : Entropy) : bytes * Entropy :=
  get_random_bytes salt_length e.

Definition derive_key (password : string) (salt : bytes) : bytes :=
  PBKDF2 (utf8_encode password) salt key_length iterations.

(** [AES.new(key, AES.MODE_CBC, iv)]: the key must be 16, 24 or 32 bytes
    long and the IV 16, otherwise [ValueError]. *)
Record Cipher : Type := mkCipher { c_key : bytes; c_iv : bytes }.

Definition AES_new (key iv : bytes) : option Cipher :=
  if (bool_decide (length key = 16) || bool_decide (length key = 24)
      || bool_decide (length key = 32))
     && bool_decide (length iv = 16)
  then Some (mkCipher key iv) else None.

(** CBC over [n] blocks: each plaintext block is xored with the previous
    ciphertext block (the IV for the first) and then encrypted. *)
Fixpoint cbc_encrypt_blocks (n : nat) (key prev data : bytes) : bytes :=
  match n with
  | O => []
  | S n' =>
      let c := aes_encrypt_block key (xor_bytes (take 16 data) prev) in
      c ++ cbc_encrypt_blocks n' key c (drop 16 data)
  end.

Fixpoint cbc_decrypt_blocks (n : nat) (key prev data : bytes) : bytes :=
  match n with
  | O => []
  | S n' =>
      let c := take 16 data in
      xor_bytes (aes_decrypt_block key c) prev
        ++ cbc_decrypt_blocks n' key c (drop 16 data)
  end.

(** [cipher.encrypt(data)] and [cipher.decrypt(data)]: [ValueError] unless
    the data is a whole number of blocks. *)
Definition cipher_encrypt (c : Cipher) (data : bytes) : option bytes :=
  if bool_decide (length data mod 16 = 0)
  then Some (cbc_encrypt_blocks (length data / 16) (c_key c) (c_iv c) data)
  else None.

Definition cipher_decrypt (c : Cipher) (data : bytes) : option bytes :=
  if bool_decide (length data mod 16 = 0)
  then Some (cbc_decrypt_blocks (length data / 16) (c_key c) (c_iv c) data)
  else None.

Definition _pad_data (data : bytes) : bytes :=
  let padding_length := block_size - (length data mod block_size) in
  let padding := repeat (byte_of_nat padding_length) padding_length in
  data ++ padding.

(** [data[-1]] raises [IndexError] on empty data; [data[:-padding_length]]
    is an ordinary slice, so a padding length of 0 or beyond the data gives
    the empty bytes. *)
Definition _unpad_data (data : bytes) : option bytes :=
  padding_length ← Byte.to_nat <$> last data;
  Some (slice_to data (- Z.of_nat padding_length)).

(** The dict returned by [encrypt_data]. *)
Definition bundle (encrypted_data salt iv : bytes) : json :=
  JDict [("encrypted_data", JStr (b64encode encrypted_data));
         ("salt", JStr (b64encode salt));
         ("iv", JStr (b64encode iv))].

(** [encrypt_data(data, password, salt)]: [None] stands for an exception
    leaving the method (there is no handler in it). *)
Definition encrypt_data (data password : string) (salt : option bytes)
    (e : Entropy) : option json * Entropy :=
  let '(salt, e) := match salt with
                    | None => generate_salt e
                    | Some s => (s, e)
                    end in
  let key := derive_key password salt in
  let '(iv, e) := get_random_bytes iv_length e in
  (cipher ← AES_new key iv;
   let padded_data := _pad_data (utf8_encode data) in
   encrypted_data ← cipher_encrypt cipher padded_data;
   Some (bundle encrypted_data salt iv), e).

(** [base64.b64decode(encrypted_info[k])]: the value must be there and be
    a string that decodes. *)
Definition b64decode_field (encrypted_info : json) (k : string) : option bytes :=
  x ← subscript encrypted_info k;
  s ← as_str x;
  b64decode s.

(** [decrypt_data(encrypted_info, password)]: every exception is caught and
    turned into [None]. *)
Definition decrypt_data (encrypted_info : json) (password : string) : option string :=
  encrypted_data ← b64decode_field encrypted_info "encrypted_data";
  salt ← b64decode_field encrypted_info "salt";
  iv ← b64decode_field encrypted_info "iv";
  let key := derive_key password salt in
  cipher ← AES_new key iv;
  decrypted_data ← cipher_decrypt cipher encrypted_data;
  unpadded_data ← _unpad_data decrypted_data;
  utf8_decode unpadded_data.

(** [hash_password(password, salt)] as the pair (hash, salt) of its dict. *)
Definition hash_password (password : string) (salt : option bytes)
    (e : Entropy) : (string * string) * Entropy :=
  let '(salt, e) := match salt with
                    | None => generate_salt e
                    | Some s => (s, e)
                    end in
  let password_hash := PBKDF2 (utf8_encode password) salt key_length iterations in
  ((b64encode password_hash, b64encode salt), e).

Definition verify_password (password stored_hash salt : string) : bool :=
  match b64decode salt with
  | Some salt_bytes =>
      let password_hash := PBKDF2 (utf8_encode password) salt_bytes key_length iterations in
      let computed_hash := b64encode password_hash in
      String.eqb computed_hash stored_hash
  | None => false
  end.

End WithLib.
End Crypto.

(** ** The environment of the password manager

    What the sources reach outside their own objects: the system's random
    bytes, the clock read by [datetime.now()], the identifiers produced by
    [uuid.uuid4()] and the files of the application directory.  An action of
    type [Py A] runs in that environment and either returns a value or
    raises ([None]); what it did to the environment stays done either
    way. *)

(** The files the repository touches, relative to the directory of the
    vault file: the vault file itself, [backup/<name>] and [temp/<name>]. *)
Inductive path : Type :=
| DataFile
| BackupFile (name : string)
| TempFile (name : string).

Definition path_eqb (p q : path) : bool :=
  match p, q with
  | DataFile, DataFile => true
  | BackupFile a, BackupFile b => String.eqb a b
  | TempFile a, TempFile b => String.eqb a b
  | _, _ => false
  end.

(** What can go wrong when a file is written ([OSError]): the file cannot
    be opened or replaced, and nothing changes; or the writing breaks off
    (a full disk), and the file is left with the first [n] characters of
    what was to be written. *)
Inductive fault : Type :=
| Refused
| Broken (n : nat).

(** [faults] tells, for each operation that writes to the disk, counted
    from the start, whether it goes wrong and how; [writes] counts the
    operations so far. *)
Record World : Type := mkWorld {
  entropy : Crypto.Entropy;
  clock : nat -> datetime;
  ticks : nat;
  uuids : nat -> string;
  issued : nat;
  files : path -> option string;
  faults : nat -> option fault;
  writes : nat
}.

Definition Py (A : Type) : Type := World -> option A * World.

#[export] Instance Py_ret : MRet Py := fun A (a : A) w => (Some a, w).

#[export] Instance Py_bind : MBind Py := fun A B (f : A -> Py B) (m : Py A) w =>
  match m w with
  | (Some a, w') => f a w'
  | (None, w') => (None, w')
  end.

(** An exception: [raise], and one coming out of a pure computation. *)
Definition raise {A} : Py A := fun w => (None, w).

Definition of_option {A} (o : option A) : Py A := fun w => (o, w).

(** [if not b: raise ...] *)
Definition check (b : bool) : Py unit := if b then mret tt else raise.

(** [try: m  except Exception: return x] *)
Definition try_except {A} (m : Py A) (x : A) : World -> A * World := fun w =>
  match m w with
  | (Some a, w') => (a, w')
  | (None, w') => (x, w')
  end.

(** [datetime.now()]: the next reading of the clock. *)
Definition read_clock (w : World) : datetime * World :=
  (clock w (ticks w),
   mkWorld (entropy w) (clock w) (S (ticks w)) (uuids w) (issued w) (files w)
     (faults w) (writes w)).

Definition now : Py datetime := fun w =>
  let '(t, w') := read_clock w in (Some t, w').

(** [str(uuid.uuid4())] *)
Definition uuid4 : Py string := fun w =>
  (Some (uuids w (issued w)),
   mkWorld (entropy w) (clock w) (ticks w) (uuids w) (S (issued w)) (files w)
     (faults w) (writes w)).

(** An action on the random bytes alone, such as [encrypt_data]. *)
Definition with_entropy {A} (f : Crypto.Entropy -> A * Crypto.Entropy) : Py A := fun w =>
  let '(a, e) := f (entropy w) in
  (Some a, mkWorld e (clock w) (ticks w) (uuids w) (issued w) (files w)
             (faults w) (writes w)).

Definition path_exists (p : path) : Py bool := fun w =>
  (Some (bool_decide (is_Some (files w p))), w).

(** [open(p).read()]: [FileNotFoundError] when the file is not there. *)
Definition read_file (p : path) : Py string := fun w => (files w p, w).

(** One more operation that writes: the files it leaves, and the fault it
    met. *)
Definition written (f : path -> option string) (w : World) : World :=
  mkWorld (entropy w) (clock w) (ticks w) (uuids w) (issued w) f (faults w)
    (S (writes w)).

Definition put (p : path) (s : option string) (f : path -> option string)
    : path -> option string :=
  fun q => if path_eqb q p then s else f q.

(** [with open(p, 'w') as f: f.write(s)] *)
Definition write_file (p : path) (s : string) : Py unit := fun w =>
  match faults w (writes w) with
  | None => (Some tt, written (put p (Some s) (files w)) w)
  | Some Refused => (None, written (files w) w)
  | Some (Broken n) => (None, written (put p (Some (String.substring 0 n s)) (files w)) w)
  end.

(** [shutil.copy2(src, dst)] *)
Definition copy_file (src dst : path) : Py unit :=
  s ← read_file src; write_file dst s.

(** [shutil.move(src, dst)] between two files of the application
    directory, where it is [os.rename]: the file changes its name wholly or
    not at all. *)
Definition move_file (src dst : path) : Py unit := fun w =>
  match files w src with
  | None => (None, w)
  | Some s =>
      match faults w (writes w) with
      | None => (Some tt, written (put src None (put dst (Some s) (files w))) w)
      | Some _ => (None, written (files w) w)
      end
  end.

(** [timedelta(days=d)] and [timedelta(seconds=s)] in microseconds. *)
Definition days (d : Z) : Z := (d * 86400 * 1000000)%Z.
Definition seconds (s : Z) : Z := (s * 1000000)%Z.

(** ** core/models.py *)

Module Models.

(** The dataclasses after [__post_init__], when no field is [None] any
    more. *)
Record PasswordEntry : Type := mkPasswordEntry {
  platform : string;
  username : string;
  encrypted_password : string;
  notes : string;
  id : string;
  created_at : datetime;
  updated_at : datetime;
  expires_at : datetime
}.

Record MasterConfig : Type := mkMasterConfig {
  password_hash : string;
  salt : string;
  clipboard_timeout : Z;
  password_expiry_days : Z;
  auto_backup : bool;
  backup_interval : Z;
  mc_created_at : datetime;
  mc_updated_at : datetime
}.

Record AppSettings : Type := mkAppSettings {
  theme : string;
  window_width : Z;
  window_height : Z;
  window_x : Z;
  window_y : Z;
  auto_lock_timeout : Z;
  show_password_strength : bool;
  confirm_delete : bool;
  as_updated_at : datetime
}.

Record DataStore : Type := mkDataStore {
  entries : list PasswordEntry;
  master_config : option MasterConfig;
  app_settings : AppSettings;
  version : string
}.

(** [PasswordEntry(...)]: the generated constructor followed by
    [__post_init__]. *)
Definition PasswordEntry_new (platform username encrypted_password notes : string)
    (id : option string) (created_at updated_at expires_at : option datetime)
    : Py PasswordEntry :=
  id ← match id with None => uuid4 | Some i => mret i end;
  current_time ← now;
  mret (mkPasswordEntry platform username encrypted_password notes id
          (default current_time created_at)
          (default current_time updated_at)
          (default (current_time + days 90)%Z expires_at)).

Definition MasterConfig_new (password_hash salt : string)
    (clipboard_timeout password_expiry_days : Z) (auto_backup : bool)
    (backup_interval : Z) (created_at updated_at : option datetime)
    : Py MasterConfig :=
  current_time ← now;
  mret (mkMasterConfig password_hash salt clipboard_timeout password_expiry_days
          auto_backup backup_interval
          (default current_time created_at)
          (default current_time updated_at)).

Definition AppSettings_new (theme : string)
    (window_width window_height window_x window_y auto_lock_timeout : Z)
    (show_password_strength confirm_delete : bool) (updated_at : option datetime)
    : Py AppSettings :=
  updated_at ← match updated_at with None => now | Some t => mret t end;
  mret (mkAppSettings theme window_width window_height window_x window_y
          auto_lock_timeout show_password_strength confirm_delete updated_at).

(** [DataStore()] *)
Definition DataStore_new : Py DataStore :=
  app_settings ← AppSettings_new "default" 800 600 100 100 300 true true None;
  mret (mkDataStore [] None app_settings "1.0.0").

(** [entry.update_timestamp()], given what [datetime.now()] returned. *)
Definition update_timestamp (current_time : datetime) (e : PasswordEntry) : PasswordEntry :=
  mkPasswordEntry (platform e) (username e) (encrypted_password e) (notes e)
    (id e) (created_at e) current_time (expires_at e).

Definition same_account (a b : PasswordEntry) : bool :=
  String.eqb (platform a) (platform b) && String.eqb (username a) (username b).

(** [self.entries = l] *)
Definition set_entries (l : list PasswordEntry) (s : DataStore) : DataStore :=
  mkDataStore l (master_config s) (app_settings s) (version s).

(** The methods of [DataStore], with the entries taken as values; the
    module [Objects] below follows [update_entry] on the entry objects.

    [add_entry]: the loop returns [False] at the first entry with the
    platform and username of the new one. *)
Definition add_entry (entry : PasswordEntry) (s : DataStore) : bool * DataStore :=
  if existsb (fun existing_entry => same_account existing_entry entry) (entries s)
  then (false, s)
  else (true, set_entries (entries s ++ [entry]) s).

Definition get_entry_by_id (entry_id : string) (s : DataStore) : option PasswordEntry :=
  find (fun entry => String.eqb (id entry) entry_id) (entries s).

(** The loop of [update_entry]: the first entry with the id is replaced,
    and [None] tells that no entry has it.  [current_time] is what
    [datetime.now()] returns inside [update_timestamp].  [updated_entry] is
    an object that the list does not hold yet, as the one that
    [update_password_entry] builds for the call; what the assignments do to
    an object that the list holds already is followed on the heap, in
    [Objects.update_entry]. *)
Fixpoint update_first (current_time : datetime) (entry_id : string)
    (updated_entry : PasswordEntry) (l : list PasswordEntry)
    : option (list PasswordEntry) :=
  match l with
  | [] => None
  | entry :: rest =>
      if String.eqb (id entry) entry_id
      then Some (mkPasswordEntry (platform updated_entry) (username updated_entry)
                   (encrypted_password updated_entry) (notes updated_entry)
                   entry_id (created_at entry) current_time
                   (expires_at updated_entry) :: rest)
      else cons entry <$> update_first current_time entry_id updated_entry rest
  end.

Definition update_entry (entry_id : string) (updated_entry : PasswordEntry)
    (s : DataStore) : Py (bool * DataStore) :=
  if existsb (fun entry => String.eqb (id entry) entry_id) (entries s)
  then current_time ← now;
       match update_first current_time entry_id updated_entry (entries s) with
       | Some l => mret (true, set_entries l s)
       | None => mret (false, s)
       end
  else mret (false, s).

Fixpoint delete_first (entry_id : string) (l : list PasswordEntry)
    : option (list PasswordEntry) :=
  match l with
  | [] => None
  | entry :: rest =>
      if String.eqb (id entry) entry_id then Some rest
      else cons entry <$> delete_first entry_id rest
  end.

Definition delete_entry (entry_id : string) (s : DataStore) : bool * DataStore :=
  match delete_first entry_id (entries s) with
  | Some l => (true, set_entries l s)
  | None => (false, s)
  end.

Section WithLib.
Context {L : PyLib}.

(** *** Serialisation

    The records have typed fields: a document that gives a field a value of
    another JSON type than the dataclass declares is outside this model,
    which rejects it as it rejects a document Python raises on. *)

Definition PasswordEntry_to_dict (e : PasswordEntry) : json :=
  JDict [("platform", JStr (platform e));
         ("username", JStr (username e));
         ("encrypted_password", JStr (encrypted_password e));
         ("notes", JStr (notes e));
         ("id", JStr (id e));
         ("created_at", JStr (isoformat (created_at e)));
         ("updated_at", JStr (isoformat (updated_at e)));
         ("expires_at", JStr (isoformat (expires_at e)))].

Definition MasterConfig_to_dict (c : MasterConfig) : json :=
  JDict [("password_hash", JStr (password_hash c));
         ("salt", JStr (salt c));
         ("clipboard_timeout", JInt (clipboard_timeout c));
         ("password_expiry_days", JInt (password_expiry_days c));
         ("auto_backup", JBool (auto_backup c));
         ("backup_interval", JInt (backup_interval c));
         ("created_at", JStr (isoformat (mc_created_at c)));
         ("updated_at", JStr (isoformat (mc_updated_at c)))].

Definition AppSettings_to_dict (a : AppSettings) : json :=
  JDict [("theme", JStr (theme a));
         ("window_width", JInt (window_width a));
         ("window_height", JInt (window_height a));
         ("window_x", JInt (window_x a));
         ("window_y", JInt (window_y a));
         ("auto_lock_timeout", JInt (auto_lock_timeout a));
         ("show_password_strength", JBool (show_password_strength a));
         ("confirm_delete", JBool (confirm_delete a));
         ("updated_at", JStr (isoformat (as_updated_at a)))].

Definition DataStore_to_dict (s : DataStore) : json :=
  JDict [("version", JStr (version s));
         ("entries", JList (map PasswordEntry_to_dict (entries s)));
         ("master_config",
           match master_config s with
           | Some c => MasterConfig_to_dict c
           | None => JNull
           end);
         ("app_settings", AppSettings_to_dict (app_settings s))].

(** The dataclass constructor raises [TypeError] on a keyword that is no
    field. *)
Definition only_keys (fields : list string) (d : list (string * json)) : bool :=
  forallb (fun kv => existsb (String.eqb (fst kv)) fields) d.

(** A field without a default value. *)
Definition required {A} (conv : json -> option A) (k : string)
    (d : list (string * json)) : option A :=
  x ← dict_get k d; conv x.

(** A field with the default value [dflt]. *)
Definition defaulted {A} (conv : json -> option A) (dflt : A) (k : string)
    (d : list (string * json)) : option A :=
  match dict_get k d with
  | None => Some dflt
  | Some x => conv x
  end.

(** A field that may be absent or [null], which [__post_init__] then
    fills in. *)
Definition optional {A} (conv : json -> option A) (k : string)
    (d : list (string * json)) : option (option A) :=
  match dict_get k d with
  | None | Some JNull => Some None
  | Some x => Some <$> conv x
  end.

(** A timestamp field: an ISO string goes through [fromisoformat]. *)
Definition as_datetime (x : json) : option datetime :=
  s ← as_str x; fromisoformat s.

Definition PasswordEntry_from_dict (data : json) : Py PasswordEntry :=
  match data with
  | JDict d =>
      created_at ← of_option (optional as_datetime "created_at" d);
      updated_at ← of_option (optional as_datetime "updated_at" d);
      expires_at ← of_option (optional as_datetime "expires_at" d);
      _ ← check (only_keys ["platform"; "username"; "encrypted_password";
                                        "notes"; "id"; "created_at"; "updated_at";
                                        "expires_at"] d);
      platform ← of_option (required as_str "platform" d);
      username ← of_option (required as_str "username" d);
      encrypted_password ← of_option (required as_str "encrypted_password" d);
      notes ← of_option (defaulted as_str "" "notes" d);
      id ← of_option (optional as_str "id" d);
      PasswordEntry_new platform username encrypted_password notes id
        created_at updated_at expires_at
  | _ => raise
  end.

Definition MasterConfig_from_dict (data : json) : Py MasterConfig :=
  match data with
  | JDict d =>
      created_at ← of_option (optional as_datetime "created_at" d);
      updated_at ← of_option (optional as_datetime "updated_at" d);
      _ ← check (only_keys ["password_hash"; "salt"; "clipboard_timeout";
                                        "password_expiry_days"; "auto_backup";
                                        "backup_interval"; "created_at";
                                        "updated_at"] d);
      password_hash ← of_option (required as_str "password_hash" d);
      salt ← of_option (required as_str "salt" d);
      clipboard_timeout ← of_option (defaulted as_int 10%Z "clipboard_timeout" d);
      password_expiry_days ← of_option (defaulted as_int 90%Z "password_expiry_days" d);
      auto_backup ← of_option (defaulted as_bool true "auto_backup" d);
      backup_interval ← of_option (defaulted as_int 7%Z "backup_interval" d);
      MasterConfig_new password_hash salt clipboard_timeout password_expiry_days
        auto_backup backup_interval created_at updated_at
  | _ => raise
  end.

Definition AppSettings_from_dict (data : json) : Py AppSettings :=
  match data with
  | JDict d =>
      updated_at ← of_option (optional as_datetime "updated_at" d);
      _ ← check (only_keys ["theme"; "window_width"; "window_height";
                                        "window_x"; "window_y"; "auto_lock_timeout";
                                        "show_password_strength"; "confirm_delete";
                                        "updated_at"] d);
      theme ← of_option (defaulted as_str "default" "theme" d);
      window_width ← of_option (defaulted as_int 800%Z "window_width" d);
      window_height ← of_option (defaulted as_int 600%Z "window_height" d);
      window_x ← of_option (defaulted as_int 100%Z "window_x" d);
      window_y ← of_option (defaulted as_int 100%Z "window_y" d);
      auto_lock_timeout ← of_option (defaulted as_int 300%Z "auto_lock_timeout" d);
      show_password_strength ← of_option (defaulted as_bool true "show_password_strength" d);
      confirm_delete ← of_option (defaulted as_bool true "confirm_delete" d);
      AppSettings_new theme window_width window_height window_x window_y
        auto_lock_timeout show_password_strength confirm_delete updated_at
  | _ => raise
  end.

(** [[PasswordEntry.from_dict(entry_data) for entry_data in l]] *)
Fixpoint entries_from_dict (l : list json) : Py (list PasswordEntry) :=
  match l with
  | [] => mret []
  | entry_data :: rest =>
      entry ← PasswordEntry_from_dict entry_data;
      entries ← entries_from_dict rest;
      mret (entry :: entries)
  end.

(** Python's truth value of a JSON value. *)
Definition truthy (x : json) : bool :=
  match x with
  | JNull => false
  | JBool b => b
  | JInt z => negb (z =? 0)%Z
  | JStr s => negb (String.eqb s "")
  | JList l => negb (bool_decide (l = []))
  | JDict d => negb (bool_decide (d = []))
  end.

(** [k in s] for strings. *)
Fixpoint is_substring (k s : string) : bool :=
  String.prefix k s ||
  match s with
  | EmptyString => false
  | String _ s' => is_substring k s'
  end.

(** [k in data]: [None] is the [TypeError] of a value that is no
    container. *)
Definition contains (data : json) (k : string) : option bool :=
  match data with
  | JDict d => Some (bool_decide (is_Some (dict_get k d)))
  | JList l => Some (existsb (fun x => match x with
                                       | JStr s => String.eqb s k
                                       | _ => false
                                       end) l)
  | JStr s => Some (is_substring k s)
  | _ => None
  end.

(** [if k in data: x = f(data[k])], with [x] keeping [dflt] otherwise. *)
Definition if_present {A} (data : json) (k : string) (f : json -> Py A) (dflt : A) : Py A :=
  b ← of_option (contains data k);
  if b : bool then x ← of_option (subscript data k); f x else mret dflt.

Definition DataStore_from_dict (data : json) : Py DataStore :=
  store ← DataStore_new;
  version ← if_present data "version" (fun x => of_option (as_str x)) (version store);
  entries ← if_present data "entries"
              (fun x => match x with
                        | JList l => entries_from_dict l
                        | JDict [] | JStr EmptyString => mret []
                        | _ => raise
                        end)
              (entries store);
  master_config ← if_present data "master_config"
                    (fun x => if truthy x
                              then c ← MasterConfig_from_dict x; mret (Some c)
                              else mret (master_config store))
                    (master_config store);
  app_settings ← if_present data "app_settings" AppSettings_from_dict (app_settings store);
  mret (mkDataStore entries master_config app_settings version).

End WithLib.
End Models.

(** ** data/repository.py *)

Module Repository.
Import Crypto Models.

(** The attributes of a [DataRepository] that change. *)
Record DataRepository : Type := mkDataRepository {
  _data_store : option DataStore;
  _master_password : option string
}.

(** [DataRepository(data_file_path)] *)
Definition DataRepository_new : DataRepository := mkDataRepository None None.

Definition is_loaded (self : DataRepository) : bool :=
  bool_decide (is_Some (_data_store self)) && bool_decide (is_Some (_master_password self)).

Section WithLib.
Context {L : PyLib}.

(** [encrypt_data] in the environment; an exception inside it leaves the
    caller. *)
Definition encrypt (data password : string) : Py json :=
  r ← with_entropy (encrypt_data data password None); of_option r.

(** The body of the [try] of [_save_to_file]. *)
Definition save_body (self : DataRepository) : Py bool :=
  data_store ← of_option (_data_store self);
  let data_json := json_dumps false (Some 2) (DataStore_to_dict data_store) in
  master_password ← of_option (_master_password self);
  encrypted_data ← encrypt data_json master_password;
  t ← now;
  let temp_file := TempFile ("temp_" +:+ strftime t +:+ ".enc") in
  _ ← write_file temp_file (json_dumps false (Some 2) encrypted_data);
  e ← path_exists DataFile;
  _ ← (if e : bool
       then t' ← now;
            copy_file DataFile (BackupFile ("backup_" +:+ strftime t' +:+ ".enc"))
       else mret tt);
  _ ← move_file temp_file DataFile;
  mret true.

Definition _save_to_file (self : DataRepository) : World -> bool * World :=
  try_except (save_body self) false.

Definition save_database (self : DataRepository) : World -> bool * World :=
  fun w =>
    match _data_store self, _master_password self with
    | Some _, Some _ => _save_to_file self w
    | _, _ => (false, w)
    end.

(** [initialize_new_database]: the object is changed before the file is
    written. *)
Definition initialize_new_database (self : DataRepository) (master_password : string)
    : World -> (bool * DataRepository) * World := fun w =>
  match (store ← DataStore_new;
         hash_info ← with_entropy (hash_password master_password None);
         master_config ← MasterConfig_new (fst hash_info) (snd hash_info)
                           10 90 true 7 None None;
         mret (mkDataStore (entries store) (Some master_config)
                 (app_settings store) (version store))) w with
  | (Some store, w') =>
      let self' := mkDataRepository (Some store) (Some master_password) in
      let '(ok, w'') := _save_to_file self' w' in
      ((ok, self'), w'')
  | (None, w') => ((false, self), w')
  end.

(** [load_database]: the store read from the file replaces the one held
    before the stored hash is compared; the password is kept only after
    that. *)
Definition load_database (self : DataRepository) (master_password : string)
    : World -> (bool * DataRepository) * World := fun w =>
  match files w DataFile with
  | None => ((false, self), w)
  | Some content =>
      match (encrypted_data ← of_option (json_loads content);
             decrypted ← mret (decrypt_data encrypted_data master_password);
             match decrypted with
             | None => mret None
             | Some decrypted_json =>
                 data_dict ← of_option (json_loads decrypted_json);
                 store ← DataStore_from_dict data_dict;
                 mret (Some store)
             end) w with
      | (Some (Some store), w') =>
          let self' := mkDataRepository (Some store) (_master_password self) in
          match master_config store with
          | Some c =>
              if verify_password master_password (password_hash c) (salt c)
              then ((true, mkDataRepository (Some store) (Some master_password)), w')
              else ((false, self'), w')
          | None => ((true, mkDataRepository (Some store) (Some master_password)), w')
          end
      | (_, w') => ((false, self), w')
      end
  end.

(** [decrypt_password(entry)] *)
Definition decrypt_password (self : DataRepository) (entry : PasswordEntry) : option string :=
  if is_loaded self
  then encrypted_info ← json_loads (encrypted_password entry);
       master_password ← _master_password self;
       decrypt_data encrypted_info master_password
  else None.

(** [add_password_entry]: a new entry object with the encrypted password,
    added to the store and saved when the store takes it. *)
Definition add_password_entry (self : DataRepository)
    (platform username password notes : string)
    : World -> (bool * DataRepository) * World := fun w =>
  match _data_store self, _master_password self with
  | Some store, Some master_password =>
      match (encrypted_info ← encrypt password master_password;
             let encrypted_password := json_dumps true None encrypted_info in
             PasswordEntry_new platform username encrypted_password notes
               None None None None) w with
      | (Some entry, w') =>
          let '(ok, store') := add_entry entry store in
          let self' := mkDataRepository (Some store') (Some master_password) in
          if ok then let '(_, w'') := save_database self' w' in ((true, self'), w'')
          else ((false, self'), w')
      | (None, w') => ((false, self), w')
      end
  | _, _ => ((false, self), w)
  end.

(** [update_password_entry]: the new values travel in an entry object made
    for the purpose, which [update_entry] puts in the place of the old
    one. *)
Definition update_password_entry (self : DataRepository)
    (entry_id platform username password notes : string)
    : World -> (bool * DataRepository) * World := fun w =>
  match _data_store self, _master_password self with
  | Some store, Some master_password =>
      match (encrypted_info ← encrypt password master_password;
             let encrypted_password := json_dumps true None encrypted_info in
             updated_entry ← PasswordEntry_new platform username encrypted_password
                               notes None None None None;
             update_entry entry_id updated_entry store) w with
      | (Some (ok, store'), w') =>
          let self' := mkDataRepository (Some store') (Some master_password) in
          if ok then let '(_, w'') := save_database self' w' in ((true, self'), w'')
          else ((false, self'), w')
      | (None, w') => ((false, self), w')
      end
  | _, _ => ((false, self), w)
  end.

Definition set_encrypted_password (s : string) (e : PasswordEntry) : PasswordEntry :=
  mkPasswordEntry (platform e) (username e) s (notes e) (id e) (created_at e)
    (updated_at e) (expires_at e).

(** The loop of [change_master_password] over the entries, each of which
    is changed in place: the flag tells whether the loop ran to its end,
    and the list holds the entries as the loop left them, even when it was
    left early (by [return False] or by an exception). *)
Fixpoint reencrypt (old_password new_password : string) (l : list PasswordEntry)
    : World -> (bool * list PasswordEntry) * World := fun w =>
  match l with
  | [] => ((true, []), w)
  | entry :: rest =>
      match (old_encrypted_info ← of_option (json_loads (encrypted_password entry));
             decrypted_password ← of_option (decrypt_data old_encrypted_info old_password);
             new_encrypted_info ← encrypt decrypted_password new_password;
             t ← now;
             mret (update_timestamp t
                     (set_encrypted_password (json_dumps true None new_encrypted_info)
                        entry))) w with
      | (Some entry', w') =>
          let '((ok, rest'), w'') := reencrypt old_password new_password rest w' in
          ((ok, entry' :: rest'), w'')
      | (None, w') => ((false, entry :: rest), w')
      end
  end.

Definition change_master_password (self : DataRepository) (old_password new_password : string)
    : World -> (bool * DataRepository) * World := fun w =>
  match _data_store self, _master_password self with
  | Some store, Some master_password =>
      if negb (String.eqb old_password master_password) then ((false, self), w)
      else
        let '((ok, l), w1) := reencrypt old_password new_password (entries store) w in
        let store1 := set_entries l store in
        if negb ok then ((false, mkDataRepository (Some store1) (Some master_password)), w1)
        else
          match (hash_info ← with_entropy (hash_password new_password None);
                 c ← of_option (master_config store1);
                 t ← now;
                 mret (mkMasterConfig (fst hash_info) (snd hash_info)
                         (clipboard_timeout c) (password_expiry_days c)
                         (auto_backup c) (backup_interval c) (mc_created_at c) t)) w1 with
          | (Some c', w2) =>
              let self' := mkDataRepository
                             (Some (mkDataStore l (Some c') (app_settings store1)
                                      (version store1)))
                             (Some new_password) in
              let '(ok, w3) := save_database self' w2 in
              ((ok, self'), w3)
          | (None, w2) =>
              ((false, mkDataRepository (Some store1) (Some master_password)), w2)
          end
  | _, _ => ((false, self), w)
  end.

End WithLib.
End Repository.

(** ** core/authentication.py *)

Module Authentication.
Import Repository.

(** Modelled from the spec: [config/constants.py], from which
    [authentication.py] imports [MAX_LOGIN_ATTEMPTS], is not among the
    sources; the specification fixes the maximum number of login attempts
    at 3. *)
Definition MAX_LOGIN_ATTEMPTS : Z := 3.

(** The attributes of an [AuthenticationService].  The auto-lock timer is a
    thread of its own and is left out. *)
Record AuthenticationService : Type := mkAuth {
  repository : DataRepository;
  _is_authenticated : bool;
  _login_time : option datetime;
  _last_activity_time : option datetime;
  _failed_attempts : Z;
  _lockout_until : option datetime
}.

(** [AuthenticationService(repository)] *)
Definition AuthenticationService_new (repository : DataRepository) : AuthenticationService :=
  mkAuth repository false None None 0 None.

(** The dict [authenticate] returns, without its message. *)
Record AuthResult : Type := mkAuthResult {
  success : bool;
  locked_out : bool;
  remaining_time : option Z;
  remaining_attempts : option Z
}.

Definition is_locked_out (self : AuthenticationService)
    : World -> (bool * AuthenticationService) * World := fun w =>
  match _lockout_until self with
  | None => ((false, self), w)
  | Some lockout_until =>
      let '(t, w) := read_clock w in
      if (lockout_until <=? t)%Z
      then ((false, mkAuth (repository self) (_is_authenticated self)
                      (_login_time self) (_last_activity_time self) 0 None), w)
      else ((true, self), w)
  end.

(** [int(x)] of a number of microseconds read as seconds: towards zero. *)
Definition int_total_seconds (microseconds : Z) : Z := Z.quot microseconds 1000000.

Definition get_lockout_remaining_time (self : AuthenticationService)
    : World -> (option Z * AuthenticationService) * World := fun w =>
  let '((locked, self), w) := is_locked_out self w in
  if negb locked then ((None, self), w)
  else
    let '(t, w) := read_clock w in
    (((fun lockout_until => Z.max 0 (int_total_seconds (lockout_until - t)))
        <$> _lockout_until self, self), w).

Section WithLib.
Context {L : PyLib}.

Definition authenticate (self : AuthenticationService) (password : string)
    : World -> (AuthResult * AuthenticationService) * World := fun w =>
  let '((locked, self), w) := is_locked_out self w in
  if locked then
    let '((remaining_time, self), w) := get_lockout_remaining_time self w in
    ((mkAuthResult false true remaining_time None, self), w)
  else if String.eqb password "" then
    ((mkAuthResult false false None None, self), w)
  else
    let '((ok, repository), w) := load_database (repository self) password w in
    if ok then
      let '(t1, w) := read_clock w in
      let '(t2, w) := read_clock w in
      ((mkAuthResult true false None None,
        mkAuth repository true (Some t1) (Some t2) 0 None), w)
    else
      let failed_attempts := (_failed_attempts self + 1)%Z in
      if (MAX_LOGIN_ATTEMPTS <=? failed_attempts)%Z then
        let lockout_duration := (5 * 60)%Z in
        let '(t, w) := read_clock w in
        ((mkAuthResult false true (Some lockout_duration) None,
          mkAuth repository (_is_authenticated self) (_login_time self)
            (_last_activity_time self) failed_attempts
            (Some (t + seconds lockout_duration)%Z)), w)
      else
        let remaining_attempts := (MAX_LOGIN_ATTEMPTS - failed_attempts)%Z in
        ((mkAuthResult false false None (Some remaining_attempts),
          mkAuth repository (_is_authenticated self) (_login_time self)
            (_last_activity_time self) failed_attempts (_lockout_until self)), w).

(** [authenticate] with each password of a list in turn: the results and
    the service after the last call. *)
Fixpoint authenticate_all (self : AuthenticationService) (passwords : list string)
    : World -> (list AuthResult * AuthenticationService) * World := fun w =>
  match passwords with
  | [] => (([], self), w)
  | password :: rest =>
      let '((r, self), w) := authenticate self password w in
      let '((rs, self), w) := authenticate_all self rest w in
      ((r :: rs, self), w)
  end.

End WithLib.
End Authentication.

(** ** The interpreter of the port tool

    What [int] and [list] do depends on the interpreter that runs the tool:
    on its Unicode database, on its limit for the digits of an integer
    literal, and on the room it has for a list. *)

Class Interpreter : Type := {
  (** [Py_UNICODE_TODECIMAL]: the value of a character that is a decimal
      digit of some script. *)
  to_decimal : N -> option Z;
  to_decimal_range : forall c d, to_decimal c = Some d -> (0 <= d <= 9)%Z;
  (** [sys.get_int_max_str_digits()]; 0 when there is no limit, as before
      Python 3.11. *)
  int_max_str_digits : Z;
  (** The number of items a list can grow to: beyond it [list.append] and
      [list.extend] raise [MemoryError], and beyond [sys.maxsize], which is
      at most 2^63 - 1, [list.extend] raises [OverflowError] at once. *)
  list_capacity : Z;
  list_capacity_nonneg : (0 <= list_capacity)%Z;
  list_capacity_maxsize : (list_capacity <= 9223372036854775807)%Z
}.

(** ** Python's string methods used by the port tool *)

Module PyStr.
#[local] Open Scope N_scope.

(** The text the user types for the ports: a [str] as the list of its
    characters, each the number of its code point. *)
Definition str : Type := list N.

(** A text of characters below U+0100, from its characters. *)
Definition of_ascii (s : string) : str := map N_of_ascii (list_ascii_of_string s).

Definition comma : N := 44.
Definition hyphen : N := 45.
Definition plus : N := 43.
Definition underscore : N := 95.

(** [c.isspace()] *)
Definition is_space (c : N) : bool :=
  ((9 <=? c) && (c <=? 13)) || ((28 <=? c) && (c <=? 32)) || (c =? 133) || (c =? 160)
  || (c =? 5760) || ((8192 <=? c) && (c <=? 8202)) || (c =? 8232) || (c =? 8233)
  || (c =? 8239) || (c =? 8287) || (c =? 12288).

Fixpoint lstrip_with (space : N -> bool) (s : str) : str :=
  match s with
  | c :: s' => if space c then lstrip_with space s' else s
  | [] => []
  end.

Definition rstrip_with (space : N -> bool) (s : str) : str :=
  rev (lstrip_with space (rev s)).

Definition strip_with (space : N -> bool) (s : str) : str :=
  lstrip_with space (rstrip_with space s).

(** [s.strip()] *)
Definition strip (s : str) : str := strip_with is_space s.

(** [s.split(sep)] for a separator of one character. *)
Fixpoint split (sep : N) (s : str) : list str :=
  match s with
  | [] => [[]]
  | c :: s' =>
      if c =? sep then [] :: split sep s'
      else match split sep s' with
           | x :: xs => (c :: x) :: xs
           | [] => [[c]]
           end
  end.

(** [s.split(sep, 1)]: cut at the first separator only. *)
Fixpoint split1 (sep : N) (s : str) : list str :=
  match s with
  | [] => [[]]
  | c :: s' =>
      if c =? sep then [[]; s']
      else match split1 sep s' with
           | x :: xs => (c :: x) :: xs
           | [] => [[c]]
           end
  end.

(** [c in s] for a character. *)
Definition contains (c : N) (s : str) : bool := existsb (N.eqb c) s.

Section WithInterpreter.
Context {I : Interpreter}.

(** What [int] takes for white space around the number: of the characters
    below 127 those of C's [isspace], of the others those of
    [str.isspace]. *)
Definition is_int_space (c : N) : bool :=
  if c <? 127 then ((9 <=? c) && (c <=? 13)) || (c =? 32) else is_space c.

(** What [int] takes for a digit: the digits 0 to 9 and, of the characters
    from 127 on that are no white space, the decimal digits of the Unicode
    database. *)
Definition digit_of (c : N) : option Z :=
  if c <? 127
  then if (48 <=? c) && (c <=? 57) then Some (Z.of_N c - 48)%Z else None
  else if is_space c then None else to_decimal c.

(** The digits of an integer literal, with single underscores between
    digits: the number they make and how many they are. *)
Fixpoint int_digits (acc count : Z) (after_digit : bool) (s : str) : option (Z * Z) :=
  match s with
  | [] => if after_digit then Some (acc, count) else None
  | c :: s' =>
      if c =? underscore
      then if after_digit then int_digits acc count false s' else None
      else match digit_of c with
           | Some d => int_digits (10 * acc + d)%Z (count + 1)%Z true s'
           | None => None
           end
  end.

(** The limit on the digits of a literal, which applies to more than 640
    digits only. *)
Definition within_digit_limit (count : Z) : bool :=
  negb ((640 <? count)%Z && (0 <? int_max_str_digits)%Z && (int_max_str_digits <? count)%Z).

(** [int(s)] for a [str]: [None] is [ValueError]. *)
Definition int (s : str) : option Z :=
  let body := strip_with is_int_space s in
  let '(negative, body) :=
    match body with
    | c :: rest => if c =? plus then (false, rest)
                   else if c =? hyphen then (true, rest)
                   else (false, body)
    | [] => (false, [])
    end in
  match int_digits 0 0 false body with
  | Some (n, count) =>
      if within_digit_limit count then Some (if negative : bool then (- n)%Z else n)
      else None
  | None => None
  end.

End WithInterpreter.

(** [list(range(start, stop))] *)
Definition range (start stop : Z) : list Z :=
  map (fun i => (start + Z.of_nat i)%Z) (seq 0 (Z.to_nat (stop - start))).

End PyStr.

(** ** src/models/data_models.py *)

Module DataModels.

Inductive PortStatus : Type := LISTEN | ESTABLISHED | CLOSED | TIME_WAIT | UNKNOWN.
Inductive Protocol : Type := TCP | UDP.
Inductive ScanType : Type := LOCAL | REMOTE.

(** [PortStatus(s)], [Protocol(s)] and [ScanType(s)]: the member with that
    value, [None] for [ValueError]. *)
Definition PortStatus_of_value (s : string) : option PortStatus :=
  if String.eqb s "LISTEN" then Some LISTEN
  else if String.eqb s "ESTABLISHED" then Some ESTABLISHED
  else if String.eqb s "CLOSED" then Some CLOSED
  else if String.eqb s "TIME_WAIT" then Some TIME_WAIT
  else if String.eqb s "UNKNOWN" then Some UNKNOWN
  else None.

Definition ScanType_of_value (s : string) : option ScanType :=
  if String.eqb s "local" then Some LOCAL
  else if String.eqb s "remote" then Some REMOTE
  else None.

Record PortInfo : Type := mkPortInfo {
  port : Z;
  status : PortStatus;
  protocol : Protocol;
  local_address : string;
  remote_address : string;
  pid : option Z;
  process_name : option string
}.

(** [PortInfo(...)] with a status given as a member or as a string; the
    detailed process information plays no part here and is left out. *)
Definition PortInfo_new (port : Z) (status : PortStatus + string) (protocol : Protocol)
    (local_address remote_address : string) (pid : option Z)
    (process_name : option string) : PortInfo :=
  let status := match status with
                | inl st => st
                | inr s => default UNKNOWN (PortStatus_of_value s)
                end in
  mkPortInfo port status protocol local_address remote_address pid process_name.

Definition is_occupied (p : PortInfo) : bool :=
  match status p with
  | LISTEN | ESTABLISHED => true
  | _ => false
  end.

Record RemoteConfig : Type := mkRemoteConfig {
  host : string;
  username : string;
  password : string;
  private_key_path : string;
  ssh_port : Z;
  timeout : Z;
  name : string
}.

(** [RemoteConfig(...)]: [None] is the [ValueError] of [__post_init__]. *)
Definition RemoteConfig_new (host username password private_key_path : string)
    (port timeout : Z) (name : string) : option RemoteConfig :=
  let name := if String.eqb name "" then (username +:+ "@" +:+ host)%string else name in
  if negb ((1 <=? port)%Z && (port <=? 65535)%Z) then None
  else
    let timeout := if (timeout <=? 0)%Z then 10%Z else timeout in
    Some (mkRemoteConfig host username password private_key_path port timeout name).

Record ScanResult : Type := mkScanResult {
  scan_time : datetime;
  scan_type : ScanType;
  port_info_list : list PortInfo;
  scan_success : bool;
  error_message : string;
  scan_duration : float;
  total_ports : Z;
  occupied_ports : Z;
  sr_remote_config : option RemoteConfig
}.

(** [ScanResult(...)]: whatever is passed for the two counts,
    [__post_init__] overwrites them. *)
Definition ScanResult_new (scan_time : datetime) (scan_type : ScanType + string)
    (port_info_list : list PortInfo) (success : bool) (error_message : string)
    (scan_duration : float) (total_ports occupied_ports : Z)
    (remote_config : option RemoteConfig) : ScanResult :=
  let scan_type := match scan_type with
                   | inl t => t
                   | inr s => default LOCAL (ScanType_of_value s)
                   end in
  let total_ports := Z.of_nat (length port_info_list) in
  let occupied_ports := Z.of_nat (length (filter (fun p => is_occupied p = true) port_info_list)) in
  mkScanResult scan_time scan_type port_info_list success error_message
    scan_duration total_ports occupied_ports remote_config.

Definition free_ports (r : ScanResult) : Z := (total_ports r - occupied_ports r)%Z.

(** [float(n)] for a count, which is far below 2^53. *)
Definition float_of_int (n : Z) : float := PrimFloat.of_uint63 (Uint63.of_Z n).

(** [occupation_rate]: the true division of two ints rounds their exact
    quotient to the nearest binary64 number, as the division of the two
    floats does. *)
Definition occupation_rate (r : ScanResult) : float :=
  if (total_ports r =? 0)%Z then 0%float
  else PrimFloat.mul (PrimFloat.div (float_of_int (occupied_ports r))
                                   (float_of_int (total_ports r)))
                     100%float.

Record ScanConfig : Type := mkScanConfig {
  port_range : list Z;
  sc_scan_type : ScanType;
  sc_timeout : float;
  max_threads : Z;
  protocols : list Protocol;
  sc_remote_config : option RemoteConfig
}.

(** [sorted(list(set(l)))] *)
Definition sorted_set (l : list Z) : list Z := merge_sort Z.le (remove_dups l).

(** [ScanConfig(...)] with its [__post_init__]. *)
Definition ScanConfig_new (port_range : list Z) (scan_type : ScanType)
    (timeout : float) (max_threads : Z) (protocols : option (list Protocol))
    (remote_config : option RemoteConfig) : ScanConfig :=
  let protocols := default [TCP; UDP] protocols in
  let valid_ports := filter (fun port => (1 <= port <= 65535)%Z) port_range in
  let port_range := sorted_set valid_ports in
  let max_threads := if (max_threads <=? 0)%Z then 50%Z
                     else if (200 <? max_threads)%Z then 200%Z
                     else max_threads in
  let timeout := if PrimFloat.leb timeout 0%float then 1%float else timeout in
  mkScanConfig port_range scan_type timeout max_threads protocols remote_config.

Section WithInterpreter.
Context {I : Interpreter}.

(** Whether [ports] can take [n] more items; [ports.append(x)] and
    [ports.extend(xs)] raise [MemoryError], or [OverflowError], when it
    cannot. *)
Definition fits (ports : list Z) (n : Z) : bool :=
  (Z.of_nat (length ports) + n <=? list_capacity)%Z.

(** One round of the loop of [from_port_string]: what the token [part]
    adds to [ports].  [None] is an exception that the [except ValueError]
    of the loop does not catch. *)
Definition add_part (ports : list Z) (part : PyStr.str) : option (list Z) :=
  if PyStr.contains PyStr.hyphen part then
    match PyStr.split1 PyStr.hyphen part with
    | [a; b] =>
        match PyStr.int a with
        | Some start =>
            match PyStr.int b with
            | Some end_ =>
                if (start <=? end_)%Z
                then if fits ports (end_ + 1 - start)
                     then Some (ports ++ PyStr.range start (end_ + 1))
                     else None
                else Some ports
            | None => Some ports
            end
        | None => Some ports
        end
    | _ => Some ports
    end
  else
    match PyStr.int part with
    | Some port => if fits ports 1 then Some (ports ++ [port]) else None
    | None => Some ports
    end.

(** The loop [for part in parts]. *)
Fixpoint add_parts (ports : list Z) (parts : list PyStr.str) : option (list Z) :=
  match parts with
  | [] => Some ports
  | part :: rest => ports ← add_part ports part; add_parts ports rest
  end.

(** [ScanConfig.from_port_string(port_string, **kwargs)] with the keyword
    arguments of the constructor spelled out; [None] is an exception that
    leaves the method. *)
Definition from_port_string (port_string : PyStr.str) (scan_type : ScanType)
    (timeout : float) (max_threads : Z) (protocols : option (list Protocol))
    (remote_config : option RemoteConfig) : option ScanConfig :=
  let parts := map PyStr.strip (PyStr.split PyStr.comma port_string) in
  ports ← add_parts [] parts;
  Some (ScanConfig_new ports scan_type timeout max_threads protocols remote_config).

End WithInterpreter.

End DataModels.

(** ** src/utils/config.py *)

Module ConfigManager.
Import DataModels.

(** [dataclasses.asdict(config)] *)
Definition asdict (c : RemoteConfig) : list (string * json) :=
  [("host", JStr (host c));
   ("username", JStr (username c));
   ("password", JStr (password c));
   ("private_key_path", JStr (private_key_path c));
   ("port", JInt (ssh_port c));
   ("timeout", JInt (timeout c));
   ("name", JStr (name c))].

(** The loop of [save_remote_configs] that builds [config_dicts]. *)
Definition config_dicts (configs : list RemoteConfig) : list json :=
  map (fun config =>
         let config_dict := asdict config in
         let config_dict := dict_set "password" (JStr "") config_dict in
         JDict config_dict) configs.

Section WithLib.
Context {L : PyLib}.

(** [save_remote_configs(configs)] on the content of
    [remote_servers.json] ([None]: no such file); [io_error] is the
    [IOError] that the writing meets, if any: the file cannot be opened and
    stays as it was, or [json.dump] breaks off in a file that [open] has
    emptied already, and the file is left with a beginning of the
    document. *)
Definition save_remote_configs (configs : list RemoteConfig) (io_error : option fault)
    (remote_config_file : option string) : bool * option string :=
  let data := JDict [("remote_servers", JList (config_dicts configs))] in
  match io_error with
  | None => (true, Some (json_dumps false (Some 2) data))
  | Some Refused => (false, remote_config_file)
  | Some (Broken n) =>
      (false, Some (String.substring 0 n (json_dumps false (Some 2) data)))
  end.

End WithLib.
End ConfigManager.

(** ** security/password_generator.py *)

Module PasswordGenerator.

(** The [random] module: the numbers its generator will produce, and how
    many of them were used. *)
Record PyRandom : Type := mkPyRandom {
  draws : nat -> nat;
  drawn : nat
}.

(** [random._randbelow(n)] for [n > 0]: any number below [n]. *)
Definition randbelow (n : nat) (r : PyRandom) : nat * PyRandom :=
  (draws r (drawn r) mod n, mkPyRandom (draws r) (S (drawn r))).

(** [random.choice(seq)]: [None] is the [IndexError] of an empty
    sequence. *)
Definition choice {A} (seq : list A) (r : PyRandom) : option A * PyRandom :=
  match seq with
  | [] => (None, r)
  | _ => let '(i, r') := randbelow (length seq) r in (seq !! i, r')
  end.

(** [x[i], x[j] = x[j], x[i]] *)
Definition swap {A} (i j : nat) (x : list A) : list A :=
  match x !! i, x !! j with
  | Some a, Some b => <[j := a]> (<[i := b]> x)
  | _, _ => x
  end.

(** [random.shuffle(x)]: for [i] from [len(x) - 1] down to 1, exchange
    [x[i]] with [x[j]] for a random [j <= i]. *)
Fixpoint shuffle_from {A} (i : nat) (x : list A) (r : PyRandom) : list A * PyRandom :=
  match i with
  | O => (x, r)
  | S i' =>
      let '(j, r') := randbelow (S i) r in
      shuffle_from i' (swap i j x) r'
  end.

Definition shuffle {A} (x : list A) (r : PyRandom) : list A * PyRandom :=
  shuffle_from (length x - 1) x r.

(** The attributes set by [PasswordGenerator.__init__]. *)
Definition lowercase : string := "abcdefghijklmnopqrstuvwxyz".
Definition uppercase : string := "ABCDEFGHIJKLMNOPQRSTUVWXYZ".
Definition digits : string := "0123456789".
Definition symbols : string := "!@#$%^&*()_+-=[]{}|;:,.<>?".

(** One of the four [if include_...:] blocks: the pool joins the character
    set and one random character of it the required characters. *)
Definition add_class (include : bool) (pool : string)
    (st : option (string * list ascii) * PyRandom) : option (string * list ascii) * PyRandom :=
  match st with
  | (Some (charset, required_chars), r) =>
      if include then
        match choice (list_ascii_of_string pool) r with
        | (Some c, r') => (Some ((charset +:+ pool)%string, required_chars ++ [c]), r')
        | (None, r') => (None, r')
        end
      else st
  | (None, _) => st
  end.

(** [[random.choice(charset) for _ in range(n)]] *)
Fixpoint random_chars (n : nat) (charset : list ascii) (r : PyRandom)
    : option (list ascii) * PyRandom :=
  match n with
  | O => (Some [], r)
  | S n' =>
      match choice charset r with
      | (Some c, r') =>
          match random_chars n' charset r' with
          | (Some cs, r'') => (Some (c :: cs), r'')
          | (None, r'') => (None, r'')
          end
      | (None, r') => (None, r')
      end
  end.

(** [generate_password]: [None] is an exception, the [ValueError] of a
    length below 4 or of no character class. *)
Definition generate_password (length : Z)
    (include_lowercase include_uppercase include_digits include_symbols : bool)
    (r : PyRandom) : option string * PyRandom :=
  if (length <? 4)%Z then (None, r)
  else
    let st := (Some (EmptyString, []), r) in
    let st := add_class include_lowercase lowercase st in
    let st := add_class include_uppercase uppercase st in
    let st := add_class include_digits digits st in
    let st := add_class include_symbols symbols st in
    match st with
    | (Some (charset, required_chars), r) =>
        if String.eqb charset "" then (None, r)
        else
          let remaining_length := (length - Z.of_nat (List.length required_chars))%Z in
          let extended :=
            if (0 <? remaining_length)%Z then
              match random_chars (Z.to_nat remaining_length)
                      (list_ascii_of_string charset) r with
              | (Some cs, r') => (Some (required_chars ++ cs), r')
              | (None, r') => (None, r')
              end
            else (Some required_chars, r) in
          match extended with
          | (Some required_chars, r) =>
              let password_chars := slice_to required_chars length in
              let '(password_chars, r) := shuffle password_chars r in
              (Some (string_of_list_ascii password_chars), r)
          | (None, r) => (None, r)
          end
    | (None, r) => (None, r)
    end.

End PasswordGenerator.

(** ** The entries as objects

    [DataStore.entries] is a list of references to [PasswordEntry] objects,
    and [update_entry] changes the object it is given before it puts that
    very object in the list.  Here the heap tells what each reference
    stands for, and the methods are followed statement by statement. *)

Module Objects.
Import Models.

Definition ref := nat.
Definition heap := ref -> PasswordEntry.

(** [r.field = value] for each field [update_entry] assigns. *)
Definition assign (r : ref) (f : PasswordEntry -> PasswordEntry) (h : heap) : heap :=
  fun r' => if Nat.eqb r' r then f (h r) else h r'.

Definition set_id (v : string) (e : PasswordEntry) : PasswordEntry :=
  mkPasswordEntry (platform e) (username e) (encrypted_password e) (notes e)
    v (created_at e) (updated_at e) (expires_at e).

Definition set_created_at (v : datetime) (e : PasswordEntry) : PasswordEntry :=
  mkPasswordEntry (platform e) (username e) (encrypted_password e) (notes e)
    (id e) v (updated_at e) (expires_at e).

(** The first position [i] (counted from [i0]) whose entry has the id. *)
Fixpoint find_entry (entry_id : string) (h : heap) (l : list ref) (i0 : nat)
    : option (nat * ref) :=
  match l with
  | [] => None
  | entry :: rest =>
      if String.eqb (id (h entry)) entry_id then Some (i0, entry)
      else find_entry entry_id h rest (S i0)
  end.

(** [DataStore.update_entry(entry_id, updated_entry)]; [current_time] is
    what [datetime.now()] returns in [update_timestamp]. *)
Definition update_entry (current_time : datetime) (entry_id : string)
    (updated_entry : ref) (entries : list ref) (h : heap)
    : bool * (list ref * heap) :=
  match find_entry entry_id h entries 0 with
  | Some (i, entry) =>
      let h := assign updated_entry (set_id entry_id) h in
      let h := assign updated_entry (set_created_at (created_at (h entry))) h in
      let h := assign updated_entry (update_timestamp current_time) h in
      (true, (<[i := updated_entry]> entries, h))
  | None => (false, (entries, h))
  end.

(** [DataStore.get_entry_by_id(entry_id)] *)
Definition get_entry_by_id (entry_id : string) (entries : list ref) (h : heap)
    : option ref :=
  snd <$> find_entry entry_id h entries 0.

(** The entries as values, as [to_dict] would read them. *)
Definition view (entries : list ref) (h : heap) : list PasswordEntry := map h entries.

End Objects.

(** ** Python's string methods used by the password manager

    The character classes and the case mapping of [str], on the characters
    below 256. *)

Module PyText.

(** [c in s] for a character. *)
Fixpoint contains_char (c : ascii) (s : string) : bool :=
  match s with
  | EmptyString => false
  | String c' s' => Ascii.eqb c' c || contains_char c s'
  end.

Definition between (lo hi : nat) (c : ascii) : bool :=
  let n := nat_of_ascii c in (lo <=? n)%nat && (n <=? hi)%nat.

(** [c.islower()], [c.isupper()] and [c.isdigit()] *)
Definition islower (c : ascii) : bool :=
  between 97 122 c || between 170 170 c || between 181 181 c
  || between 186 186 c || between 223 246 c || between 248 255 c.

Definition isupper (c : ascii) : bool :=
  between 65 90 c || between 192 214 c || between 216 222 c.

Definition isdigit (c : ascii) : bool :=
  between 48 57 c || between 178 179 c || between 185 185 c.

(** [s.lower()]: every upper-case character below 256 has its lower-case
    form 32 places further. *)
Definition lower_char (c : ascii) : ascii :=
  if isupper c then ascii_of_nat (nat_of_ascii c + 32) else c.

Fixpoint lower (s : string) : string :=
  match s with
  | EmptyString => EmptyString
  | String c s' => String (lower_char c) (lower s')
  end.

(** [any(p(c) for c in s)] *)
Fixpoint any (p : ascii -> bool) (s : string) : bool :=
  match s with
  | EmptyString => false
  | String c s' => p c || any p s'
  end.

(** [len(set(s))] *)
Definition distinct_chars (s : string) : nat :=
  length (remove_dups (list_ascii_of_string s)).

(** The number of [i] in [range(len(s) - 1)] with [p(s[i], s[i+1])]. *)
Fixpoint count_pairs (p : ascii -> ascii -> bool) (s : string) : nat :=
  match s with
  | String a s' =>
      match s' with
      | String b _ => (if p a b then 1 else 0) + count_pairs p s'
      | EmptyString => 0
      end
  | EmptyString => 0
  end.

(** The number of [i] in [range(len(s) - 2)] with
    [p(s[i], s[i+1], s[i+2])]. *)
Fixpoint count_triples (p : ascii -> ascii -> ascii -> bool) (s : string) : nat :=
  match s with
  | String a s' =>
      match s' with
      | String b (String c _) => (if p a b c then 1 else 0) + count_triples p s'
      | _ => 0
      end
  | EmptyString => 0
  end.

End PyText.

(** ** core/models.py: expiry and search *)

Module Queries.
Import Models.

(** [entry.is_expired()]; [expires_at] is never [None] after
    [__post_init__]. *)
Definition is_expired (entry : PasswordEntry) : Py bool :=
  current_time ← now;
  mret (expires_at entry <? current_time)%Z.

(** [timedelta.days]: the whole days of a difference, rounded down. *)
Definition timedelta_days (delta : Z) : Z := (delta `div` days 1)%Z.

Definition days_until_expiry (entry : PasswordEntry) : Py Z :=
  current_time ← now;
  mret (timedelta_days (expires_at entry - current_time)).

(** The condition of the loop of [search_entries], on the lowered search
    term. *)
Definition matches (search_term : string) (entry : PasswordEntry) : bool :=
  is_substring search_term (PyText.lower (platform entry))
  || is_substring search_term (PyText.lower (username entry))
  || is_substring search_term (PyText.lower (notes entry)).

Definition search_entries (search_term : string) (s : DataStore) : list PasswordEntry :=
  if String.eqb search_term "" then entries s
  else
    let search_term := PyText.lower search_term in
    List.filter (matches search_term) (entries s).

(** [[entry for entry in entries if entry.is_expired()]]: the clock is read
    once for every entry. *)
Fixpoint expired_among (l : list PasswordEntry) : Py (list PasswordEntry) :=
  match l with
  | [] => mret []
  | entry :: rest =>
      expired ← is_expired entry;
      results ← expired_among rest;
      mret (if expired : bool then entry :: results else results)
  end.

Definition get_expired_entries (s : DataStore) : Py (list PasswordEntry) :=
  expired_among (entries s).

(** The loop of [get_expiring_soon_entries]. *)
Fixpoint expiring_among (days : Z) (l : list PasswordEntry) : Py (list PasswordEntry) :=
  match l with
  | [] => mret []
  | entry :: rest =>
      days_left ← days_until_expiry entry;
      results ← expiring_among days rest;
      mret (if (0 <=? days_left)%Z && (days_left <=? days)%Z
            then entry :: results else results)
  end.

Definition get_expiring_soon_entries (days : Z) (s : DataStore) : Py (list PasswordEntry) :=
  expiring_among days (entries s).

End Queries.

(** ** data/repository.py: the entries of a loaded repository *)

Module RepositoryEntries.
Import Crypto Models Repository.

Definition is_database_exists : Py bool := path_exists DataFile.

Definition get_data_store (self : DataRepository) : option DataStore := _data_store self.

Definition get_password_entries (self : DataRepository) (search_term : string)
    : list PasswordEntry :=
  match _data_store self, _master_password self with
  | Some store, Some _ => Queries.search_entries search_term store
  | _, _ => []
  end.

Definition get_password_entry_by_id (self : DataRepository) (entry_id : string)
    : option PasswordEntry :=
  match _data_store self, _master_password self with
  | Some store, Some _ => get_entry_by_id entry_id store
  | _, _ => None
  end.

Definition get_app_settings (self : DataRepository) : option AppSettings :=
  match _data_store self, _master_password self with
  | Some store, Some _ => Some (app_settings store)
  | _, _ => None
  end.

(** [get_expired_entries] and [get_expiring_soon_entries]: the store's
    answer, or the empty list when nothing is loaded. *)
Definition get_expired_entries (self : DataRepository) : Py (list PasswordEntry) :=
  match _data_store self, _master_password self with
  | Some store, Some _ => Queries.get_expired_entries store
  | _, _ => mret []
  end.

Definition get_expiring_soon_entries (self : DataRepository) (days : Z)
    : Py (list PasswordEntry) :=
  match _data_store self, _master_password self with
  | Some store, Some _ => Queries.get_expiring_soon_entries days store
  | _, _ => mret []
  end.

Section WithLib.
Context {L : PyLib}.


(** [update_app_settings(settings)] *)
Definition update_app_settings (self : DataRepository) (settings : AppSettings)
    : World -> (bool * DataRepository) * World := fun w =>
  match _data_store self, _master_password self with
  | Some store, Some master_password =>
      let '(t, w) := read_clock w in
      let settings := mkAppSettings (theme settings) (window_width settings)
                        (window_height settings) (window_x settings) (window_y settings)
                        (auto_lock_timeout settings) (show_password_strength settings)
                        (confirm_delete settings) t in
      let self' := mkDataRepository
                     (Some (mkDataStore (entries store) (master_config store) settings
                              (version store)))
                     (Some master_password) in
      let '(ok, w) := save_database self' w in
      ((ok, self'), w)
  | _, _ => ((false, self), w)
  end.

End WithLib.
End RepositoryEntries.

(** ** security/password_generator.py: the strength of a password *)

Module PasswordStrength.
Import PasswordGenerator.

(** The values of ['level']: 无密码, 很强, 强, 中等, 弱 and 很弱. *)
Inductive Level : Type := NoPassword | VeryStrong | Strong | Medium | Weak | VeryWeak.

(** The entries of ['feedback'], in the order of the source: 请输入密码,
    密码长度至少应为6位, 建议包含小写字母, 建议包含大写字母, 建议包含数字,
    建议包含特殊符号, 避免使用常见模式 with the pattern found,
    避免使用连续字符, 避免重复字符 and 密码强度良好. *)
Inductive Feedback : Type :=
| EnterPassword
| AtLeastSix
| AddLowercase
| AddUppercase
| AddDigit
| AddSymbol
| AvoidPattern (pattern : string)
| AvoidConsecutive
| AvoidRepeated
| GoodStrength.

Record Strength : Type := mkStrength {
  score : Z;
  level : Level;
  feedback : list Feedback
}.

Definition common_patterns : list string :=
  ["123456"; "password"; "qwerty"; "abc123"; "111111"; "000000"; "admin"; "root"].

(** [sum([has_lower, has_upper, has_digit, has_symbol])] *)
Definition count_true (l : list bool) : Z :=
  Z.of_nat (length (List.filter id l)).

Definition level_of (score : Z) : Level :=
  if (80 <=? score)%Z then VeryStrong
  else if (60 <=? score)%Z then Strong
  else if (40 <=? score)%Z then Medium
  else if (20 <=? score)%Z then Weak
  else VeryWeak.

Definition calculate_strength (password : string) : Strength :=
  if String.eqb password "" then mkStrength 0 NoPassword [EnterPassword]
  else
    let score := 0%Z in
    let feedback := [] in
    (* the length *)
    let length := String.length password in
    let '(score, feedback) :=
      if (12 <=? length)%nat then ((score + 25)%Z, feedback)
      else if (8 <=? length)%nat then ((score + 15)%Z, feedback)
      else if (6 <=? length)%nat then ((score + 10)%Z, feedback)
      else (score, feedback ++ [AtLeastSix]) in
    (* the classes of characters *)
    let has_lower := PyText.any PyText.islower password in
    let has_upper := PyText.any PyText.isupper password in
    let has_digit := PyText.any PyText.isdigit password in
    let has_symbol := PyText.any (fun c => PyText.contains_char c symbols) password in
    let char_types := count_true [has_lower; has_upper; has_digit; has_symbol] in
    let score := (score + char_types * 15)%Z in
    let feedback := if negb has_lower then feedback ++ [AddLowercase] else feedback in
    let feedback := if negb has_upper then feedback ++ [AddUppercase] else feedback in
    let feedback := if negb has_digit then feedback ++ [AddDigit] else feedback in
    let feedback := if negb has_symbol then feedback ++ [AddSymbol] else feedback in
    (* the distinct characters *)
    let unique_chars := PyText.distinct_chars password in
    let score :=
      if (unique_chars =? length)%nat then (score + 10)%Z
      else if PrimFloat.leb
                (PrimFloat.mul (DataModels.float_of_int (Z.of_nat length)) 0.8%float)
                (DataModels.float_of_int (Z.of_nat unique_chars))
           then (score + 5)%Z
           else score in
    (* the common patterns: the first one found counts *)
    let password_lower := PyText.lower password in
    let '(score, feedback) :=
      match find (fun pattern => Models.is_substring pattern password_lower)
              common_patterns with
      | Some pattern => ((score - 20)%Z, feedback ++ [AvoidPattern pattern])
      | None => (score, feedback)
      end in
    (* characters that follow each other in the alphabet *)
    let consecutive_count :=
      PyText.count_pairs
        (fun a b => (nat_of_ascii b =? nat_of_ascii a + 1)%nat) password in
    let '(score, feedback) :=
      if (3 <=? consecutive_count)%nat
      then ((score - 10)%Z, feedback ++ [AvoidConsecutive])
      else (score, feedback) in
    (* characters that repeat *)
    let repeat_count := PyText.count_pairs Ascii.eqb password in
    let '(score, feedback) :=
      if (2 <=? repeat_count)%nat
      then ((score - 10)%Z, feedback ++ [AvoidRepeated])
      else (score, feedback) in
    let score := Z.max 0 (Z.min 100 score) in
    let level := level_of score in
    let feedback := match feedback with [] => [GoodStrength] | _ => feedback end in
    mkStrength score level feedback.

End PasswordStrength.

(** ** security/validator.py *)

Module Validator.

(** The entries of ['errors'] and ['warnings'] of
    [validate_master_password]: 主密码不能为空, 主密码至少需要8个字符,
    主密码不能超过128个字符, 主密码至少需要包含3种字符类型,
    不能使用常见的弱密码; 建议主密码长度至少为12位,
    建议包含特殊符号以提高安全性, 避免连续重复相同字符. *)
Inductive MasterError : Type :=
| MasterEmpty | MasterTooShort | MasterTooLong | MasterFewTypes | MasterWeak.

Inductive MasterWarning : Type :=
| AdviseTwelve | AdviseSymbol | AdviseNoRepeats.

Record MasterValidation : Type := mkMasterValidation {
  is_valid : bool;
  errors : list MasterError;
  warnings : list MasterWarning
}.

(** The symbols [validate_master_password] looks for: those of the
    generator, the double quote and the apostrophe. *)
Definition master_symbols : string :=
  "!@#$%^&*()_+-=[]{}|;:,.<>?" +:+ String "034"%char "''".

Definition weak_passwords : list string :=
  ["password"; "12345678"; "qwerty123"; "admin123"; "password123"; "123456789";
   "qwertyuiop"].

Definition validate_master_password (password : string) : MasterValidation :=
  if String.eqb password "" then mkMasterValidation false [MasterEmpty] []
  else
    let errors := [] in
    let warnings := [] in
    let errors := if (String.length password <? 8)%nat
                  then errors ++ [MasterTooShort] else errors in
    let errors := if (128 <? String.length password)%nat
                  then errors ++ [MasterTooLong] else errors in
    let has_lower := PyText.any PyText.islower password in
    let has_upper := PyText.any PyText.isupper password in
    let has_digit := PyText.any PyText.isdigit password in
    let has_symbol :=
      PyText.any (fun c => PyText.contains_char c master_symbols) password in
    let char_types :=
      PasswordStrength.count_true [has_lower; has_upper; has_digit; has_symbol] in
    let errors := if (char_types <? 3)%Z then errors ++ [MasterFewTypes] else errors in
    let warnings := if (String.length password <? 12)%nat
                    then warnings ++ [AdviseTwelve] else warnings in
    let warnings := if negb has_symbol then warnings ++ [AdviseSymbol] else warnings in
    let errors := if existsb (String.eqb (PyText.lower password)) weak_passwords
                  then errors ++ [MasterWeak] else errors in
    let repeat_count :=
      PyText.count_triples (fun a b c => Ascii.eqb a b && Ascii.eqb b c) password in
    let warnings := if (0 <? repeat_count)%nat
                    then warnings ++ [AdviseNoRepeats] else warnings in
    mkMasterValidation (length errors =? 0)%nat errors warnings.

(** The entries of ['errors'] of [validate_password]: 密码不能为空,
    密码长度不能超过500个字符 and 密码包含不支持的字符. *)
Inductive PasswordError : Type := PasswordEmpty | PasswordTooLong | PasswordBadChar.

(** The characters [validate_password] accepts. *)
Definition printable_chars : string :=
  "abcdefghijklmnopqrstuvwxyz" +:+ "ABCDEFGHIJKLMNOPQRSTUVWXYZ" +:+ "0123456789"
  +:+ "!@#$%^&*()_+-=[]{}|;:,.<>?" +:+ String "034"%char "'"
  +:+ String " "%char (String "009"%char (String "010"%char (String "013"%char ""))).

(** [validate_password(password)] as the pair of ['is_valid'] and
    ['errors']. *)
Definition validate_password (password : string) : bool * list PasswordError :=
  if String.eqb password "" then (false, [PasswordEmpty])
  else
    let errors := [] in
    let errors := if (String.length password <? 1)%nat
                  then errors ++ [PasswordEmpty] else errors in
    let errors := if (500 <? String.length password)%nat
                  then errors ++ [PasswordTooLong] else errors in
    let errors :=
      if PyText.any (fun char => negb (PyText.contains_char char printable_chars)) password
      then errors ++ [PasswordBadChar] else errors in
    ((length errors =? 0)%nat, errors).

End Validator.

(** ** core/authentication.py: the master password and the session *)

Module AuthenticationSession.
Import Repository Authentication Validator.

(** The dict of [create_master_password] and of [change_master_password],
    without its message; a key that the dict does not have is [None]. *)
Record PasswordResult : Type := mkPasswordResult {
  pr_success : bool;
  pr_errors : option (list MasterError);
  pr_warnings : option (list MasterWarning)
}.

Definition set_repository (repository : DataRepository) (self : AuthenticationService)
    : AuthenticationService :=
  mkAuth repository (_is_authenticated self) (_login_time self)
    (_last_activity_time self) (_failed_attempts self) (_lockout_until self).

(** [logout()], with no logout callback set. *)
Definition logout (self : AuthenticationService) : AuthenticationService :=
  mkAuth (repository self) false None None (_failed_attempts self) (_lockout_until self).

Definition is_authenticated (self : AuthenticationService) : bool :=
  _is_authenticated self && is_loaded (repository self).

Definition get_failed_attempts (self : AuthenticationService) : Z := _failed_attempts self.

Definition reset_failed_attempts (self : AuthenticationService) : AuthenticationService :=
  mkAuth (repository self) (_is_authenticated self) (_login_time self)
    (_last_activity_time self) 0 None.

Section WithLib.
Context {L : PyLib}.

Definition create_master_password (self : AuthenticationService) (password : string)
    : World -> (PasswordResult * AuthenticationService) * World := fun w =>
  let validation_result := validate_master_password password in
  if negb (is_valid validation_result) then
    ((mkPasswordResult false (Some (errors validation_result))
        (Some (warnings validation_result)), self), w)
  else
    let '((success, repository), w) :=
      initialize_new_database (repository self) password w in
    if success then
      ((mkPasswordResult true None (Some (warnings validation_result)),
        set_repository repository self), w)
    else
      ((mkPasswordResult false None None, set_repository repository self), w).

(** [AuthenticationService.change_master_password] *)
Definition change_master_password (self : AuthenticationService)
    (old_password new_password : string)
    : World -> (PasswordResult * AuthenticationService) * World := fun w =>
  if negb (_is_authenticated self) then
    ((mkPasswordResult false None None, self), w)
  else
    let validation_result := validate_master_password new_password in
    if negb (is_valid validation_result) then
      ((mkPasswordResult false (Some (errors validation_result))
          (Some (warnings validation_result)), self), w)
    else
      let '((success, repository), w) :=
        Repository.change_master_password (repository self) old_password new_password w in
      if success then
        ((mkPasswordResult true None (Some (warnings validation_result)),
          set_repository repository self), w)
      else
        ((mkPasswordResult false None None, set_repository repository self), w).

End WithLib.
End AuthenticationSession.

(** ** core/password_manager.py *)

Module PasswordManager.
Import Crypto Models Repository RepositoryEntries.

Definition set_expires_at (v : datetime) (e : PasswordEntry) : PasswordEntry :=
  mkPasswordEntry (platform e) (username e) (encrypted_password e) (notes e)
    (id e) (created_at e) (updated_at e) v.

(** An assignment to the fields of the entry object that
    [get_entry_by_id] returned, seen in the list that holds it: the first
    entry with the id.  The repository puts a new object in the list for
    every entry, so that no other place of the list holds that object. *)
Fixpoint modify_first (entry_id : string) (f : PasswordEntry -> PasswordEntry)
    (l : list PasswordEntry) : list PasswordEntry :=
  match l with
  | [] => []
  | entry :: rest =>
      if String.eqb (id entry) entry_id then f entry :: rest
      else entry :: modify_first entry_id f rest
  end.

(** The dict of [extend_password_expiry] without its message: ['success']
    and, when it is there, ['new_expiry']. *)
Record ExtendResult : Type := mkExtendResult {
  er_success : bool;
  er_new_expiry : option datetime
}.

(** A [datetime] counts the microseconds from [datetime.min], the start of
    year 1; [datetime.max] is the last microsecond of year 9999, 3652059
    days later. *)
Definition datetime_end : Z := days 3652059.

(** [timedelta(days=d)]: [None] is the [OverflowError] for more than
    999999999 days either way. *)
Definition timedelta_of_days (d : Z) : option Z :=
  if (Z.abs d <=? 999999999)%Z then Some (days d) else None.

(** [t + delta]: [None] is the [OverflowError] for a date outside the years
    1 to 9999. *)
Definition datetime_add (t : datetime) (delta : Z) : option datetime :=
  let r := (t + delta)%Z in
  if (0 <=? r)%Z && (r <? datetime_end)%Z then Some r else None.

Section WithLib.
Context {L : PyLib}.

(** [extend_password_expiry(entry_id, days)]; a result of [None] is the
    [OverflowError] that leaves the method when the new expiry cannot be
    computed, which happens before anything is changed.  When the password
    of the entry does not decrypt, [update_password_entry] is called with
    [None] for the password, and [encrypt_data] raises at [data.encode]
    after it has drawn the salt and the IV. *)
Definition extend_password_expiry (repository : DataRepository) (entry_id : string)
    (days_ : Z) : World -> (option ExtendResult * DataRepository) * World := fun w =>
  match _data_store repository, _master_password repository with
  | Some store, Some master_password =>
      match get_entry_by_id entry_id store with
      | None => ((Some (mkExtendResult false None), repository), w)
      | Some entry =>
          let '(t, w) := read_clock w in
          match timedelta_of_days days_ ≫= datetime_add t with
          | None => ((None, repository), w)
          | Some new_expiry =>
              let '(t', w) := read_clock w in
              let change := fun e => update_timestamp t' (set_expires_at new_expiry e) in
              let entry := change entry in
              let repository :=
                mkDataRepository
                  (Some (set_entries (modify_first entry_id change (entries store)) store))
                  (Some master_password) in
              match decrypt_password repository entry with
              | Some password =>
                  let '((success, repository), w) :=
                    update_password_entry repository entry_id (platform entry)
                      (username entry) password (notes entry) w in
                  if success
                  then ((Some (mkExtendResult true (Some new_expiry)), repository), w)
                  else ((Some (mkExtendResult false None), repository), w)
              | None =>
                  let '(_, w) := with_entropy generate_salt w in
                  let '(_, w) := with_entropy (get_random_bytes iv_length) w in
                  ((Some (mkExtendResult false None), repository), w)
              end
          end
      end
  | _, _ => ((Some (mkExtendResult false None), repository), w)
  end.

End WithLib.
End PasswordManager.

(** ** src/models/data_models.py: validation and the lists of a result *)

Module DataModelsChecks.
Import DataModels.

Definition has_password_auth (c : RemoteConfig) : bool := negb (String.eqb (password c) "").

Definition has_key_auth (c : RemoteConfig) : bool :=
  negb (String.eqb (private_key_path c) "").

(** [RemoteConfig.validate()] *)
Definition validate (c : RemoteConfig) : bool :=
  if String.eqb (host c) "" || String.eqb (username c) "" then false
  else has_password_auth c || has_key_auth c.

Definition get_occupied_ports (r : ScanResult) : list PortInfo :=
  List.filter is_occupied (port_info_list r).

Definition get_free_ports (r : ScanResult) : list PortInfo :=
  List.filter (fun port => negb (is_occupied port)) (port_info_list r).

Definition port_count (c : ScanConfig) : Z := Z.of_nat (length (port_range c)).

(** The messages of [ScanConfig.validate]: 端口范围不能为空,
    端口数量过多，请限制在10000个以内, 远程扫描需要提供远程配置 and
    远程配置无效; [None] is the empty message. *)
Inductive ConfigError : Type := EmptyRange | TooManyPorts | NoRemoteConfig | BadRemoteConfig.

Definition ScanType_eqb (a b : ScanType) : bool :=
  match a, b with
  | LOCAL, LOCAL | REMOTE, REMOTE => true
  | _, _ => false
  end.

(** [ScanConfig.validate()] *)
Definition ScanConfig_validate (c : ScanConfig) : bool * option ConfigError :=
  match port_range c with
  | [] => (false, Some EmptyRange)
  | _ =>
      if (10000 <? port_count c)%Z then (false, Some TooManyPorts)
      else if ScanType_eqb (sc_scan_type c) REMOTE then
        match sc_remote_config c with
        | None => (false, Some NoRemoteConfig)
        | Some remote_config =>
            if negb (validate remote_config) then (false, Some BadRemoteConfig)
            else (true, None)
        end
      else (true, None)
  end.

End DataModelsChecks.

(** ** src/utils/config.py: the remote profiles *)

Module ConfigFiles.
Import DataModels ConfigManager.

(** [RemoteConfig( ** item)]: [None] is the [TypeError] or [ValueError] that
    [load_remote_configs] skips the item for.  The fields are typed here,
    as they are in every file that [save_remote_configs] wrote: an item
    that gives a field a value of another JSON type, which only a file
    edited by hand has and which the dataclass may take as it is, is
    skipped too. *)
Definition RemoteConfig_of_item (item : json) : option RemoteConfig :=
  match item with
  | JDict d =>
      if Models.only_keys ["host"; "username"; "password"; "private_key_path"; "port";
                           "timeout"; "name"] d
      then
        host ← Models.required as_str "host" d;
        username ← Models.required as_str "username" d;
        password ← Models.defaulted as_str "" "password" d;
        private_key_path ← Models.defaulted as_str "" "private_key_path" d;
        port ← Models.defaulted as_int 22%Z "port" d;
        timeout ← Models.defaulted as_int 10%Z "timeout" d;
        name ← Models.defaulted as_str "" "name" d;
        RemoteConfig_new host username password private_key_path port timeout name
      else None
  | _ => None
  end.

Definition same_server (host username : string) (c : RemoteConfig) : bool :=
  String.eqb (DataModels.host c) host && String.eqb (DataModels.username c) username.

(** The loop of [add_remote_config]: the first profile of the host and user
    takes the other fields of the new one; [None] when there is none. *)
Fixpoint update_existing (config : RemoteConfig) (configs : list RemoteConfig)
    : option (list RemoteConfig) :=
  match configs with
  | [] => None
  | existing :: rest =>
      if same_server (host config) (username config) existing
      then Some (mkRemoteConfig (host existing) (username existing) (password config)
                   (private_key_path config) (ssh_port config) (timeout config)
                   (name config) :: rest)
      else cons existing <$> update_existing config rest
  end.

(** The loop of [remove_remote_config]: the list without the first profile
    of the host and user. *)
Fixpoint remove_first (host username : string) (configs : list RemoteConfig)
    : option (list RemoteConfig) :=
  match configs with
  | [] => None
  | config :: rest =>
      if same_server host username config then Some rest
      else cons config <$> remove_first host username rest
  end.

Section WithLib.
Context {L : PyLib}.

(** [load_remote_configs()] on the content of [remote_servers.json];
    [io_error] tells whether reading the file raises [IOError].  The outer
    [None] is an exception that leaves the method: the [AttributeError] of a
    document that is no dict, the [TypeError] of servers that cannot be
    iterated over. *)
Definition load_remote_configs (io_error : bool) (remote_config_file : option string)
    : option (list RemoteConfig) :=
  match remote_config_file with
  | None => Some []
  | Some content =>
      if io_error then Some []
      else
        match json_loads content with
        | None => Some []
        | Some (JDict d) =>
            match default (JList []) (dict_get "remote_servers" d) with
            | JList items => Some (omap RemoteConfig_of_item items)
            | JDict _ | JStr _ => Some []
            | _ => None
            end
        | Some _ => None
        end
  end.

(** [add_remote_config(config)]: the result and the content of the file
    afterwards. *)
Definition add_remote_config (config : RemoteConfig) (read_error : bool)
    (write_error : option fault) (remote_config_file : option string)
    : option (bool * option string) :=
  configs ← load_remote_configs read_error remote_config_file;
  match update_existing config configs with
  | Some configs => Some (save_remote_configs configs write_error remote_config_file)
  | None => Some (save_remote_configs (configs ++ [config]) write_error remote_config_file)
  end.

Definition remove_remote_config (host username : string) (read_error : bool)
    (write_error : option fault) (remote_config_file : option string)
    : option (bool * option string) :=
  configs ← load_remote_configs read_error remote_config_file;
  match remove_first host username configs with
  | Some configs => Some (save_remote_configs configs write_error remote_config_file)
  | None => Some (false, remote_config_file)
  end.

End WithLib.
End ConfigFiles.

(** * Bytes and slices *)

Module BytesFacts.

Lemma xor_ascii_involutive a b : xor_ascii (xor_ascii a b) b = a.
Proof.
  destruct a, b; simpl.
  repeat match goal with
         | |- context [xorb (xorb ?x ?y) ?y] =>
             replace (xorb (xorb x y) y) with x by (destruct x, y; reflexivity)
         end.
  reflexivity.
Qed.

Lemma xor_byte_involutive a b : xor_byte (xor_byte a b) b = a.
Proof.
  unfold xor_byte.
  rewrite ascii_of_byte_of_ascii, xor_ascii_involutive.
  apply byte_of_ascii_of_byte.
Qed.

Lemma length_xor_bytes a b : length (xor_bytes a b) = min (length a) (length b).
Proof.
  revert b; induction a as [|x a IH]; intros [|y b]; simpl; auto.
Qed.

Lemma xor_bytes_involutive a b :
  length a <= length b -> xor_bytes (xor_bytes a b) b = a.
Proof.
  revert b; induction a as [|x a IH]; intros [|y b] Hlen; simpl in *;
    try reflexivity; try lia.
  rewrite xor_byte_involutive, IH by lia. reflexivity.
Qed.

Lemma slice_to_neg {A} (l : list A) (n : nat) :
  0 < n -> slice_to l (- Z.of_nat n) = take (length l - n) l.
Proof.
  intros Hn. unfold slice_to.
  destruct (Z.ltb_spec (- Z.of_nat n) 0) as [_|?]; [|lia].
  f_equal. lia.
Qed.

Lemma slice_to_zero {A} (l : list A) : slice_to l 0 = [].
Proof.
  unfold slice_to. simpl.
  replace (Z.to_nat (Z.min 0 (Z.of_nat (length l)))) with 0 by lia.
  reflexivity.
Qed.

Lemma slice_to_length {A} (l : list A) (n : Z) :
  (Z.of_nat (length l) <= n)%Z -> slice_to l n = l.
Proof.
  intros Hn. unfold slice_to.
  destruct (Z.ltb_spec n 0) as [?|_]; [lia|].
  apply take_ge. lia.
Qed.

End BytesFacts.

(** * A small implementation of the library interface

    The interface [PyLib] is inhabited: codecs that copy their input, a key
    derivation that cuts password and salt to the key length, a block
    cipher that xors the block with the key, and a serialiser with its
    parser.  It is what the model is run on in the examples below; the
    theorems hold for every implementation of the interface. *)

Module SimpleLib.
Import BytesFacts.

(** The key derivation: password and salt, cut or filled up to [n]
    bytes. *)
Definition kdf (p s : bytes) (n : nat) (c : Z) : bytes := resize n x00 (p ++ s).

(** The block cipher: the block xored with the first 16 bytes of the
    key. *)
Definition xor_block (k b : bytes) : bytes := xor_bytes b (resize 16 x00 k).

Lemma length_xor_block k b : length b = 16 -> length (xor_block k b) = 16.
Proof.
  intros Hb. unfold xor_block.
  rewrite length_xor_bytes, length_resize. lia.
Qed.

Lemma xor_block_involutive k b : length b = 16 -> xor_block k (xor_block k b) = b.
Proof.
  intros Hb. unfold xor_block.
  apply xor_bytes_involutive. rewrite length_resize. lia.
Qed.

(** Strings and numbers are written so that they tell where they end:
    every character of a string follows a ["1"], and a ["0"] closes it. *)
Fixpoint write_str (s : string) : string :=
  match s with
  | EmptyString => "0"
  | String c s' => String "1" (String c (write_str s'))
  end.

Fixpoint read_str (s : string) : option (string * string) :=
  match s with
  | String "0" rest => Some (EmptyString, rest)
  | String "1" (String c s') =>
      match read_str s' with
      | Some (x, rest) => Some (String c x, rest)
      | None => None
      end
  | _ => None
  end.

Lemma read_write_str s rest :
  read_str (write_str s +:+ rest) = Some (s, rest).
Proof.
  induction s as [|c s IH]; simpl; [reflexivity|].
  rewrite IH. reflexivity.
Qed.

Fixpoint write (x : json) : string :=
  match x with
  | JNull => "n"
  | JBool true => "t"
  | JBool false => "f"
  | JInt z => String "i" (write_str (BinaryString.of_Z z))
  | JStr s => String "s" (write_str s)
  | JList l =>
      String "["
        ((fix items (l : list json) : string :=
            match l with
            | [] => "]"
            | y :: l' => write y +:+ items l'
            end) l)
  | JDict d =>
      String "{"
        ((fix members (d : list (string * json)) : string :=
            match d with
            | [] => "}"
            | (k, v) :: d' => write_str k +:+ write v +:+ members d'
            end) d)
  end.

Definition write_items : list json -> string :=
  fix items (l : list json) : string :=
    match l with
    | [] => "]"
    | y :: l' => write y +:+ items l'
    end.

Definition write_members : list (string * json) -> string :=
  fix members (d : list (string * json)) : string :=
    match d with
    | [] => "}"
    | (k, v) :: d' => write_str k +:+ write v +:+ members d'
    end.

Fixpoint read (fuel : nat) (s : string) : option (json * string) :=
  match fuel with
  | O => None
  | S fuel' =>
      match s with
      | String "n" rest => Some (JNull, rest)
      | String "t" rest => Some (JBool true, rest)
      | String "f" rest => Some (JBool false, rest)
      | String "i" rest =>
          match read_str rest with
          | Some (digits, rest') => Some (JInt (BinaryString.to_Z digits), rest')
          | None => None
          end
      | String "s" rest =>
          match read_str rest with
          | Some (x, rest') => Some (JStr x, rest')
          | None => None
          end
      | String "[" rest =>
          match read_items fuel' rest with
          | Some (l, rest') => Some (JList l, rest')
          | None => None
          end
      | String "{" rest =>
          match read_members fuel' rest with
          | Some (d, rest') => Some (JDict d, rest')
          | None => None
          end
      | _ => None
      end
  end
with read_items (fuel : nat) (s : string) : option (list json * string) :=
  match fuel with
  | O => None
  | S fuel' =>
      match s with
      | String "]" rest => Some ([], rest)
      | _ =>
          match read fuel' s with
          | Some (y, rest) =>
              match read_items fuel' rest with
              | Some (l, rest') => Some (y :: l, rest')
              | None => None
              end
          | None => None
          end
      end
  end
with read_members (fuel : nat) (s : string) : option (list (string * json) * string) :=
  match fuel with
  | O => None
  | S fuel' =>
      match s with
      | String "}" rest => Some ([], rest)
      | _ =>
          match read_str s with
          | Some (k, rest) =>
              match read fuel' rest with
              | Some (v, rest') =>
                  match read_members fuel' rest' with
                  | Some (d, rest'') => Some ((k, v) :: d, rest'')
                  | None => None
                  end
              | None => None
              end
          | None => None
          end
      end
  end.

Definition dumps (ensure_ascii : bool) (indent : option nat) (x : json) : string :=
  write x.

Definition loads (s : string) : option json :=
  match read (S (String.length s)) s with
  | Some (x, EmptyString) => Some x
  | _ => None
  end.

Lemma length_append (a b : string) :
  String.length (a +:+ b) = String.length a + String.length b.
Proof. induction a as [|c a IH]; simpl; [reflexivity | now rewrite IH]. Qed.

Lemma append_cons c (a b : string) : (String c a +:+ b)%string = String c (a +:+ b).
Proof. reflexivity. Qed.

Lemma append_assoc (a b c : string) : ((a +:+ b) +:+ c = a +:+ (b +:+ c))%string.
Proof.
  induction a as [|x a IH]; [reflexivity|].
  rewrite !append_cons. f_equal. exact IH.
Qed.

(** Induction on a JSON value, with the hypothesis for every element of a
    list and every value of a dict. *)
Section JsonInduction.
Variable P : json -> Prop.
Hypothesis Hnull : P JNull.
Hypothesis Hbool : forall b, P (JBool b).
Hypothesis Hint : forall z, P (JInt z).
Hypothesis Hstr : forall s, P (JStr s).
Hypothesis Hlist : forall l, Forall P l -> P (JList l).
Hypothesis Hdict : forall d, Forall (fun kv => P (snd kv)) d -> P (JDict d).

Fixpoint json_induction (x : json) : P x :=
  match x with
  | JNull => Hnull
  | JBool b => Hbool b
  | JInt z => Hint z
  | JStr s => Hstr s
  | JList l =>
      Hlist l ((fix all (l : list json) : Forall P l :=
                  match l with
                  | [] => @List.Forall_nil _ P
                  | y :: l' => @List.Forall_cons _ P y l' (json_induction y) (all l')
                  end) l)
  | JDict d =>
      Hdict d ((fix all (d : list (string * json)) : Forall (fun kv => P (snd kv)) d :=
                  match d with
                  | [] => @List.Forall_nil _ _
                  | kv :: d' => @List.Forall_cons _ _ kv d' (json_induction (snd kv)) (all d')
                  end) d)
  end.
End JsonInduction.

Lemma write_unfold_list l : write (JList l) = String "[" (write_items l).
Proof. reflexivity. Qed.

Lemma write_unfold_dict d : write (JDict d) = String "{" (write_members d).
Proof. reflexivity. Qed.

Lemma write_nonempty x : 1 <= String.length (write x).
Proof. destruct x as [|[]| | | |]; simpl; lia. Qed.

Lemma write_items_nonempty l : 1 <= String.length (write_items l).
Proof.
  destruct l as [|y l]; simpl; [lia|].
  rewrite length_append. pose proof (write_nonempty y). lia.
Qed.

Lemma write_members_nonempty d : 1 <= String.length (write_members d).
Proof.
  destruct d as [|[k v] d]; simpl; [lia|].
  rewrite !length_append. pose proof (write_nonempty v). lia.
Qed.

(** What the parser of a list or a dict sees first is never the closing
    bracket when an element follows. *)
Lemma read_items_cons fuel y rest :
  read_items (S fuel) (write y +:+ rest) =
  match read fuel (write y +:+ rest) with
  | Some (y', rest1) =>
      match read_items fuel rest1 with
      | Some (l, rest2) => Some (y' :: l, rest2)
      | None => None
      end
  | None => None
  end.
Proof. destruct y as [|[]| | | |]; reflexivity. Qed.

Lemma read_members_cons fuel k rest :
  read_members (S fuel) (write_str k +:+ rest) =
  match read_str (write_str k +:+ rest) with
  | Some (k', rest1) =>
      match read fuel rest1 with
      | Some (v, rest2) =>
          match read_members fuel rest2 with
          | Some (d, rest3) => Some ((k', v) :: d, rest3)
          | None => None
          end
      | None => None
      end
  | None => None
  end.
Proof. destruct k; reflexivity. Qed.

Lemma read_items_write l :
  Forall (fun y => forall fuel rest, String.length (write y) <= fuel ->
                     read fuel (write y +:+ rest) = Some (y, rest)) l ->
  forall fuel rest, String.length (write_items l) <= fuel ->
    read_items fuel (write_items l +:+ rest) = Some (l, rest).
Proof.
  induction 1 as [|y l Hy _ IH]; intros fuel rest Hfuel; simpl in Hfuel.
  - destruct fuel; [lia | reflexivity].
  - rewrite length_append in Hfuel.
    pose proof (write_nonempty y). pose proof (write_items_nonempty l).
    destruct fuel as [|fuel]; [lia|].
    change (write_items (y :: l)) with (write y +:+ write_items l)%string.
    rewrite append_assoc, read_items_cons.
    rewrite Hy by lia. rewrite IH by lia. reflexivity.
Qed.

Lemma read_members_write d :
  Forall (fun kv => forall fuel rest, String.length (write (snd kv)) <= fuel ->
                      read fuel (write (snd kv) +:+ rest) = Some (snd kv, rest)) d ->
  forall fuel rest, String.length (write_members d) <= fuel ->
    read_members fuel (write_members d +:+ rest) = Some (d, rest).
Proof.
  induction 1 as [|[k v] d Hv _ IH]; intros fuel rest Hfuel; simpl in Hfuel.
  - destruct fuel; [lia | reflexivity].
  - rewrite !length_append in Hfuel. simpl in Hv.
    pose proof (write_nonempty v). pose proof (write_members_nonempty d).
    destruct fuel as [|fuel]; [lia|].
    change (write_members ((k, v) :: d))
      with (write_str k +:+ write v +:+ write_members d)%string.
    rewrite !append_assoc, read_members_cons, read_write_str.
    rewrite Hv by lia. rewrite IH by lia. reflexivity.
Qed.

Lemma read_write x : forall fuel rest,
  String.length (write x) <= fuel -> read fuel (write x +:+ rest) = Some (x, rest).
Proof.
  induction x as [|b|z|s|l IH|d IH] using json_induction; intros fuel rest Hfuel;
    try destruct b;
    (destruct fuel as [|fuel]; [simpl in Hfuel; lia|]).
  - reflexivity.
  - reflexivity.
  - reflexivity.
  - simpl. rewrite read_write_str, BinaryString.Z_of_of_Z. reflexivity.
  - simpl. rewrite read_write_str. reflexivity.
  - rewrite write_unfold_list in *. simpl in Hfuel. simpl.
    rewrite (read_items_write l IH) by lia. reflexivity.
  - rewrite write_unfold_dict in *. simpl in Hfuel. simpl.
    rewrite (read_members_write d IH) by lia. reflexivity.
Qed.

Lemma append_empty (a : string) : (a +:+ "")%string = a.
Proof.
  induction a as [|c a IH]; [reflexivity|].
  rewrite append_cons. f_equal. exact IH.
Qed.

Lemma loads_dumps a i x : loads (dumps a i x) = Some x.
Proof.
  unfold loads, dumps.
  rewrite <- (append_empty (write x)) at 2.
  rewrite read_write by lia. reflexivity.
Qed.

(** Timestamps are written as binary numerals. *)
Definition write_time (t : datetime) : string := BinaryString.of_Z t.

Definition read_time (s : string) : option datetime :=
  let t := BinaryString.to_Z s in
  if String.eqb (BinaryString.of_Z t) s then Some t else None.

Lemma read_write_time t : read_time (write_time t) = Some t.
Proof.
  unfold read_time, write_time.
  rewrite BinaryString.Z_of_of_Z, String.eqb_refl. reflexivity.
Qed.

#[export] Instance simple_lib : PyLib := {
  utf8_encode := list_byte_of_string;
  utf8_decode := fun b => Some (string_of_list_byte b);
  utf8_decode_encode := fun s => f_equal Some (string_of_list_byte_of_string s);
  utf8_encode_empty := eq_refl;
  b64encode := string_of_list_byte;
  b64decode := fun s => Some (list_byte_of_string s);
  b64decode_b64encode := fun b => f_equal Some (list_byte_of_string_of_list_byte b);
  PBKDF2 := kdf;
  PBKDF2_length := fun p s n c => length_resize _ _ _;
  aes_encrypt_block := xor_block;
  aes_decrypt_block := xor_block;
  aes_encrypt_block_length := length_xor_block;
  aes_decrypt_block_length := length_xor_block;
  aes_decrypt_encrypt_block := xor_block_involutive;
  json_dumps := dumps;
  json_loads := loads;
  json_loads_dumps := loads_dumps;
  isoformat := write_time;
  fromisoformat := read_time;
  fromisoformat_isoformat := read_write_time;
  strftime := write_time
}.

End SimpleLib.

(** * security/crypto.py: encryption and decryption *)

Module CryptoFacts.
Import Crypto BytesFacts.

Lemma length_get_random_bytes n e : length (fst (get_random_bytes n e)) = n.
Proof. unfold get_random_bytes. simpl. now rewrite length_map, length_seq. Qed.

Lemma byte_of_nat_to_nat n : n < 256 -> Byte.to_nat (byte_of_nat n) = n.
Proof.
  intros Hn. unfold byte_of_nat.
  destruct (Byte.of_nat n) as [b|] eqn:E.
  - now apply Byte.to_of_nat.
  - apply Byte.of_nat_None_iff in E. lia.
Qed.

(** The padding length is between 1 and the block size, and the padded
    data is a whole number of blocks. *)
Lemma padding_length_bounds (n : nat) : 1 <= 16 - n mod 16 <= 16.
Proof. pose proof (Nat.mod_upper_bound n 16). lia. Qed.

Lemma length_pad_data data : length (_pad_data data) mod 16 = 0.
Proof.
  unfold _pad_data, block_size.
  rewrite length_app, repeat_length.
  pose proof (Nat.mod_upper_bound (length data) 16 ltac:(lia)) as Hlt.
  pose proof (Nat.div_mod_eq (length data) 16) as Hdm.
  replace (length data + (16 - length data mod 16))
    with ((length data / 16 + 1) * 16) by lia.
  apply Nat.Div0.mod_mul.
Qed.

Lemma unpad_padding data (p : nat) :
  0 < p < 256 -> _unpad_data (data ++ repeat (byte_of_nat p) p) = Some data.
Proof.
  intros Hp. unfold _unpad_data.
  assert (Hlast : last (data ++ repeat (byte_of_nat p) p) = Some (byte_of_nat p)).
  { destruct p as [|p']; [lia|].
    cbn [repeat]. rewrite repeat_cons, app_assoc. apply last_snoc. }
  rewrite Hlast. simpl.
  rewrite byte_of_nat_to_nat by lia.
  rewrite slice_to_neg by lia.
  rewrite length_app, repeat_length.
  replace (length data + p - p) with (length data) by lia.
  now rewrite take_app_length.
Qed.

Lemma unpad_pad_data data : _unpad_data (_pad_data data) = Some data.
Proof.
  unfold _pad_data, block_size.
  pose proof (padding_length_bounds (length data)).
  apply unpad_padding. lia.
Qed.

Section WithLib.
Context {L : PyLib}.

Lemma length_derive_key password salt : length (derive_key password salt) = 32.
Proof. apply PBKDF2_length. Qed.

Lemma AES_new_derived password salt iv :
  length iv = 16 ->
  AES_new (derive_key password salt) iv = Some (mkCipher (derive_key password salt) iv).
Proof.
  intros Hiv. unfold AES_new.
  rewrite length_derive_key, Hiv. reflexivity.
Qed.

Lemma length_cbc_encrypt_blocks n key prev data :
  length prev = 16 -> length data = 16 * n ->
  length (cbc_encrypt_blocks n key prev data) = 16 * n.
Proof.
  revert prev data; induction n as [|n IH]; intros prev data Hprev Hlen;
    [reflexivity|].
  simpl.
  assert (Hx : length (xor_bytes (take 16 data) prev) = 16)
    by (rewrite length_xor_bytes, length_take; lia).
  pose proof (aes_encrypt_block_length key _ Hx) as Hc.
  rewrite length_app, IH, Hc by (try exact Hc; rewrite length_drop; lia).
  lia.
Qed.

(** CBC decryption undoes CBC encryption, block by block. *)
Lemma cbc_decrypt_encrypt_blocks n key iv data :
  length iv = 16 -> length data = 16 * n ->
  cbc_decrypt_blocks n key iv (cbc_encrypt_blocks n key iv data) = data.
Proof.
  revert iv data; induction n as [|n IH]; intros iv data Hiv Hlen.
  - destruct data; [reflexivity | simpl in Hlen; lia].
  - simpl.
    assert (Hx : length (xor_bytes (take 16 data) iv) = 16)
      by (rewrite length_xor_bytes, length_take; lia).
    pose proof (aes_encrypt_block_length key _ Hx) as Hc.
    rewrite take_app_length' by (symmetry; exact Hc).
    rewrite drop_app_length' by (symmetry; exact Hc).
    rewrite aes_decrypt_encrypt_block by exact Hx.
    rewrite xor_bytes_involutive by (rewrite length_take; lia).
    rewrite IH by (try exact Hc; rewrite length_drop; lia).
    apply take_drop.
Qed.

Lemma cipher_decrypt_encrypt key iv data :
  length iv = 16 -> length data mod 16 = 0 ->
  exists c, cipher_encrypt (mkCipher key iv) data = Some c
            /\ cipher_decrypt (mkCipher key iv) c = Some data.
Proof.
  intros Hiv Hmod.
  assert (Hlen : length data = 16 * (length data / 16)).
  { pose proof (Nat.div_mod_eq (length data) 16). lia. }
  unfold cipher_encrypt, cipher_decrypt. cbn [c_key c_iv].
  rewrite bool_decide_eq_true_2 by exact Hmod.
  eexists; split; [reflexivity|].
  rewrite length_cbc_encrypt_blocks by (try exact Hlen; exact Hiv).
  rewrite <- Hlen.
  rewrite bool_decide_eq_true_2 by exact Hmod.
  now rewrite cbc_decrypt_encrypt_blocks.
Qed.

(** What [decrypt_data] reads back from a bundle. *)
Lemma b64decode_field_bundle encrypted_data salt iv :
  b64decode_field (bundle encrypted_data salt iv) "encrypted_data" = Some encrypted_data
  /\ b64decode_field (bundle encrypted_data salt iv) "salt" = Some salt
  /\ b64decode_field (bundle encrypted_data salt iv) "iv" = Some iv.
Proof.
  unfold b64decode_field, bundle; simpl.
  rewrite !b64decode_b64encode. auto.
Qed.

(** [encrypt_data] with the salt and the IV it ends up using. *)
Lemma encrypt_data_bundle data password salt e :
  exists encrypted_data salt' iv,
    fst (encrypt_data data password salt e) = Some (bundle encrypted_data salt' iv)
    /\ length iv = 16
    /\ (forall s, salt = Some s -> salt' = s)
    /\ cipher_encrypt (mkCipher (derive_key password salt') iv)
         (_pad_data (utf8_encode data)) = Some encrypted_data.
Proof.
  unfold encrypt_data.
  destruct (match salt with None => generate_salt e | Some s => (s, e) end)
    as [salt' e1] eqn:Es.
  destruct (get_random_bytes iv_length e1) as [iv e2] eqn:Ei.
  assert (Hiv : length iv = 16).
  { pose proof (length_get_random_bytes iv_length e1) as H. now rewrite Ei in H. }
  destruct (cipher_decrypt_encrypt (derive_key password salt') iv
              (_pad_data (utf8_encode data)) Hiv (length_pad_data _))
    as (c & Hc & _).
  exists c, salt', iv. simpl.
  rewrite AES_new_derived by exact Hiv. simpl. rewrite Hc. simpl.
  repeat split; auto.
  intros s ->. now inversion Es.
Qed.

(** A bundle whose ciphertext is that of the padded text decrypts to the
    text. *)
Lemma decrypt_data_bundle data password encrypted_data salt iv :
  length iv = 16 ->
  cipher_encrypt (mkCipher (derive_key password salt) iv)
    (_pad_data (utf8_encode data)) = Some encrypted_data ->
  decrypt_data (bundle encrypted_data salt iv) password = Some data.
Proof.
  intros Hiv Hc.
  destruct (b64decode_field_bundle encrypted_data salt iv) as (Hf1 & Hf2 & Hf3).
  unfold decrypt_data. rewrite Hf1, Hf2, Hf3. simpl.
  rewrite AES_new_derived by exact Hiv. simpl.
  destruct (cipher_decrypt_encrypt (derive_key password salt) iv
              (_pad_data (utf8_encode data)) Hiv (length_pad_data _))
    as (c' & Hc' & Hd).
  rewrite Hc in Hc'. inversion Hc'; subst c'.
  rewrite Hd. simpl. rewrite unpad_pad_data. simpl.
  apply utf8_decode_encode.
Qed.

(** C1.  For every text, password, caller-supplied or generated salt and
    every outcome of the random generator, [encrypt_data] returns a bundle,
    and [decrypt_data] of that bundle under the same password returns
    exactly the text. *)
Theorem decrypt_encrypt_data (data password : string) (salt : option bytes) (e : Entropy) :
  exists encrypted_info,
    fst (encrypt_data data password salt e) = Some encrypted_info
    /\ decrypt_data encrypted_info password = Some data.
Proof.
  destruct (encrypt_data_bundle data password salt e)
    as (c & salt' & iv & Henc & Hiv & _ & Hc).
  exists (bundle c salt' iv). split; [exact Henc|].
  now apply decrypt_data_bundle.
Qed.

(** *** Decryption of a bundle that was tampered with *)

(** The IV of a bundle xored with [mask], as a corrupted or forged file
    would hold it. *)
Definition corrupt_iv (mask : bytes) (encrypted_info : json) : option json :=
  match encrypted_info with
  | JDict d =>
      iv ← b64decode_field encrypted_info "iv";
      Some (JDict (dict_set "iv" (JStr (b64encode (xor_bytes iv mask))) d))
  | _ => None
  end.

(** The mask that turns the last byte of a one-block plaintext, its padding
    length, into 0. *)
Definition padding_mask (data : string) : bytes :=
  repeat x00 15 ++ [byte_of_nat (16 - length (utf8_encode data))].

Lemma xor_byte_cancel a b m :
  xor_byte (xor_byte a b) (xor_byte b m) = xor_byte a m.
Proof.
  unfold xor_byte. rewrite !ascii_of_byte_of_ascii. f_equal.
  destruct (ascii_of_byte a), (ascii_of_byte b), (ascii_of_byte m); simpl.
  repeat match goal with
         | |- context [xorb (xorb ?x ?y) (xorb ?y ?z)] =>
             replace (xorb (xorb x y) (xorb y z)) with (xorb x z)
               by (destruct x, y, z; reflexivity)
         end.
  reflexivity.
Qed.

Lemma xor_bytes_cancel a b m :
  length a = length b -> length b = length m ->
  xor_bytes (xor_bytes a b) (xor_bytes b m) = xor_bytes a m.
Proof.
  revert b m; induction a as [|x a IH]; intros [|y b] [|z m] Hab Hbm;
    simpl in *; try reflexivity; try lia.
  rewrite xor_byte_cancel, IH by lia. reflexivity.
Qed.

Lemma xor_bytes_snoc a b x y :
  length a = length b ->
  xor_bytes (a ++ [x]) (b ++ [y]) = xor_bytes a b ++ [xor_byte x y].
Proof.
  revert b; induction a as [|x' a IH]; intros [|y' b] Hlen; simpl in *;
    try reflexivity; try lia.
  rewrite IH by lia. reflexivity.
Qed.

Lemma xor_byte_self a : xor_byte a a = x00.
Proof. destruct a; reflexivity. Qed.

(** A decrypted text whose last byte is 0 loses everything when the
    padding is removed. *)
Lemma unpad_data_zero data : last data = Some x00 -> _unpad_data data = Some [].
Proof.
  intros Hlast. unfold _unpad_data. rewrite Hlast. simpl.
  now rewrite slice_to_zero.
Qed.

(** So does one whose last byte is not below its length. *)
Lemma unpad_data_beyond data b :
  last data = Some b -> length data <= Byte.to_nat b -> _unpad_data data = Some [].
Proof.
  intros Hlast Hlen. unfold _unpad_data. rewrite Hlast. simpl.
  destruct (Byte.to_nat b) as [|n] eqn:E.
  - now rewrite slice_to_zero.
  - rewrite slice_to_neg by lia.
    replace (length data - S n) with 0 by lia. reflexivity.
Qed.

Lemma utf8_decode_empty : utf8_decode [] = Some "".
Proof. rewrite <- utf8_encode_empty. apply utf8_decode_encode. Qed.

(** Whatever the password: when the last byte that comes out of the cipher
    is 0 or not below the length of the text, [decrypt_data] does not
    notice the broken padding and returns the empty string. *)
Lemma decrypt_data_bad_padding encrypted_data salt iv password decrypted b :
  length iv = 16 ->
  cipher_decrypt (mkCipher (derive_key password salt) iv) encrypted_data = Some decrypted ->
  last decrypted = Some b ->
  Byte.to_nat b = 0 \/ length decrypted <= Byte.to_nat b ->
  decrypt_data (bundle encrypted_data salt iv) password = Some "".
Proof.
  intros Hiv Hdec Hlast Hb.
  destruct (b64decode_field_bundle encrypted_data salt iv) as (Hf1 & Hf2 & Hf3).
  unfold decrypt_data. rewrite Hf1, Hf2, Hf3. simpl.
  rewrite AES_new_derived by exact Hiv. simpl. rewrite Hdec. simpl.
  assert (Hun : _unpad_data decrypted = Some []).
  { destruct Hb as [Hb|Hb]; [|now apply unpad_data_beyond with b].
    apply unpad_data_zero. rewrite Hlast. f_equal.
    destruct b; solve [reflexivity | discriminate Hb]. }
  rewrite Hun. simpl. apply utf8_decode_empty.
Qed.

(** C2.  A bundle made by [encrypt_data] for a text of less than a block,
    with the last byte of its IV xored with the padding length, decrypts
    under the right password to the empty string: [decrypt_data] returns a
    value, and a wrong one, where the data was corrupted. *)
Theorem decrypt_data_corrupted_iv (data password : string) (salt : option bytes)
    (e : Entropy) :
  length (utf8_encode data) < 16 ->
  exists encrypted_info corrupted,
    fst (encrypt_data data password salt e) = Some encrypted_info
    /\ corrupt_iv (padding_mask data) encrypted_info = Some corrupted
    /\ decrypt_data corrupted password = Some "".
Proof.
  intros Hshort.
  destruct (encrypt_data_bundle data password salt e)
    as (c & salt' & iv & Henc & Hiv & _ & Hc).
  exists (bundle c salt' iv),
         (bundle c salt' (xor_bytes iv (padding_mask data))).
  split; [exact Henc|].
  destruct (b64decode_field_bundle c salt' iv) as (_ & _ & Hf3).
  split.
  { unfold corrupt_iv. unfold bundle at 1. fold (bundle c salt' iv).
    rewrite Hf3. reflexivity. }
  set (plain := utf8_encode data) in *.
  set (p := 16 - length plain).
  assert (Hmask : length (padding_mask data) = 16)
    by (unfold padding_mask; rewrite length_app, repeat_length; reflexivity).
  assert (Hiv' : length (xor_bytes iv (padding_mask data)) = 16)
    by (rewrite length_xor_bytes; lia).
  assert (Hpad : _pad_data plain = (plain ++ repeat (byte_of_nat p) (p - 1)) ++ [byte_of_nat p]).
  { unfold _pad_data, block_size.
    rewrite Nat.mod_small by lia. fold p.
    replace p with (S (p - 1)) at 2 by (unfold p; lia).
    cbn [repeat]. rewrite repeat_cons. apply app_assoc. }
  assert (Hlen : length (_pad_data plain) = 16).
  { rewrite Hpad, !length_app, repeat_length. simpl. unfold p. lia. }
  assert (Hx : length (xor_bytes (_pad_data plain) iv) = 16)
    by (rewrite length_xor_bytes; lia).
  (* the ciphertext is the one block of the padded text *)
  assert (Hblock : c = aes_encrypt_block (derive_key password salt')
                         (xor_bytes (_pad_data plain) iv)).
  { unfold cipher_encrypt in Hc. cbn [c_key c_iv] in Hc.
    rewrite Hlen in Hc. simpl in Hc.
    rewrite app_nil_r, take_ge in Hc by lia. congruence. }
  clear Hc. subst c.
  pose proof (aes_encrypt_block_length (derive_key password salt') _ Hx) as Hclen.
  apply decrypt_data_bad_padding
    with (decrypted := xor_bytes (_pad_data plain) (padding_mask data)) (b := x00);
    [exact Hiv'| | |left; reflexivity].
  - unfold cipher_decrypt. cbn [c_key c_iv]. rewrite Hclen. simpl.
    rewrite app_nil_r, take_ge by lia.
    rewrite aes_decrypt_encrypt_block by exact Hx.
    rewrite xor_bytes_cancel by lia. reflexivity.
  - rewrite Hpad. unfold padding_mask. fold plain. fold p.
    rewrite xor_bytes_snoc, last_snoc, xor_byte_self; [reflexivity|].
    rewrite length_app, !repeat_length. unfold p. lia.
Qed.

End WithLib.

(** The text ["secret"] under the password ["pw"], on the small
    implementation of the library. *)
Definition sample_entropy : Entropy :=
  mkEntropy (fun n => byte_of_nat (n mod 256)) 0.

Lemma decrypt_data_corrupted_iv_secret :
  length (@utf8_encode SimpleLib.simple_lib "secret") < 16
  /\ exists encrypted_info corrupted,
       fst (@encrypt_data SimpleLib.simple_lib "secret" "pw" None sample_entropy)
         = Some encrypted_info
       /\ @corrupt_iv SimpleLib.simple_lib
            (@padding_mask SimpleLib.simple_lib "secret") encrypted_info = Some corrupted
       /\ @decrypt_data SimpleLib.simple_lib corrupted "pw" = Some "".
Proof.
  split; [vm_compute; lia|].
  apply (@decrypt_data_corrupted_iv SimpleLib.simple_lib "secret" "pw" None sample_entropy).
  vm_compute; lia.
Defined.

Lemma decrypt_encrypt_data_secret :
  exists encrypted_info,
    fst (@encrypt_data SimpleLib.simple_lib "secret" "pw" None sample_entropy)
      = Some encrypted_info
    /\ @decrypt_data SimpleLib.simple_lib encrypted_info "pw" = Some "secret".
Proof.
  exact (@decrypt_encrypt_data SimpleLib.simple_lib "secret" "pw" None sample_entropy).
Defined.

(** With this cipher a wrong password happens to leave a last byte beyond
    the block, and the caller gets the empty string instead of no value. *)
Example decrypt_data_wrong_password_secret :
  (encrypted_info ← fst (@encrypt_data SimpleLib.simple_lib "secret" "pw" None sample_entropy);
   @decrypt_data SimpleLib.simple_lib encrypted_info "wrong-pw") = Some "".
Proof. vm_compute. reflexivity. Qed.

End CryptoFacts.

(** * core/models.py: the entries of a [DataStore] *)

Module ModelsFacts.
Import Models.

(** No two entries for the same platform and username. *)
Definition account (e : PasswordEntry) : string * string := (platform e, username e).

Definition unique_accounts (l : list PasswordEntry) : Prop := NoDup (map account l).

Lemma same_account_spec a b : same_account a b = true <-> account a = account b.
Proof.
  unfold same_account, account.
  rewrite andb_true_iff, !String.eqb_eq. split.
  - intros [-> ->]. reflexivity.
  - intros H. now inversion H.
Qed.

Lemma existsb_same_account entry l :
  existsb (fun existing_entry => same_account existing_entry entry) l = true
  <-> account entry ∈ map account l.
Proof.
  rewrite existsb_exists, list_elem_of_fmap. split.
  - intros (x & Hin & Hsame). apply same_account_spec in Hsame.
    exists x. split; [congruence | now apply list_elem_of_In].
  - intros (x & Heq & Hin). exists x. split; [now apply list_elem_of_In|].
    now apply same_account_spec.
Qed.

(** [add_entry] turns down an entry whose platform and username are
    taken, and leaves the store as it was. *)
Lemma add_entry_duplicate entry s :
  account entry ∈ map account (entries s) -> add_entry entry s = (false, s).
Proof.
  intros Hin. unfold add_entry.
  apply existsb_same_account in Hin. now rewrite Hin.
Qed.

Lemma add_entry_unique entry s :
  unique_accounts (entries s) -> unique_accounts (entries (snd (add_entry entry s))).
Proof.
  intros Hu. unfold add_entry.
  destruct (existsb _ (entries s)) eqn:E; [exact Hu|].
  simpl. unfold unique_accounts. rewrite map_app. simpl.
  apply NoDup_app. split; [exact Hu|]. split; [|apply NoDup_singleton].
  intros x Hx Hx'. apply list_elem_of_singleton in Hx'. subst x.
  apply existsb_same_account in Hx. congruence.
Qed.

Lemma delete_first_sublist entry_id l l' :
  delete_first entry_id l = Some l' -> sublist l' l.
Proof.
  revert l'; induction l as [|e l IH]; intros l' H; simpl in H; [discriminate|].
  destruct (String.eqb (id e) entry_id).
  - inversion H; subst. now apply sublist_cons.
  - destruct (delete_first entry_id l) as [l0|]; [|discriminate].
    inversion H; subst. apply sublist_skip. now apply IH.
Qed.

Lemma delete_entry_unique entry_id s :
  unique_accounts (entries s) -> unique_accounts (entries (snd (delete_entry entry_id s))).
Proof.
  intros Hu. unfold delete_entry.
  destruct (delete_first entry_id (entries s)) as [l|] eqn:E; [|exact Hu].
  simpl. unfold unique_accounts in *.
  apply (sublist_NoDup _ (map account (entries s))); [exact Hu|].
  apply fmap_sublist. eapply delete_first_sublist. exact E.
Qed.

(** [update_entry] on entry values: the first entry with the id is
    replaced by the new values under the old id and creation time, and the
    other entries stay. *)
Lemma update_first_frame current_time entry_id updated_entry l l' :
  update_first current_time entry_id updated_entry l = Some l' ->
  exists i entry,
    l !! i = Some entry /\ id entry = entry_id
    /\ (forall j e, j < i -> l !! j = Some e -> id e <> entry_id)
    /\ l' = <[i := mkPasswordEntry (platform updated_entry) (username updated_entry)
                     (encrypted_password updated_entry) (notes updated_entry)
                     entry_id (created_at entry) current_time
                     (expires_at updated_entry)]> l.
Proof.
  revert l'; induction l as [|e l IH]; intros l' H; simpl in H; [discriminate|].
  destruct (String.eqb (id e) entry_id) eqn:E.
  - injection H as <-. apply String.eqb_eq in E.
    exists 0, e. repeat split; auto. intros j e' Hj. lia.
  - destruct (update_first current_time entry_id updated_entry l) as [l0|];
      [|discriminate].
    injection H as <-. apply String.eqb_neq in E.
    destruct (IH l0 eq_refl) as (i & entry & Hi & Hid & Hbefore & ->).
    exists (S i), entry. repeat split; auto.
    intros [|j] e' Hj He'; simpl in He'.
    + injection He' as <-. exact E.
    + apply (Hbefore j); [lia | exact He'].
Qed.

(** A world with a clock that ticks once a second. *)
Definition sample_world : World :=
  mkWorld CryptoFacts.sample_entropy (fun n => seconds (Z.of_nat n)) 0
    (fun n => String.append "uuid-" (BinaryString.of_nat n)) 0 (fun _ => None)
    (fun _ => None) 0.

Definition github : PasswordEntry :=
  mkPasswordEntry "GitHub" "a@b.com" "c1" "" "id-1" 0%Z 0%Z (days 90).

Definition gitlab : PasswordEntry :=
  mkPasswordEntry "GitLab" "a@b.com" "c2" "" "id-2" 0%Z 0%Z (days 90).

(** The store after [add_entry(github)] and [add_entry(gitlab)] on an empty
    one. *)
Definition two_accounts : DataStore :=
  let empty := mkDataStore [] None
                 (mkAppSettings "default" 800 600 100 100 300 true true 0%Z) "1.0.0" in
  snd (add_entry gitlab (snd (add_entry github empty))).

(** C4.  [update_entry] does not look for another entry with the new
    platform and username: on a store with one entry for each of two
    accounts, giving the second entry the platform and username of the
    first is accepted and leaves two entries for one account. *)
Theorem update_entry_duplicates_account :
  unique_accounts (entries two_accounts)
  /\ exists s' w',
       update_entry "id-2" (mkPasswordEntry "GitHub" "a@b.com" "c3" "" "" 0%Z 0%Z (days 90))
         two_accounts sample_world = (Some (true, s'), w')
       /\ map account (entries s') = [("GitHub", "a@b.com"); ("GitHub", "a@b.com")]
       /\ ~ unique_accounts (entries s').
Proof.
  split.
  - unfold unique_accounts. vm_compute.
    apply NoDup_cons. split; [|apply NoDup_singleton].
    intros H. apply list_elem_of_singleton in H. discriminate H.
  - eexists _, _. split; [vm_compute; reflexivity|]. split; [reflexivity|].
    unfold unique_accounts. simpl. intros H.
    apply NoDup_cons in H. destruct H as [H _]. apply H. now left.
Qed.

End ModelsFacts.

(** * core/models.py: [update_entry] on the entry objects *)

Module ObjectsFacts.
Import Models Objects.

Lemma find_entry_spec entry_id h l i0 i entry :
  find_entry entry_id h l i0 = Some (i, entry) ->
  i0 <= i /\ l !! (i - i0) = Some entry /\ id (h entry) = entry_id
  /\ forall j r, j < i - i0 -> l !! j = Some r -> id (h r) <> entry_id.
Proof.
  revert i0; induction l as [|r0 l IH]; intros i0 H; simpl in H; [discriminate|].
  destruct (String.eqb (id (h r0)) entry_id) eqn:E.
  - inversion H; subst. apply String.eqb_eq in E.
    replace (i - i) with 0 by lia. repeat split; auto. intros; lia.
  - apply String.eqb_neq in E.
    destruct (IH _ H) as (Hle & Hlook & Hid & Hbefore).
    replace (i - i0) with (S (i - S i0)) by lia.
    repeat split; auto; [lia|].
    intros [|j] r Hj Hr; simpl in Hr.
    + inversion Hr; subst. exact E.
    + apply (Hbefore j); [lia | exact Hr].
Qed.

Lemma find_entry_some entry_id h l i0 r :
  r ∈ l -> id (h r) = entry_id -> is_Some (find_entry entry_id h l i0).
Proof.
  revert i0; induction l as [|r0 l IH]; intros i0 Hin Hid; [inversion Hin|].
  simpl. destruct (String.eqb (id (h r0)) entry_id) eqn:E; [eauto|].
  apply elem_of_cons in Hin. destruct Hin as [->|Hin].
  - apply String.eqb_neq in E. contradiction.
  - now apply IH.
Qed.

(** When the heaps agree on the entries before the first match and the
    entry put at that place carries the id, the search finds it there. *)
Lemma find_entry_insert entry_id h h' l i0 i entry r :
  find_entry entry_id h l i0 = Some (i, entry) ->
  (forall x, x ∈ l -> x <> r -> h' x = h x) ->
  r ∉ l ->
  id (h' r) = entry_id ->
  find_entry entry_id h' (<[i - i0 := r]> l) i0 = Some (i, r).
Proof.
  revert i0; induction l as [|r0 l IH]; intros i0 H Hsame Hfresh Hid;
    simpl in H; [discriminate|].
  assert (Hr0 : r0 <> r) by (intros ->; apply Hfresh; now left).
  destruct (String.eqb (id (h r0)) entry_id) eqn:E.
  - injection H as -> ->. replace (i - i) with 0 by lia. simpl.
    rewrite Hid, String.eqb_refl. reflexivity.
  - pose proof (find_entry_spec _ _ _ _ _ _ H) as (Hle & _).
    replace (i - i0) with (S (i - S i0)) by lia. simpl.
    rewrite (Hsame r0) by (auto; now left). rewrite E.
    apply IH; auto.
    + intros x Hx. apply Hsame. now right.
    + intros Hin. apply Hfresh. now right.
Qed.

(** C10.  When the store has an entry with the id and [updated_entry] is
    an object that is not in the list, [update_entry] returns [True]; the
    entry then found under the id is [updated_entry], with the id asked
    for, the [created_at] of the entry it replaces, the new [updated_at],
    and its own platform, username, encrypted password, notes and expiry;
    every other place of the list holds the object it held, unchanged. *)
Theorem update_entry_fresh_object (current_time : datetime) (entry_id : string)
    (updated_entry : ref) (entries : list ref) (h : heap) (r : ref) :
  r ∈ entries -> id (h r) = entry_id ->
  updated_entry ∉ entries ->
  exists i entry entries' h',
    update_entry current_time entry_id updated_entry entries h = (true, (entries', h'))
    /\ entries !! i = Some entry /\ id (h entry) = entry_id
    /\ get_entry_by_id entry_id entries' h' = Some updated_entry
    /\ entries' !! i = Some updated_entry
    /\ h' updated_entry =
         mkPasswordEntry (platform (h updated_entry)) (username (h updated_entry))
           (encrypted_password (h updated_entry)) (notes (h updated_entry))
           entry_id (created_at (h entry)) current_time (expires_at (h updated_entry))
    /\ length entries' = length entries
    /\ forall j x, j <> i -> entries !! j = Some x ->
         entries' !! j = Some x /\ h' x = h x.
Proof.
  intros Hin Hid Hfresh.
  destruct (find_entry_some entry_id h entries 0 r Hin Hid) as [[i entry] Hfind].
  destruct (find_entry_spec _ _ _ _ _ _ Hfind) as (_ & Hlook & Hide & _).
  rewrite Nat.sub_0_r in Hlook.
  assert (Hne : entry <> updated_entry).
  { intros ->. apply Hfresh. eapply list_elem_of_lookup_2, Hlook. }
  unfold update_entry. rewrite Hfind.
  set (h' := assign updated_entry (update_timestamp current_time)
               (assign updated_entry (set_created_at _)
                  (assign updated_entry (set_id entry_id) h))).
  assert (Hother : forall x, x <> updated_entry -> h' x = h x).
  { intros x Hx. unfold h', assign.
    apply Nat.eqb_neq in Hx. now rewrite Hx. }
  assert (Hnew : h' updated_entry =
                 mkPasswordEntry (platform (h updated_entry)) (username (h updated_entry))
                   (encrypted_password (h updated_entry)) (notes (h updated_entry))
                   entry_id (created_at (h entry)) current_time
                   (expires_at (h updated_entry))).
  { unfold h', assign. rewrite !Nat.eqb_refl.
    apply Nat.eqb_neq in Hne. rewrite Hne. reflexivity. }
  exists i, entry, (<[i := updated_entry]> entries), h'.
  split; [reflexivity|]. split; [exact Hlook|]. split; [exact Hide|].
  split.
  { unfold get_entry_by_id.
    rewrite <- (Nat.sub_0_r i) at 1.
    erewrite find_entry_insert; [reflexivity | exact Hfind | | exact Hfresh |].
    - intros x _ Hx. now apply Hother.
    - rewrite Hnew. reflexivity. }
  split.
  { apply list_lookup_insert_eq. eapply lookup_lt_Some, Hlook. }
  split; [exact Hnew|].
  split; [apply length_insert|].
  intros j x Hj Hx. split.
  - rewrite list_lookup_insert_ne by auto. exact Hx.
  - apply Hother. intros ->. apply Hfresh. eapply list_elem_of_lookup_2, Hx.
Qed.

(** Two entry objects, and a store that lists both. *)
Definition two_objects : heap := fun r =>
  match r with
  | 0 => ModelsFacts.github
  | _ => ModelsFacts.gitlab
  end.

Lemma update_entry_fresh_object_example :
  0 ∈ [0; 1] /\ id (two_objects 0) = "id-1" /\ (2 ∉ [0; 1])
  /\ exists i entry entries' h',
       update_entry 7%Z "id-1" 2 [0; 1] two_objects = (true, (entries', h'))
       /\ [0; 1] !! i = Some entry /\ id (two_objects entry) = "id-1"
       /\ get_entry_by_id "id-1" entries' h' = Some 2
       /\ entries' !! i = Some 2
       /\ h' 2 =
            mkPasswordEntry (platform (two_objects 2)) (username (two_objects 2))
              (encrypted_password (two_objects 2)) (notes (two_objects 2))
              "id-1" (created_at (two_objects entry)) 7%Z (expires_at (two_objects 2))
       /\ length entries' = length [0; 1]
       /\ forall j x, j <> i -> [0; 1] !! j = Some x ->
            entries' !! j = Some x /\ h' x = two_objects x.
Proof.
  assert (H0 : 0 ∈ [0; 1]) by (apply elem_of_cons; now left).
  assert (H2 : 2 ∉ [0; 1]).
  { intros H. apply elem_of_cons in H. destruct H as [H|H]; [discriminate|].
    apply list_elem_of_singleton in H. discriminate. }
  split; [exact H0|]. split; [reflexivity|]. split; [exact H2|].
  exact (update_entry_fresh_object 7%Z "id-1" 2 [0; 1] two_objects 0 H0 eq_refl H2).
Defined.

(** With the second entry of the store itself as [updated_entry], that
    entry is changed and now stands at both places: the entry that was not
    to be updated lost its id and its creation time, and nothing is found
    under its id any more. *)
Lemma update_entry_aliased_object :
  exists entries' h',
    update_entry 7%Z "id-1" 1 [0; 1] two_objects = (true, (entries', h'))
    /\ entries' = [1; 1]
    /\ [0; 1] !! 1 = Some 1
    /\ h' 1 <> two_objects 1
    /\ id (h' 1) = "id-1"
    /\ get_entry_by_id "id-2" [0; 1] two_objects = Some 1
    /\ get_entry_by_id "id-2" entries' h' = None.
Proof.
  eexists _, _. split; [reflexivity|].
  repeat split; try reflexivity.
  intros H. apply (f_equal id) in H. discriminate H.
Qed.

(** The values of the entries after [update_entry] with a fresh object are
    those the loop over entry values gives. *)
Lemma update_first_view current_time entry_id updated_entry h hh l i0 i entry :
  find_entry entry_id h l i0 = Some (i, entry) ->
  updated_entry ∉ l ->
  (forall x, x <> updated_entry -> hh x = h x) ->
  hh updated_entry =
    mkPasswordEntry (platform (h updated_entry)) (username (h updated_entry))
      (encrypted_password (h updated_entry)) (notes (h updated_entry))
      entry_id (created_at (h entry)) current_time (expires_at (h updated_entry)) ->
  update_first current_time entry_id (h updated_entry) (map h l)
    = Some (map hh (<[i - i0 := updated_entry]> l)).
Proof.
  intros Hfind Hfresh Hother Hnew. revert i0 Hfind.
  induction l as [|r0 l IH]; intros i0 Hfind; simpl in Hfind; [discriminate|].
  assert (Hr0 : r0 <> updated_entry) by (intros ->; apply Hfresh; now left).
  assert (Hl : updated_entry ∉ l) by (intros Hin; apply Hfresh; now right).
  simpl. destruct (String.eqb (id (h r0)) entry_id) eqn:E.
  - injection Hfind as -> ->. replace (i - i) with 0 by lia. simpl.
    rewrite Hnew. do 2 f_equal.
    apply map_ext_in. intros x Hx. symmetry. apply Hother.
    intros ->. apply Hl. now apply list_elem_of_In.
  - pose proof (find_entry_spec _ _ _ _ _ _ Hfind) as (Hle & _).
    replace (i - i0) with (S (i - S i0)) by lia. simpl.
    rewrite (IH Hl _ Hfind). simpl. rewrite Hother by exact Hr0. reflexivity.
Qed.

Lemma update_entry_view current_time entry_id updated_entry entries h entries' h' :
  updated_entry ∉ entries ->
  update_entry current_time entry_id updated_entry entries h = (true, (entries', h')) ->
  update_first current_time entry_id (h updated_entry) (view entries h)
    = Some (view entries' h').
Proof.
  intros Hfresh. unfold update_entry.
  destruct (find_entry entry_id h entries 0) as [[i entry]|] eqn:Hfind; [|discriminate].
  intros H. injection H as <- <-.
  destruct (find_entry_spec _ _ _ _ _ _ Hfind) as (_ & Hlook & _).
  rewrite Nat.sub_0_r in Hlook.
  assert (Hne : entry <> updated_entry).
  { intros ->. apply Hfresh. eapply list_elem_of_lookup_2, Hlook. }
  unfold view. replace (<[i := updated_entry]> entries)
    with (<[i - 0 := updated_entry]> entries) by (now rewrite Nat.sub_0_r).
  apply update_first_view with (entry := entry); auto.
  - intros x Hx. unfold assign. apply Nat.eqb_neq in Hx. now rewrite Hx.
  - unfold assign. rewrite !Nat.eqb_refl.
    apply Nat.eqb_neq in Hne. rewrite Hne. reflexivity.
Qed.

End ObjectsFacts.

(** * The interpreter of the examples *)

Module CPython311.

(** The characters that stand for the digit 0 in the scripts of Unicode
    14.0, the database of CPython 3.11; the nine characters after each
    stand for the digits 1 to 9. *)
Definition decimal_zeros : list N :=
  [48; 1632; 1776; 1984; 2406; 2534; 2662; 2790; 2918; 3046; 3174; 3302; 3430; 3558;
   3664; 3792; 3872; 4160; 4240; 6112; 6160; 6470; 6608; 6784; 6800; 6992; 7088; 7232;
   7248; 42528; 43216; 43264; 43472; 43504; 43600; 44016; 65296; 66720; 68912; 69734;
   69872; 69942; 70096; 70384; 70736; 70864; 71248; 71360; 71472; 71904; 72016; 72784;
   73040; 73120; 92768; 92864; 93008; 120782; 120792; 120802; 120812; 120822; 123200;
   123632; 125264; 130032]%N.

Definition to_decimal (c : N) : option Z :=
  (fun zero => Z.of_N (c - zero))
    <$> find (fun zero => (zero <=? c)%N && (c <? zero + 10)%N) decimal_zeros.

Lemma to_decimal_range c d : to_decimal c = Some d -> (0 <= d <= 9)%Z.
Proof.
  unfold to_decimal.
  destruct (find _ decimal_zeros) as [zero|] eqn:E; [|discriminate].
  apply find_some in E as [_ E]. apply andb_true_iff in E as [E1 E2].
  apply N.leb_le in E1. apply N.ltb_lt in E2.
  cbn [fmap option_fmap option_map]. intros [= <-]. lia.
Qed.

(** CPython 3.11 on a 64-bit machine with room for 2^32 items in a
    list. *)
#[export] Instance interpreter : Interpreter := {
  to_decimal := to_decimal;
  to_decimal_range := to_decimal_range;
  int_max_str_digits := 4300;
  list_capacity := 4294967296;
  list_capacity_nonneg := ltac:(discriminate);
  list_capacity_maxsize := ltac:(discriminate)
}.

End CPython311.

(** * src/models/data_models.py: port lists and scan statistics *)

Module DataModelsFacts.
Import DataModels.
#[local] Open Scope Z_scope.

(** *** [ScanConfig.from_port_string] *)

(** **** The parsing as the specification words it *)

(** The white space of Unicode, which trimming removes. *)
Definition white_space : list N :=
  [9; 10; 11; 12; 13; 28; 29; 30; 31; 32; 133; 160; 5760; 8192; 8193; 8194; 8195; 8196;
   8197; 8198; 8199; 8200; 8201; 8202; 8232; 8233; 8239; 8287; 12288]%N.

Definition blank (c : N) : Prop := c ∈ white_space.

(** [core] is [token] without the characters at its two ends that are
    [blank]. *)
Definition trimmed_of (blank : N -> Prop) (token core : PyStr.str) : Prop :=
  exists l r,
    token = l ++ core ++ r /\ Forall blank l /\ Forall blank r
    /\ (forall c, head core = Some c -> ~ blank c)
    /\ (forall c, last core = Some c -> ~ blank c).

Definition trimmed : PyStr.str -> PyStr.str -> Prop := trimmed_of blank.

(** The text that tokens make with commas between them. *)
Fixpoint joined (tokens : list PyStr.str) : PyStr.str :=
  match tokens with
  | [] => []
  | [token] => token
  | token :: rest => token ++ PyStr.comma :: joined rest
  end.

Section WithInterpreter.
Context {I : Interpreter}.

(** An integer as [int] reads it: white space, a sign or none, decimal
    digits with single underscores between them where one likes, white
    space.  The white space is that of Unicode without the four separators
    U+001C to U+001F; a digit is one of 0 to 9 or, beyond U+007E, a decimal
    digit of another script. *)
Definition int_blank (c : N) : Prop := blank c /\ ~ (28 <= c <= 31)%N.

Definition digit (c : N) (d : Z) : Prop :=
  ((48 <= c <= 57)%N /\ d = Z.of_N c - 48)
  \/ ((127 <= c)%N /\ ~ blank c /\ to_decimal c = Some d).

Inductive digits : PyStr.str -> list Z -> Prop :=
| digits_last c d : digit c d -> digits [c] [d]
| digits_next c d s ds : digit c d -> digits s ds -> digits (c :: s) (d :: ds)
| digits_underscore c d s ds :
    digit c d -> digits s ds -> digits (c :: PyStr.underscore :: s) (d :: ds).

(** The number that decimal digits write: each digit times the power of
    ten of its place. *)
Fixpoint decimal (ds : list Z) : Z :=
  match ds with
  | [] => 0
  | d :: rest => d * 10 ^ Z.of_nat (length rest) + decimal rest
  end.

(** A literal of more than 640 digits is limited to
    [int_max_str_digits] digits, where that limit is set. *)
Definition allowed_digits (n : nat) : Prop :=
  Z.of_nat n <= 640 \/ int_max_str_digits <= 0 \/ Z.of_nat n <= int_max_str_digits.

Inductive sign : PyStr.str -> bool -> Prop :=
| sign_none : sign [] false
| sign_plus : sign [PyStr.plus] false
| sign_minus : sign [PyStr.hyphen] true.

Inductive integer : PyStr.str -> Z -> Prop :=
| integer_intro l s negative body r ds :
    Forall int_blank l -> Forall int_blank r ->
    sign s negative -> digits body ds -> allowed_digits (length ds) ->
    integer (l ++ s ++ body ++ r) (if negative then - decimal ds else decimal ds).

(** The ports a trimmed token stands for: with a hyphen in it, those from
    the integer before the first hyphen to the integer after it, both
    included, when the two are integers; without one, the integer it is;
    none otherwise. *)
Inductive stands_for : PyStr.str -> list Z -> Prop :=
| stands_for_range a b start end_ :
    PyStr.hyphen ∉ a -> integer a start -> integer b end_ ->
    stands_for (a ++ PyStr.hyphen :: b) (seqZ start (end_ - start + 1))
| stands_for_no_range a b :
    PyStr.hyphen ∉ a ->
    ~ ((exists start, integer a start) /\ (exists end_, integer b end_)) ->
    stands_for (a ++ PyStr.hyphen :: b) []
| stands_for_port token port :
    PyStr.hyphen ∉ token -> integer token port -> stands_for token [port]
| stands_for_nothing token :
    PyStr.hyphen ∉ token -> (forall port, ~ integer token port) -> stands_for token [].

End WithInterpreter.

(** **** Commas *)

Lemma split_cons sep c s :
  PyStr.split sep (c :: s)
  = if (c =? sep)%N then [] :: PyStr.split sep s
    else match PyStr.split sep s with
         | x :: xs => (c :: x) :: xs
         | [] => [[c]]
         end.
Proof. reflexivity. Qed.

Lemma split_not_nil sep s : PyStr.split sep s <> [].
Proof.
  destruct s as [|c s]; [discriminate|]. rewrite split_cons.
  destruct (c =? sep)%N; [discriminate|]. destruct (PyStr.split sep s); discriminate.
Qed.

Lemma joined_cons token rest :
  rest <> [] -> joined (token :: rest) = token ++ PyStr.comma :: joined rest.
Proof. destruct rest; [contradiction | reflexivity]. Qed.

(** A text is its pieces between the commas, with the commas back. *)
Lemma split_spec s :
  joined (PyStr.split PyStr.comma s) = s
  /\ Forall (fun token => PyStr.comma ∉ token) (PyStr.split PyStr.comma s).
Proof.
  induction s as [|c s [IHj IHf]].
  - split; [reflexivity|]. repeat constructor. apply not_elem_of_nil.
  - rewrite split_cons. destruct (N.eqb_spec c PyStr.comma) as [->|Hc].
    + split.
      * rewrite joined_cons by apply split_not_nil. now rewrite IHj.
      * constructor; [apply not_elem_of_nil | exact IHf].
    + pose proof (split_not_nil PyStr.comma s) as Hnil.
      destruct (PyStr.split PyStr.comma s) as [|x xs]; [contradiction|].
      apply Forall_cons in IHf as [Hx Hxs]. split.
      * destruct xs as [|y ys]; [cbn in *; now rewrite IHj|].
        rewrite joined_cons in * by discriminate.
        cbn [app]. now rewrite IHj.
      * constructor; [|exact Hxs]. apply not_elem_of_cons. split; [congruence | exact Hx].
Qed.

(** The pieces are the only tokens without commas that make the text. *)
Lemma split_joined tokens :
  tokens <> [] -> Forall (fun token => PyStr.comma ∉ token) tokens ->
  PyStr.split PyStr.comma (joined tokens) = tokens.
Proof.
  intros Hnil Hall. induction Hall as [|token rest Htoken Hrest IH]; [contradiction|].
  destruct rest as [|token2 rest].
  - clear IH Hrest Hnil. cbn [joined]. induction token as [|c token IH]; [reflexivity|].
    apply not_elem_of_cons in Htoken as [Hc Htoken].
    rewrite split_cons. destruct (N.eqb_spec c PyStr.comma); [congruence|].
    now rewrite (IH Htoken).
  - rewrite joined_cons by discriminate. specialize (IH ltac:(discriminate)).
    clear Hnil Hrest. induction token as [|c token IHt].
    + cbn [app]. rewrite split_cons, N.eqb_refl. now rewrite IH.
    + apply not_elem_of_cons in Htoken as [Hc Htoken].
      cbn [app]. rewrite split_cons. destruct (N.eqb_spec c PyStr.comma); [congruence|].
      now rewrite (IHt Htoken).
Qed.

(** **** White space *)

Lemma lstrip_with_spec p s :
  exists l, s = l ++ PyStr.lstrip_with p s
            /\ Forall (fun c => p c = true) l
            /\ forall c, head (PyStr.lstrip_with p s) = Some c -> p c = false.
Proof.
  induction s as [|c s (l & Hs & Hl & Hhead)].
  - exists []. repeat split; [constructor | discriminate].
  - cbn [PyStr.lstrip_with]. destruct (p c) eqn:E.
    + exists (c :: l). split; [cbn; now rewrite <- Hs|]. split; [now constructor | exact Hhead].
    + exists []. split; [reflexivity|]. split; [constructor|]. now intros c' [= <-].
Qed.

Lemma last_rev {A} (l : list A) : last (rev l) = head l.
Proof. destruct l as [|x l]; [reflexivity|]. cbn [rev]. apply last_snoc. Qed.

Lemma rstrip_with_spec p s :
  exists r, s = PyStr.rstrip_with p s ++ r
            /\ Forall (fun c => p c = true) r
            /\ forall c, last (PyStr.rstrip_with p s) = Some c -> p c = false.
Proof.
  unfold PyStr.rstrip_with.
  destruct (lstrip_with_spec p (rev s)) as (l & Hs & Hl & Hhead).
  exists (rev l). split; [|split].
  - rewrite <- rev_app_distr, <- Hs. now rewrite rev_involutive.
  - apply Forall_forall. intros c Hc. rewrite Forall_forall in Hl. apply Hl.
    apply list_elem_of_In. apply list_elem_of_In in Hc. now apply in_rev.
  - intros c. rewrite last_rev. apply Hhead.
Qed.

(** What [strip] returns is the text without the white space at its
    ends. *)
Lemma strip_with_spec p s :
  trimmed_of (fun c => p c = true) s (PyStr.strip_with p s).
Proof.
  unfold PyStr.strip_with.
  destruct (rstrip_with_spec p s) as (r & Hs & Hr & Hlast).
  destruct (lstrip_with_spec p (PyStr.rstrip_with p s)) as (l & Hs1 & Hl & Hhead).
  exists l, r. split; [rewrite app_assoc, <- Hs1; exact Hs|].
  split; [exact Hl|]. split; [exact Hr|]. split.
  - intros c Hc. rewrite (Hhead c Hc). discriminate.
  - intros c Hc. rewrite (Hlast c); [discriminate|].
    rewrite Hs1. destruct (PyStr.lstrip_with p (PyStr.rstrip_with p s)) as [|x xs];
      [discriminate|].
    rewrite last_app. now rewrite Hc.
Qed.

Lemma lstrip_with_app p l s :
  Forall (fun c => p c = true) l -> PyStr.lstrip_with p (l ++ s) = PyStr.lstrip_with p s.
Proof. induction 1 as [|c l Hc _ IH]; [reflexivity|]. cbn. now rewrite Hc. Qed.

Lemma lstrip_with_stop p s :
  (forall c, head s = Some c -> p c = false) -> PyStr.lstrip_with p s = s.
Proof.
  destruct s as [|c s]; [reflexivity|]. intros H. cbn. now rewrite (H c eq_refl).
Qed.

Lemma lstrip_with_all p l :
  Forall (fun c => p c = true) l -> PyStr.lstrip_with p l = [].
Proof. intros H. rewrite <- (app_nil_r l). now rewrite lstrip_with_app. Qed.

Lemma Forall_rev {A} (P : A -> Prop) (l : list A) : Forall P l -> Forall P (rev l).
Proof.
  rewrite !Forall_forall. intros H x Hx. apply H.
  apply list_elem_of_In. apply list_elem_of_In in Hx. now apply in_rev.
Qed.

(** ... and the only such text. *)
Lemma strip_with_trimmed p token core :
  trimmed_of (fun c => p c = true) token core -> PyStr.strip_with p token = core.
Proof.
  intros (l & r & -> & Hl & Hr & Hhead & Hlast).
  assert (Hh : forall c, head core = Some c -> p c = false).
  { intros c Hc. apply not_true_is_false. now apply Hhead. }
  assert (Ht : forall c, last core = Some c -> p c = false).
  { intros c Hc. apply not_true_is_false. now apply Hlast. }
  unfold PyStr.strip_with, PyStr.rstrip_with.
  rewrite !rev_app_distr, <- app_assoc.
  rewrite lstrip_with_app by now apply Forall_rev.
  destruct core as [|x core].
  - cbn [rev app]. rewrite (lstrip_with_all p (rev l)) by now apply Forall_rev.
    reflexivity.
  - rewrite (lstrip_with_stop p (rev (x :: core) ++ rev l)).
    + rewrite rev_app_distr, !rev_involutive.
      rewrite lstrip_with_app by exact Hl. now apply lstrip_with_stop.
    + intros c Hc. apply Ht. rewrite <- Hc.
      rewrite <- (rev_involutive (x :: core)) at 1. rewrite last_rev.
      destruct (rev (x :: core)) as [|y ys] eqn:E; [|reflexivity].
      apply (f_equal (@length N)) in E. rewrite length_rev in E. discriminate.
Qed.

Lemma is_space_blank c : PyStr.is_space c = true <-> blank c.
Proof.
  unfold blank, white_space, PyStr.is_space. rewrite !elem_of_cons, elem_of_nil.
  rewrite !orb_true_iff, !andb_true_iff, !N.leb_le, !N.eqb_eq. lia.
Qed.

(** **** Hyphens *)

Lemma contains_spec c s : PyStr.contains c s = true <-> c ∈ s.
Proof.
  unfold PyStr.contains. rewrite existsb_exists. split.
  - intros (x & Hx & E). apply N.eqb_eq in E. subst x. now apply list_elem_of_In.
  - intros H. exists c. split; [now apply list_elem_of_In | apply N.eqb_refl].
Qed.

Lemma contains_false c s : c ∉ s -> PyStr.contains c s = false.
Proof. intros H. apply not_true_is_false. now rewrite contains_spec. Qed.

Lemma split1_spec c a b : c ∉ a -> PyStr.split1 c (a ++ c :: b) = [a; b].
Proof.
  induction a as [|x a IH]; intros Ha.
  - cbn. now rewrite N.eqb_refl.
  - apply not_elem_of_cons in Ha as [Hx Ha]. cbn.
    destruct (N.eqb_spec x c); [congruence|]. now rewrite (IH Ha).
Qed.

(** **** Integers *)

Section WithInterpreter.
Context {I : Interpreter}.

Lemma is_int_space_blank c : PyStr.is_int_space c = true <-> int_blank c.
Proof.
  unfold PyStr.is_int_space, int_blank. rewrite <- is_space_blank.
  unfold PyStr.is_space.
  destruct (N.ltb_spec c 127);
    rewrite !orb_true_iff, !andb_true_iff, !N.leb_le, !N.eqb_eq; lia.
Qed.

Lemma digit_of_spec c d : PyStr.digit_of c = Some d <-> digit c d.
Proof.
  unfold PyStr.digit_of, digit. destruct (N.ltb_spec c 127) as [Hc|Hc].
  - destruct (N.leb_spec 48 c), (N.leb_spec c 57); cbn [andb].
    1: split; [intros [= <-]; left; split; [lia | reflexivity]
              | intros [[_ ->]|[? _]]; [reflexivity | lia]].
    all: split; [discriminate | intros [[? _]|[? _]]; lia].
  - destruct (PyStr.is_space c) eqn:E.
    + apply is_space_blank in E. split; [discriminate|].
      intros [[? _]|(_ & Hb & _)]; [lia | contradiction].
    + assert (~ blank c) by (rewrite <- is_space_blank; congruence).
      split; [intros Hd; right; auto | intros [[? _]|(_ & _ & Hd)]; [lia | exact Hd]].
Qed.

Lemma digit_functional c d d' : digit c d -> digit c d' -> d = d'.
Proof. rewrite <- !digit_of_spec. congruence. Qed.

Lemma not_digit_underscore d : ~ digit PyStr.underscore d.
Proof. rewrite <- digit_of_spec. discriminate. Qed.

Lemma not_digit_sign c d : digit c d -> c <> PyStr.plus /\ c <> PyStr.hyphen.
Proof. rewrite <- digit_of_spec. split; intros ->; discriminate. Qed.

Lemma not_int_blank_digit c d : digit c d -> ~ int_blank c.
Proof.
  intros [[Hc _]|(_ & Hb & _)] [Hblank _]; [|contradiction].
  apply is_space_blank in Hblank. unfold PyStr.is_space in Hblank.
  rewrite !orb_true_iff, !andb_true_iff, !N.leb_le, !N.eqb_eq in Hblank. lia.
Qed.

Lemma digits_head s ds : digits s ds -> exists c d, head s = Some c /\ digit c d.
Proof. destruct 1; eauto. Qed.

Lemma digits_last_digit s ds : digits s ds -> exists c d, last s = Some c /\ digit c d.
Proof.
  induction 1 as [c d Hd|c d s ds Hd Hs IH|c d s ds Hd Hs IH]; [eauto|..];
    destruct IH as (c' & d' & Hl & Hd'); exists c', d'; (split; [|exact Hd']);
    destruct s; try discriminate; exact Hl.
Qed.

Lemma decimal_cons d ds : decimal (d :: ds) = d * 10 ^ Z.of_nat (length ds) + decimal ds.
Proof. reflexivity. Qed.

(** What [int_digits] reads are the digits of the grammar, and the number
    it makes of them is the one they write. *)
Lemma int_digits_spec s : forall acc count n k,
  (PyStr.int_digits acc count false s = Some (n, k) <->
   exists ds, digits s ds
              /\ n = acc * 10 ^ Z.of_nat (length ds) + decimal ds
              /\ k = count + Z.of_nat (length ds))
  /\ (PyStr.int_digits acc count true s = Some (n, k) <->
      (s = [] /\ n = acc /\ k = count)
      \/ (exists ds, digits s ds
                     /\ n = acc * 10 ^ Z.of_nat (length ds) + decimal ds
                     /\ k = count + Z.of_nat (length ds))
      \/ (exists s' ds, s = PyStr.underscore :: s' /\ digits s' ds
                        /\ n = acc * 10 ^ Z.of_nat (length ds) + decimal ds
                        /\ k = count + Z.of_nat (length ds))).
Proof.
  induction s as [|c s IH]; intros acc count n k.
  - cbn [PyStr.int_digits]. split.
    + split; [discriminate | intros (ds & H & _); inversion H].
    + split; [intros [= <- <-]; auto|].
      intros [(_ & -> & ->)|[(ds & H & _)|(s' & ds & H & _)]];
        [reflexivity | inversion H | discriminate].
  - cbn [PyStr.int_digits]. destruct (N.eqb_spec c PyStr.underscore) as [->|Hc].
    + split.
      * split; [discriminate|]. intros (ds & H & _).
        inversion H; subst; exfalso; eapply not_digit_underscore; eauto.
      * rewrite (proj1 (IH acc count n k)). split.
        -- intros (ds & H & Hn & Hk). right. right. eauto 10.
        -- intros [(H & _)|[(ds & H & _)|(s' & ds & [= <-] & H)]];
             [discriminate | | eauto].
           inversion H; subst; exfalso; eapply not_digit_underscore; eauto.
    + assert (Hstep : forall dd,
                PyStr.digit_of c = Some dd ->
                PyStr.int_digits (10 * acc + dd) (count + 1) true s = Some (n, k) <->
                exists ds, digits (c :: s) ds
                           /\ n = acc * 10 ^ Z.of_nat (length ds) + decimal ds
                           /\ k = count + Z.of_nat (length ds)).
      { intros dd Hdd. apply digit_of_spec in Hdd.
        rewrite (proj2 (IH (10 * acc + dd) (count + 1) n k)). split.
        - intros [(-> & -> & ->)|[(ds & H & -> & ->)|(s' & ds & -> & H & -> & ->)]].
          + exists [dd]. split; [now constructor|]. cbn. split; lia.
          + exists (dd :: ds). split; [now constructor|].
            rewrite decimal_cons. cbn [length]. rewrite Nat2Z.inj_succ, Z.pow_succ_r by lia.
            split; lia.
          + exists (dd :: ds). split; [now constructor|].
            rewrite decimal_cons. cbn [length]. rewrite Nat2Z.inj_succ, Z.pow_succ_r by lia.
            split; lia.
        - intros (ds & H & -> & ->). inversion H; subst.
          + left. rewrite (digit_functional _ _ _ Hdd H3). cbn. repeat split; lia.
          + right. left. exists ds0. split; [assumption|].
            rewrite (digit_functional _ _ _ Hdd H2), decimal_cons. cbn [length].
            rewrite Nat2Z.inj_succ, Z.pow_succ_r by lia. split; lia.
          + right. right. exists s0, ds0. split; [reflexivity|]. split; [assumption|].
            rewrite (digit_functional _ _ _ Hdd H2), decimal_cons. cbn [length].
            rewrite Nat2Z.inj_succ, Z.pow_succ_r by lia. split; lia. }
      destruct (PyStr.digit_of c) as [dd|] eqn:Edd.
      * split; [apply Hstep; reflexivity|].
        rewrite (Hstep dd eq_refl). split; [auto|].
        intros [(H & _)|[H|(s' & ds & [= E _] & _)]];
          [discriminate | exact H | congruence].
      * assert (Hno : forall ds, ~ digits (c :: s) ds).
        { intros ds H.
          assert (exists d, digit c d) as [d Hd] by (inversion H; eauto).
          apply digit_of_spec in Hd. congruence. }
        split; (split; [discriminate|]).
        -- intros (ds & H & _). now apply Hno in H.
        -- intros [(H & _)|[(ds & H & _)|(s' & ds & [= E _] & _)]];
             [discriminate | now apply Hno in H | congruence].
Qed.

Lemma within_digit_limit_spec n :
  PyStr.within_digit_limit (Z.of_nat n) = true <-> allowed_digits n.
Proof.
  unfold PyStr.within_digit_limit, allowed_digits.
  rewrite negb_true_iff, !andb_false_iff, !Z.ltb_ge. tauto.
Qed.

(** [int] reads a text as an integer exactly when it is one, and as that
    integer. *)
Lemma int_spec s n : PyStr.int s = Some n <-> integer s n.
Proof.
  split.
  - unfold PyStr.int.
    destruct (strip_with_spec PyStr.is_int_space s) as (l & r & Hs & Hl & Hr & _).
    set (core := PyStr.strip_with PyStr.is_int_space s) in *.
    assert (Hbl : forall x, Forall (fun c => PyStr.is_int_space c = true) x ->
                            Forall int_blank x).
    { intros x Hx. eapply Forall_impl; [exact Hx|]. intros c. apply is_int_space_blank. }
    assert (Hsign : exists sg negative body,
              core = sg ++ body /\ sign sg negative
              /\ match core with
                 | c :: rest => if (c =? PyStr.plus)%N then (false, rest)
                                else if (c =? PyStr.hyphen)%N then (true, rest)
                                else (false, core)
                 | [] => (false, [])
                 end = (negative, body)).
    { destruct core as [|c rest]; [exists [], false, []; repeat constructor|].
      destruct (N.eqb_spec c PyStr.plus) as [->|?];
        [exists [PyStr.plus], false, rest; repeat constructor|].
      destruct (N.eqb_spec c PyStr.hyphen) as [->|?];
        [exists [PyStr.hyphen], true, rest; repeat constructor|].
      exists [], false, (c :: rest). repeat constructor. }
    destruct Hsign as (sg & negative & body & Hcore & Hsg & ->).
    destruct (PyStr.int_digits 0 0 false body) as [[n0 k]|] eqn:E; [|discriminate].
    apply int_digits_spec in E as (ds & Hds & -> & ->).
    destruct (PyStr.within_digit_limit (0 + Z.of_nat (length ds))) eqn:Elim; [|discriminate].
    intros [= <-]. rewrite Hs, Hcore, <- app_assoc.
    replace (0 * 10 ^ Z.of_nat (length ds) + decimal ds) with (decimal ds) by lia.
    constructor; auto. now apply within_digit_limit_spec.
  - intros [l sg negative body r ds Hl Hr Hsg Hds Hlim].
    destruct (digits_head _ _ Hds) as (c & d & Hc & Hcd).
    destruct (digits_last_digit _ _ Hds) as (c' & d' & Hc' & Hcd').
    assert (Hbody : body <> []) by (intros ->; discriminate).
    assert (Hstrip : PyStr.strip_with PyStr.is_int_space (l ++ sg ++ body ++ r)
                     = sg ++ body).
    { apply strip_with_trimmed. exists l, r. rewrite <- app_assoc.
      split; [reflexivity|].
      split; [eapply Forall_impl; [exact Hl | intros x; apply is_int_space_blank]|].
      split; [eapply Forall_impl; [exact Hr | intros x; apply is_int_space_blank]|].
      split.
      - intros x Hx. rewrite is_int_space_blank.
        destruct Hsg; cbn in Hx.
        + rewrite Hc in Hx. injection Hx as <-. eapply not_int_blank_digit, Hcd.
        + injection Hx as <-. intros [Hb _]. apply is_space_blank in Hb. discriminate.
        + injection Hx as <-. intros [Hb _]. apply is_space_blank in Hb. discriminate.
      - intros x Hx. rewrite is_int_space_blank. rewrite last_app, Hc' in Hx.
        injection Hx as <-. eapply not_int_blank_digit, Hcd'. }
    unfold PyStr.int. rewrite Hstrip.
    assert (E : PyStr.int_digits 0 0 false body
                = Some (decimal ds, Z.of_nat (length ds))).
    { apply int_digits_spec. exists ds. split; [exact Hds|]. split; lia. }
    destruct (not_digit_sign _ _ Hcd) as [Hp Hm].
    apply within_digit_limit_spec in Hlim.
    destruct Hsg; cbn [app].
    + destruct body as [|x body]; [contradiction|]. injection Hc as ->.
      destruct (N.eqb_spec c PyStr.plus); [contradiction|].
      destruct (N.eqb_spec c PyStr.hyphen); [contradiction|].
      now rewrite E, Hlim.
    + rewrite N.eqb_refl. now rewrite E, Hlim.
    + cbn. now rewrite E, Hlim.
Qed.

(** **** Ranges *)

Lemma range_seqZ start end_ :
  start <= end_ -> PyStr.range start (end_ + 1) = seqZ start (end_ - start + 1).
Proof.
  intros _. unfold PyStr.range, seqZ.
  replace (end_ + 1 - start) with (end_ - start + 1) by lia.
  apply map_ext. intros i. lia.
Qed.

Lemma length_range start stop : Z.of_nat (length (PyStr.range start stop)) = Z.max 0 (stop - start).
Proof. unfold PyStr.range. rewrite length_map, length_seq. lia. Qed.

(** What one trimmed token adds to the ports, as [add_part] has it. *)
Definition ports_of (part : PyStr.str) : list Z :=
  if PyStr.contains PyStr.hyphen part then
    match PyStr.split1 PyStr.hyphen part with
    | [a; b] =>
        match PyStr.int a, PyStr.int b with
        | Some start, Some end_ =>
            if start <=? end_ then PyStr.range start (end_ + 1) else []
        | _, _ => []
        end
    | _ => []
    end
  else
    match PyStr.int part with
    | Some port => [port]
    | None => []
    end.

Lemma add_part_ports_of ports part :
  add_part ports part
  = match ports_of part with
    | [] => Some ports
    | items => if fits ports (Z.of_nat (length items)) then Some (ports ++ items) else None
    end.
Proof.
  unfold add_part, ports_of.
  destruct (PyStr.contains PyStr.hyphen part).
  - destruct (PyStr.split1 PyStr.hyphen part) as [|a [|b [|c l]]]; try reflexivity.
    destruct (PyStr.int a) as [start|]; [|reflexivity].
    destruct (PyStr.int b) as [end_|]; [|reflexivity].
    destruct (Z.leb_spec start end_) as [Hle|]; [|reflexivity].
    pose proof (length_range start (end_ + 1)) as Hlen.
    destruct (PyStr.range start (end_ + 1)) as [|p items] eqn:E; [cbn in Hlen; lia|].
    rewrite Hlen. replace (Z.max 0 (end_ + 1 - start)) with (end_ + 1 - start) by lia.
    reflexivity.
  - destruct (PyStr.int part); reflexivity.
Qed.

(** The trimmed token stands for what [add_part] adds, and for nothing
    else. *)
Lemma ports_of_spec part items : stands_for part items <-> items = ports_of part.
Proof.
  assert (Hint : forall s n, integer s n -> PyStr.int s = Some n)
    by (intros s n; apply int_spec).
  split.
  - unfold ports_of. intros [a b start end_ Ha Hs He|a b Ha Hno|token port Ht Hp|token Ht Hno].
    + rewrite (proj2 (contains_spec _ _))
        by (apply elem_of_app; right; now left).
      rewrite split1_spec by exact Ha. rewrite (Hint _ _ Hs), (Hint _ _ He).
      destruct (Z.leb_spec start end_); [now rewrite range_seqZ|].
      unfold seqZ. replace (Z.to_nat (end_ - start + 1)) with 0%nat by lia. reflexivity.
    + rewrite (proj2 (contains_spec _ _))
        by (apply elem_of_app; right; now left).
      rewrite split1_spec by exact Ha.
      destruct (PyStr.int a) as [start|] eqn:Ea; [|reflexivity].
      destruct (PyStr.int b) as [end_|] eqn:Eb; [|reflexivity].
      exfalso. apply Hno. split; eexists; apply int_spec; eassumption.
    + rewrite contains_false by exact Ht.
      now rewrite (Hint _ _ Hp).
    + rewrite contains_false by exact Ht.
      destruct (PyStr.int token) as [port|] eqn:E; [|reflexivity].
      apply int_spec in E. now apply Hno in E.
  - intros ->. unfold ports_of.
    destruct (PyStr.contains PyStr.hyphen part) eqn:Ec.
    + apply contains_spec in Ec. apply list_elem_of_split_l in Ec as (a & b & -> & Ha).
      rewrite split1_spec by exact Ha.
      destruct (PyStr.int a) as [start|] eqn:Ea;
        [destruct (PyStr.int b) as [end_|] eqn:Eb|].
      * apply int_spec in Ea, Eb.
        replace (if start <=? end_ then PyStr.range start (end_ + 1) else [])
          with (seqZ start (end_ - start + 1)); [now constructor|].
        destruct (Z.leb_spec start end_); [now rewrite range_seqZ|].
        unfold seqZ. replace (Z.to_nat (end_ - start + 1)) with 0%nat by lia. reflexivity.
      * apply stands_for_no_range; [exact Ha|]. intros [_ [end_ He]].
        apply int_spec in He. congruence.
      * apply stands_for_no_range; [exact Ha|]. intros [[start Hs] _].
        apply int_spec in Hs. congruence.
    + assert (Hnot : PyStr.hyphen ∉ part) by (rewrite <- contains_spec; congruence).
      destruct (PyStr.int part) as [port|] eqn:E.
      * apply int_spec in E. now constructor.
      * apply stands_for_nothing; [exact Hnot|]. intros port Hp.
        apply int_spec in Hp. congruence.
Qed.

Lemma fits_app ports items n :
  0 <= n ->
  fits (ports ++ items) n = fits ports (Z.of_nat (length items) + n).
Proof. intros _. unfold fits. rewrite length_app. f_equal. lia. Qed.

(** The loop over the tokens adds what they stand for, in their order,
    when the list has room for all of it, and raises otherwise. *)
Lemma add_parts_spec parts ports :
  add_parts ports parts
  = match concat (map ports_of parts) with
    | [] => Some ports
    | items => if fits ports (Z.of_nat (length items)) then Some (ports ++ items) else None
    end.
Proof.
  revert ports; induction parts as [|part parts IH]; intros ports; [reflexivity|].
  cbn [add_parts map concat]. rewrite add_part_ports_of.
  destruct (ports_of part) as [|p items] eqn:E; cbn [mbind option_bind app].
  - apply IH.
  - destruct (concat (map ports_of parts)) as [|q rest] eqn:Erest.
    + rewrite app_nil_r.
      destruct (fits ports (Z.of_nat (length (p :: items)))); cbn [mbind option_bind];
        [|reflexivity].
      apply IH.
    + change (p :: items ++ q :: rest) with ((p :: items) ++ q :: rest).
      rewrite length_app, Nat2Z.inj_add.
      destruct (fits ports (Z.of_nat (length (p :: items)))) eqn:Efits;
        cbn [mbind option_bind].
      * rewrite IH. cbv zeta. rewrite fits_app by lia. now rewrite <- app_assoc.
      * unfold fits in *. apply Z.leb_gt in Efits.
        destruct (Z.leb_spec (Z.of_nat (length ports)
                              + (Z.of_nat (length (p :: items))
                                 + Z.of_nat (length (q :: rest)))) list_capacity);
          [lia | reflexivity].
Qed.

(** **** The result *)

(** A list sorted by [<=] without repetition is sorted by [<]. *)
Lemma StronglySorted_le_lt (l : list Z) :
  StronglySorted Z.le l -> NoDup l -> StronglySorted Z.lt l.
Proof.
  induction 1 as [|x l Hs IH Hall]; intros Hnd; constructor.
  - apply IH. now apply NoDup_cons in Hnd.
  - apply NoDup_cons in Hnd. destruct Hnd as [Hx _].
    rewrite List.Forall_forall in *. intros y Hy.
    specialize (Hall y Hy).
    assert (x <> y) by (intros ->; apply Hx; now apply list_elem_of_In).
    lia.
Qed.

Lemma sorted_set_sorted l : StronglySorted Z.lt (sorted_set l).
Proof.
  unfold sorted_set. apply StronglySorted_le_lt.
  - apply StronglySorted_merge_sort; apply _.
  - rewrite merge_sort_Permutation. apply NoDup_remove_dups.
Qed.

Lemma elem_of_sorted_set l x : x ∈ sorted_set l <-> x ∈ l.
Proof.
  unfold sorted_set. rewrite merge_sort_Permutation. apply elem_of_remove_dups.
Qed.

Lemma trimmed_strip token core : trimmed token core <-> core = PyStr.strip token.
Proof.
  assert (Hiff : forall t c, trimmed t c <-> trimmed_of (fun x => PyStr.is_space x = true) t c).
  { intros t c. unfold trimmed, trimmed_of.
    split; intros (l & r & Ht & Hl & Hr & Hh & Hlast); exists l, r;
      (split; [exact Ht|]);
      (split; [eapply Forall_impl; [exact Hl | intros x; apply is_space_blank]|]);
      (split; [eapply Forall_impl; [exact Hr | intros x; apply is_space_blank]|]);
      split; intros x Hx; [rewrite is_space_blank | rewrite is_space_blank
                          | rewrite <- is_space_blank | rewrite <- is_space_blank]; auto. }
  rewrite Hiff. split.
  - intros H. symmetry. now apply strip_with_trimmed.
  - intros ->. apply strip_with_spec.
Qed.

Lemma Forall2_map_eq {A B} (R : A -> B -> Prop) (f : A -> B) l l' :
  (forall x y, R x y <-> y = f x) -> Forall2 R l l' <-> l' = map f l.
Proof.
  intros HR. split.
  - induction 1 as [|x y l l' Hxy _ IH]; [reflexivity|].
    cbn. apply HR in Hxy. now subst.
  - intros ->. induction l; constructor; [now apply HR | assumption].
Qed.

(** A range that the list has no room for. *)
Lemma add_part_no_room ports a b start end_ :
  PyStr.hyphen ∉ a -> PyStr.int a = Some start -> PyStr.int b = Some end_ ->
  start <= end_ ->
  list_capacity < Z.of_nat (length ports) + (end_ + 1 - start) ->
  add_part ports (a ++ PyStr.hyphen :: b) = None.
Proof.
  intros Ha Hs He Hle Hroom. unfold add_part.
  rewrite (proj2 (contains_spec _ _)) by (apply elem_of_app; right; now left).
  rewrite split1_spec by exact Ha. rewrite Hs, He.
  destruct (Z.leb_spec start end_); [|lia].
  unfold fits. destruct (Z.leb_spec (Z.of_nat (length ports) + (end_ + 1 - start))
                           list_capacity); [lia | reflexivity].
Qed.

(** C6.  Every text is, in one way only, tokens without a comma joined by
    commas; each token has one trimmed form, and each trimmed form stands
    for one list of ports, as the specification words it.  When the list
    has room for all these ports, [from_port_string] returns a
    configuration whose port range holds, in increasing order and each
    once, the ports between 1 and 65535 among them; otherwise it raises.
    The text "80,443,8000-8002" gives 80, 443, 8000, 8001, 8002 where there
    is room for five ports; the text "1-1000000000000000000000000000000"
    raises, whatever the room. *)
Theorem from_port_string_ports (port_string : PyStr.str) (scan_type : ScanType)
    (timeout : float) (max_threads : Z) (protocols : option (list Protocol))
    (remote_config : option RemoteConfig) :
  (exists tokens cores lists,
     (tokens <> [] /\ port_string = joined tokens
      /\ Forall (fun token => PyStr.comma ∉ token) tokens
      /\ Forall2 trimmed tokens cores /\ Forall2 stands_for cores lists)
     /\ (forall tokens' cores' lists',
           tokens' <> [] -> port_string = joined tokens' ->
           Forall (fun token => PyStr.comma ∉ token) tokens' ->
           Forall2 trimmed tokens' cores' -> Forall2 stands_for cores' lists' ->
           tokens' = tokens /\ cores' = cores /\ lists' = lists)
     /\ match from_port_string port_string scan_type timeout max_threads protocols
                remote_config with
        | Some config =>
            Z.of_nat (length (concat lists)) <= list_capacity
            /\ StronglySorted Z.lt (port_range config)
            /\ forall port, port ∈ port_range config
                 <-> 1 <= port <= 65535 /\ port ∈ concat lists
        | None => list_capacity < Z.of_nat (length (concat lists))
        end)
  /\ (5 <= list_capacity ->
      port_range <$> from_port_string (PyStr.of_ascii "80,443,8000-8002") scan_type
                       timeout max_threads protocols remote_config
      = Some [80; 443; 8000; 8001; 8002])
  /\ from_port_string (PyStr.of_ascii "1-1000000000000000000000000000000") scan_type
       timeout max_threads protocols remote_config = None.
Proof.
  split; [|split].
  - exists (PyStr.split PyStr.comma port_string),
           (map PyStr.strip (PyStr.split PyStr.comma port_string)),
           (map ports_of (map PyStr.strip (PyStr.split PyStr.comma port_string))).
    destruct (split_spec port_string) as [Hjoined Hcommas].
    split; [|split].
    + split; [apply split_not_nil|]. split; [now rewrite Hjoined|].
      split; [exact Hcommas|].
      split; [apply (Forall2_map_eq _ PyStr.strip); [apply trimmed_strip | reflexivity]|].
      apply (Forall2_map_eq _ ports_of); [apply ports_of_spec | reflexivity].
    + intros tokens' cores' lists' Hnil -> Hc Ht Hs.
      rewrite split_joined by assumption.
      apply (Forall2_map_eq _ PyStr.strip) in Ht; [|apply trimmed_strip].
      apply (Forall2_map_eq _ ports_of) in Hs; [|apply ports_of_spec].
      subst. auto.
    + unfold from_port_string. rewrite add_parts_spec.
      set (collected := concat _).
      assert (Hrange : forall ports port,
                port ∈ port_range (ScanConfig_new ports scan_type timeout max_threads
                                     protocols remote_config)
                <-> 1 <= port <= 65535 /\ port ∈ ports).
      { intros ports port. unfold ScanConfig_new. cbn [port_range].
        rewrite elem_of_sorted_set, list_elem_of_filter. reflexivity. }
      destruct collected as [|p items] eqn:E; cbn [mbind option_bind].
      * split; [cbn; apply list_capacity_nonneg|].
        split; [apply sorted_set_sorted | apply Hrange].
      * unfold fits. cbn [length app].
        destruct (Z.leb_spec (Z.of_nat 0 + Z.of_nat (S (length items))) list_capacity);
          cbn [mbind option_bind].
        -- split; [cbn [length]; lia|].
           split; [apply sorted_set_sorted | apply Hrange].
        -- cbn [length]. lia.
  - intros Hroom. unfold from_port_string. rewrite add_parts_spec.
    replace (concat (map ports_of (map PyStr.strip
                                     (PyStr.split PyStr.comma
                                        (PyStr.of_ascii "80,443,8000-8002")))))
      with [80; 443; 8000; 8001; 8002] by (vm_compute; reflexivity).
    unfold fits. cbn [length].
    destruct (Z.leb_spec (Z.of_nat 0 + Z.of_nat 5) list_capacity); [|lia].
    vm_compute. reflexivity.
  - unfold from_port_string.
    change (map PyStr.strip (PyStr.split PyStr.comma
                               (PyStr.of_ascii "1-1000000000000000000000000000000")))
      with [PyStr.of_ascii "1" ++ PyStr.hyphen
            :: PyStr.of_ascii "1000000000000000000000000000000"].
    cbn [add_parts].
    rewrite (add_part_no_room [] _ _ 1 1000000000000000000000000000000);
      [reflexivity | | vm_compute; reflexivity | vm_compute; reflexivity | lia |].
    + change (PyStr.of_ascii "1") with [49%N].
      intros H. apply list_elem_of_singleton in H. discriminate H.
    + pose proof list_capacity_maxsize. cbn [length]. lia.
Qed.

End WithInterpreter.

(** Tokens that are dropped or clipped: a reversed range, a negative
    number (it holds a hyphen), ports out of range, words; and tokens that
    count: spaces around the bounds, an underscore between digits, a plus
    sign, a port given twice. *)
Example from_port_string_odd_tokens :
  port_range
    <$> from_port_string (I := CPython311.interpreter)
          (PyStr.of_ascii " 80 , 443,9-7, -5, 1_0, 70000, 0, a-b, 3 - 5,80,+7")
          LOCAL 1%float 50 None None
  = Some [3; 4; 5; 7; 10; 80; 443].
Proof. vm_compute. reflexivity. Qed.

(** Characters beyond ASCII: the Arabic-Indic digit three is a digit and
    the no-break space is white space for [int] and for [strip]; the
    separator U+001C is white space for [strip] only, so that it spoils the
    bound it follows. *)
Example from_port_string_other_scripts :
  port_range
    <$> from_port_string (I := CPython311.interpreter)
          ([1635; 44; 160; 53] ++ PyStr.of_ascii "-7" ++ [8195; 44; 53; 28]
           ++ PyStr.of_ascii "-7,9" ++ [28])%N
          LOCAL 1%float 50 None None
  = Some [3; 5; 6; 7; 9].
Proof. vm_compute. reflexivity. Qed.

#[local] Close Scope Z_scope.

(** *** [ScanResult] *)

#[local] Instance PortStatus_eq_dec : EqDecision PortStatus.
Proof. solve_decision. Defined.

(** The entries whose status is LISTEN or ESTABLISHED. *)
Definition listening_or_established (l : list PortInfo) : list PortInfo :=
  filter (fun p => status p = LISTEN \/ status p = ESTABLISHED) l.

Lemma is_occupied_spec p :
  is_occupied p = true <-> status p = LISTEN \/ status p = ESTABLISHED.
Proof.
  unfold is_occupied. destruct (status p); split; intros H;
    try reflexivity; try discriminate; auto; destruct H; discriminate.
Qed.

Lemma occupied_count l :
  length (filter (fun p => is_occupied p = true) l)
    = length (listening_or_established l).
Proof.
  unfold listening_or_established. f_equal.
  apply list_filter_iff. intros p. apply is_occupied_spec.
Qed.

(** Three entries, two of them listening and one closed. *)
Definition three_ports : list PortInfo :=
  [PortInfo_new 80 (inl LISTEN) TCP "0.0.0.0" "" None None;
   PortInfo_new 443 (inr "LISTEN") TCP "0.0.0.0" "" None None;
   PortInfo_new 8080 (inl CLOSED) TCP "0.0.0.0" "" None None].

(** C7.  Whatever counts are passed to the constructor, a [ScanResult] has
    the length of its list as [total_ports] and the number of its LISTEN or
    ESTABLISHED entries as [occupied_ports]; [free_ports] is their
    difference and [occupation_rate] their quotient times 100, or 0 for an
    empty list.  For two listening entries and a closed one the figures are
    3, 2, 1 and 66.67 to within 0.05. *)
Theorem scan_result_statistics (scan_time : datetime) (scan_type : ScanType + string)
    (port_info_list : list PortInfo) (success : bool) (error_message : string)
    (scan_duration : float) (total occupied : Z) (remote_config : option RemoteConfig) :
  let r := ScanResult_new scan_time scan_type port_info_list success error_message
             scan_duration total occupied remote_config in
  let r3 := ScanResult_new scan_time scan_type three_ports success error_message
              scan_duration total occupied remote_config in
  total_ports r = Z.of_nat (length port_info_list)
  /\ occupied_ports r = Z.of_nat (length (listening_or_established port_info_list))
  /\ free_ports r = (total_ports r - occupied_ports r)%Z
  /\ (0 <= occupied_ports r <= total_ports r)%Z
  /\ occupation_rate r =
       (if (total_ports r =? 0)%Z then 0%float
        else (float_of_int (occupied_ports r) / float_of_int (total_ports r) * 100)%float)
  /\ (port_info_list = [] -> occupation_rate r = 0%float)
  /\ total_ports r3 = 3%Z /\ occupied_ports r3 = 2%Z /\ free_ports r3 = 1%Z
  /\ PrimFloat.ltb (PrimFloat.abs (occupation_rate r3 - 66.7)%float) 0.05%float = true.
Proof.
  cbv zeta. unfold ScanResult_new, free_ports, occupation_rate.
  cbn [total_ports occupied_ports].
  rewrite !occupied_count.
  repeat split; try reflexivity.
  - lia.
  - unfold listening_or_established.
    pose proof (length_filter (fun p => status p = LISTEN \/ status p = ESTABLISHED)
                  port_info_list).
    lia.
  - intros ->. reflexivity.
Qed.

End DataModelsFacts.

(** * security/password_generator.py *)

Module PasswordGeneratorFacts.
Import PasswordGenerator.

Definition chars (s : string) : list ascii := list_ascii_of_string s.

(** The characters a password may be made of. *)
Definition enabled_pools (include_lowercase include_uppercase include_digits
    include_symbols : bool) : list ascii :=
  (if include_lowercase then chars lowercase else [])
  ++ (if include_uppercase then chars uppercase else [])
  ++ (if include_digits then chars digits else [])
  ++ (if include_symbols then chars symbols else []).

Lemma chars_append a b : chars (a +:+ b) = chars a ++ chars b.
Proof.
  unfold chars. induction a as [|c a IH]; [reflexivity|].
  change (String c a +:+ b)%string with (String c (a +:+ b)).
  simpl. now rewrite IH.
Qed.

Lemma choice_elem_of {A} (seq : list A) r :
  seq <> [] -> exists c, choice seq r = (Some c, snd (choice seq r)) /\ c ∈ seq.
Proof.
  intros Hne. unfold choice.
  destruct seq as [|a seq']; [contradiction|].
  set (l := a :: seq') in *. unfold randbelow. cbn [fst snd].
  assert (Hlt : draws r (drawn r) mod length l < length l)
    by (apply Nat.mod_upper_bound; discriminate).
  destruct (lookup_lt_is_Some_2 l _ Hlt) as [c Hc].
  exists c. rewrite Hc. split; [reflexivity|].
  eapply list_elem_of_lookup_2, Hc.
Qed.

(** One block: the pool joins the character set, and a character of the
    pool the required ones. *)
Lemma add_class_spec include pool charset required r :
  chars pool <> [] ->
  exists charset' required' r',
    add_class include pool (Some (charset, required), r) = (Some (charset', required'), r')
    /\ if include
       then charset' = (charset +:+ pool)%string
            /\ exists c, required' = required ++ [c] /\ c ∈ chars pool
       else charset' = charset /\ required' = required.
Proof.
  intros Hne. unfold add_class. destruct include.
  - destruct (choice_elem_of (chars pool) r Hne) as (c & Hc & Hin).
    fold (chars pool). rewrite Hc.
    eexists _, _, _. split; [reflexivity|]. split; [reflexivity|].
    exists c. auto.
  - eexists _, _, _. split; [reflexivity|]. auto.
Qed.

Lemma random_chars_spec n charset r :
  charset <> [] ->
  exists cs, random_chars n charset r = (Some cs, snd (random_chars n charset r))
             /\ length cs = n /\ Forall (fun c => c ∈ charset) cs.
Proof.
  intros Hne. revert r; induction n as [|n IH]; intros r; simpl.
  - exists []. auto.
  - destruct (choice_elem_of charset r Hne) as (c & Hc & Hin).
    rewrite Hc. destruct (IH (snd (choice charset r))) as (cs & Hcs & Hlen & Hall).
    rewrite Hcs. exists (c :: cs). simpl. auto.
Qed.

Lemma swap_Permutation {A} i j (x : list A) : swap i j x ≡ₚ x.
Proof.
  unfold swap.
  destruct (x !! i) as [a|] eqn:Ei; [|reflexivity].
  destruct (x !! j) as [b|] eqn:Ej; [|reflexivity].
  now apply Permutation_insert_swap.
Qed.

Lemma shuffle_from_Permutation {A} i (x : list A) r : fst (shuffle_from i x r) ≡ₚ x.
Proof.
  revert x r; induction i as [|i IH]; intros x r; [reflexivity|].
  cbn [shuffle_from]. unfold randbelow. rewrite IH. apply swap_Permutation.
Qed.

(** [random.shuffle] rearranges the list and does nothing else to it. *)
Lemma shuffle_Permutation {A} (x : list A) r : fst (shuffle x r) ≡ₚ x.
Proof. apply shuffle_from_Permutation. Qed.

Lemma chars_string_of_list l : chars (string_of_list_ascii l) = l.
Proof. apply list_ascii_of_string_of_list_ascii. Qed.

Lemma length_chars s : length (chars s) = String.length s.
Proof. unfold chars. induction s; simpl; auto. Qed.

(** No lower-case letter, upper-case letter or digit is a symbol. *)
Lemma symbols_apart c :
  c ∈ enabled_pools true true true false -> c ∉ chars symbols.
Proof.
  intros Hc Hs. apply list_elem_of_In in Hc, Hs.
  assert (H : forallb (fun c => negb (existsb (Ascii.eqb c) (chars symbols)))
                (enabled_pools true true true false) = true)
    by (vm_compute; reflexivity).
  rewrite forallb_forall in H. specialize (H c Hc).
  apply negb_true_iff in H.
  assert (H' : existsb (Ascii.eqb c) (chars symbols) = true).
  { apply existsb_exists. exists c. split; [exact Hs | apply Ascii.eqb_refl]. }
  congruence.
Qed.

Lemma enabled_pools_no_symbols il iu id c :
  c ∈ enabled_pools il iu id false -> c ∈ enabled_pools true true true false.
Proof.
  unfold enabled_pools. rewrite !elem_of_app.
  destruct il, iu, id; simpl; rewrite ?elem_of_nil; tauto.
Qed.

(** C8.  For a length of at least 4 and at least one class of characters,
    whatever the random generator produces, [generate_password] returns a
    password of exactly that length, with a character of every class asked
    for and none outside the classes asked for; without the symbols, no
    character of the password is one of the symbols. *)
Theorem generate_password_conforms (length : Z)
    (include_lowercase include_uppercase include_digits include_symbols : bool)
    (r : PyRandom) :
  (4 <= length)%Z ->
  include_lowercase || include_uppercase || include_digits || include_symbols = true ->
  exists password,
    fst (generate_password length include_lowercase include_uppercase
           include_digits include_symbols r) = Some password
    /\ Z.of_nat (String.length password) = length
    /\ (include_lowercase = true -> exists c, c ∈ chars password /\ c ∈ chars lowercase)
    /\ (include_uppercase = true -> exists c, c ∈ chars password /\ c ∈ chars uppercase)
    /\ (include_digits = true -> exists c, c ∈ chars password /\ c ∈ chars digits)
    /\ (include_symbols = true -> exists c, c ∈ chars password /\ c ∈ chars symbols)
    /\ (forall c, c ∈ chars password ->
          c ∈ enabled_pools include_lowercase include_uppercase include_digits
                include_symbols)
    /\ (include_symbols = false -> forall c, c ∈ chars password -> c ∉ chars symbols).
Proof.
  intros Hlen Hany. unfold generate_password.
  destruct (Z.ltb_spec length 4) as [?|_]; [lia|].
  destruct (add_class_spec include_lowercase lowercase "" [] r) as
    (cs1 & rq1 & r1 & E1 & H1); [discriminate|]. rewrite E1.
  destruct (add_class_spec include_uppercase uppercase cs1 rq1 r1) as
    (cs2 & rq2 & r2 & E2 & H2); [discriminate|]. rewrite E2.
  destruct (add_class_spec include_digits digits cs2 rq2 r2) as
    (cs3 & rq3 & r3 & E3 & H3); [discriminate|]. rewrite E3.
  destruct (add_class_spec include_symbols symbols cs3 rq3 r3) as
    (cs4 & rq4 & r4 & E4 & H4); [discriminate|]. rewrite E4.
  clear E1 E2 E3 E4.
  (* the character set and the required characters after the four blocks *)
  assert (Hcs : chars cs4 = enabled_pools include_lowercase include_uppercase
                              include_digits include_symbols).
  { unfold enabled_pools.
    destruct include_lowercase, include_uppercase, include_digits, include_symbols;
      destruct H1 as [-> H1], H2 as [-> H2], H3 as [-> H3], H4 as [-> H4];
      rewrite ?chars_append, ?app_nil_r; reflexivity. }
  assert (Hrq : List.length rq4 <= 4
                /\ Forall (fun c => c ∈ chars cs4) rq4
                /\ (include_lowercase = true -> exists c, c ∈ rq4 /\ c ∈ chars lowercase)
                /\ (include_uppercase = true -> exists c, c ∈ rq4 /\ c ∈ chars uppercase)
                /\ (include_digits = true -> exists c, c ∈ rq4 /\ c ∈ chars digits)
                /\ (include_symbols = true -> exists c, c ∈ rq4 /\ c ∈ chars symbols)).
  { rewrite Hcs. unfold enabled_pools. clear Hcs Hany.
    destruct include_lowercase, include_uppercase, include_digits, include_symbols;
      destruct H1 as [-> H1], H2 as [-> H2], H3 as [-> H3], H4 as [-> H4];
      repeat match goal with
             | H : exists c, _ |- _ => destruct H as (? & -> & ?)
             | H : _ = _ |- _ => rewrite H in *; clear H
             end;
      (split; [simpl; lia|]);
      (split; [rewrite ?Forall_app, ?Forall_singleton, ?Forall_nil, ?elem_of_app; tauto|]);
      repeat split; intros Hx; try discriminate Hx;
      eexists; (split; [|eassumption]);
      rewrite ?elem_of_app, ?list_elem_of_singleton; tauto. }
  destruct Hrq as (Hk & Hrq_in & Hlow & Hup & Hdig & Hsym).
  assert (Hne : chars cs4 <> []).
  { rewrite Hcs. unfold enabled_pools.
    destruct include_lowercase, include_uppercase, include_digits, include_symbols;
      try discriminate Hany; discriminate. }
  assert (Hnes : String.eqb cs4 "" = false).
  { apply String.eqb_neq. intros ->. now apply Hne. }
  rewrite Hnes.
  (* the characters before the shuffle: all required ones, [length] in all *)
  assert (Hext : exists l r',
             (if (0 <? length - Z.of_nat (List.length rq4))%Z
              then match random_chars (Z.to_nat (length - Z.of_nat (List.length rq4)))
                           (list_ascii_of_string cs4) r4 with
                   | (Some cs, r') => (Some (rq4 ++ cs), r')
                   | (None, r') => (None, r')
                   end
              else (Some rq4, r4)) = (Some l, r')
             /\ Z.of_nat (List.length l) = length
             /\ Forall (fun c => c ∈ chars cs4) l
             /\ forall c, c ∈ rq4 -> c ∈ l).
  { destruct (Z.ltb_spec 0 (length - Z.of_nat (List.length rq4))) as [Hpos|Hzero].
    - destruct (random_chars_spec (Z.to_nat (length - Z.of_nat (List.length rq4)))
                  (chars cs4) r4 Hne) as (cs & Ecs & Hcslen & Hcsin).
      fold (chars cs4). rewrite Ecs. eexists _, _. split; [reflexivity|].
      split; [rewrite length_app; lia|].
      split; [now apply Forall_app|].
      intros c Hc. apply elem_of_app. now left.
    - exists rq4, r4. split; [reflexivity|]. split; [lia|]. auto. }
  destruct Hext as (l & r' & El & Hllen & Hlin & Hlrq). rewrite El.
  rewrite (BytesFacts.slice_to_length l length) by lia.
  destruct (shuffle l r') as [shuffled r''] eqn:Esh.
  pose proof (shuffle_Permutation l r') as Hperm. rewrite Esh in Hperm. simpl in Hperm.
  exists (string_of_list_ascii shuffled). cbn [fst].
  split; [reflexivity|].
  rewrite chars_string_of_list.
  assert (Hmem : forall c, c ∈ shuffled <-> c ∈ l) by (intros c; now rewrite Hperm).
  split.
  { rewrite <- length_chars, chars_string_of_list, Hperm. exact Hllen. }
  assert (Hpools : forall c, c ∈ shuffled ->
            c ∈ enabled_pools include_lowercase include_uppercase include_digits
                  include_symbols).
  { intros c Hc. rewrite <- Hcs. rewrite Forall_forall in Hlin.
    apply Hlin. now apply Hmem. }
  repeat split.
  - intros Hi. destruct (Hlow Hi) as (c & Hc & Hp). exists c. split; [|exact Hp].
    apply Hmem. auto.
  - intros Hi. destruct (Hup Hi) as (c & Hc & Hp). exists c. split; [|exact Hp].
    apply Hmem. auto.
  - intros Hi. destruct (Hdig Hi) as (c & Hc & Hp). exists c. split; [|exact Hp].
    apply Hmem. auto.
  - intros Hi. destruct (Hsym Hi) as (c & Hc & Hp). exists c. split; [|exact Hp].
    apply Hmem. auto.
  - exact Hpools.
  - intros -> c Hc.
    apply symbols_apart. eapply enabled_pools_no_symbols. apply Hpools, Hc.
Qed.

(** A generator whose numbers run 0, 7, 14, ... *)
Definition sample_random : PyRandom := mkPyRandom (fun n => 7 * n) 0.

(** [generate_password(length=16, include_symbols=False)] *)
Lemma generate_password_16_no_symbols :
  (4 <= 16)%Z /\ true || true || true || false = true
  /\ exists password,
       fst (generate_password 16 true true true false sample_random) = Some password
       /\ Z.of_nat (String.length password) = 16%Z
       /\ (true = true -> exists c, c ∈ chars password /\ c ∈ chars lowercase)
       /\ (true = true -> exists c, c ∈ chars password /\ c ∈ chars uppercase)
       /\ (true = true -> exists c, c ∈ chars password /\ c ∈ chars digits)
       /\ (false = true -> exists c, c ∈ chars password /\ c ∈ chars symbols)
       /\ (forall c, c ∈ chars password -> c ∈ enabled_pools true true true false)
       /\ (false = false -> forall c, c ∈ chars password -> c ∉ chars symbols).
Proof.
  split; [lia|]. split; [reflexivity|].
  apply (generate_password_conforms 16 true true true false sample_random);
    [lia | reflexivity].
Defined.

(** The symbols are 26 characters, not 25. *)
Lemma symbols_are_not_25 :
  String.length symbols = 26 /\ String.length symbols <> 25.
Proof. split; [reflexivity | discriminate]. Qed.

End PasswordGeneratorFacts.

(** * src/utils/config.py: the saved remote profiles *)

Module ConfigManagerFacts.
Import DataModels ConfigManager.

(** A profile without its password. *)
Definition without_password (c : RemoteConfig) : RemoteConfig :=
  mkRemoteConfig (host c) (username c) "" (private_key_path c) (ssh_port c)
    (timeout c) (name c).

Lemma config_dict_without_password c :
  dict_set "password" (JStr "") (asdict c) = asdict (without_password c).
Proof. reflexivity. Qed.

Lemma config_dicts_without_password configs :
  config_dicts configs = map (fun c => JDict (asdict (without_password c))) configs.
Proof. reflexivity. Qed.

Section WithLib.
Context {L : PyLib}.

(** C9.  What [save_remote_configs] writes is a document with one entry
    for each profile, each with the empty string as its password; what it
    does to the file depends on the profiles without their passwords only,
    whether the writing works or not; and when the writing goes wrong it
    returns [False] and the file is as it was or holds a beginning of that
    document. *)
Theorem save_remote_configs_no_password (configs : list RemoteConfig)
    (remote_config_file : option string) :
  (exists content saved,
     save_remote_configs configs None remote_config_file = (true, Some content)
     /\ json_loads content = Some (JDict [("remote_servers", JList saved)])
     /\ length saved = length configs
     /\ Forall (fun entry => subscript entry "password" = Some (JStr "")) saved)
  /\ (forall configs' io_error,
        map without_password configs' = map without_password configs ->
        save_remote_configs configs' io_error remote_config_file
          = save_remote_configs configs io_error remote_config_file)
  /\ (forall io_error content,
        io_error <> None ->
        save_remote_configs configs None remote_config_file = (true, Some content) ->
        exists file,
          save_remote_configs configs io_error remote_config_file = (false, file)
          /\ (file = remote_config_file
              \/ exists n, file = Some (String.substring 0 n content))).
Proof.
  split; [|split].
  - eexists _, (config_dicts configs). split; [reflexivity|].
    split; [apply json_loads_dumps|].
    split; [unfold config_dicts; apply length_map|].
    unfold config_dicts. apply Forall_fmap, Forall_true.
    intros c. reflexivity.
  - intros configs' io_error Heq. unfold save_remote_configs.
    rewrite !config_dicts_without_password.
    rewrite <- !(map_map without_password (fun c => JDict (asdict c))).
    now rewrite Heq.
  - intros [[|n]|] content Herr [= <-]; [| |contradiction].
    + eexists. split; [reflexivity | now left].
    + eexists. split; [reflexivity | right; now exists n].
Qed.

End WithLib.

(** Two profiles, one with a password and one with a key. *)
Definition two_profiles : list RemoteConfig :=
  [mkRemoteConfig "10.0.0.5" "root" "s3cret" "" 22 10 "root@10.0.0.5";
   mkRemoteConfig "db.example.org" "admin" "" "/home/admin/.ssh/id_rsa" 2222 30 "db"].

Lemma save_remote_configs_two_profiles :
  exists content saved,
    save_remote_configs (L := SimpleLib.simple_lib) two_profiles None None
      = (true, Some content)
    /\ @json_loads SimpleLib.simple_lib content
       = Some (JDict [("remote_servers", JList saved)])
    /\ length saved = 2
    /\ Forall (fun entry => subscript entry "password" = Some (JStr "")) saved.
Proof.
  exact (proj1 (save_remote_configs_no_password (L := SimpleLib.simple_lib)
                  two_profiles None)).
Defined.

(** A writing that cannot open the file leaves it; one that breaks off
    after [open] has emptied the file leaves a beginning of the document,
    here none of it. *)
Example save_remote_configs_io_error :
  save_remote_configs (L := SimpleLib.simple_lib) two_profiles (Some Refused)
    (Some "kept") = (false, Some "kept")
  /\ save_remote_configs (L := SimpleLib.simple_lib) two_profiles (Some (Broken 0))
       (Some "kept") = (false, Some "").
Proof. vm_compute. split; reflexivity. Qed.

End ConfigManagerFacts.

(** * core/authentication.py: the lockout *)

Module AuthenticationFacts.
Import Repository Authentication.
#[local] Open Scope Z_scope.

Lemma int_total_seconds_bounds (microseconds : Z) :
  (0 <= microseconds <= seconds 300)%Z ->
  (0 <= int_total_seconds microseconds <= 300)%Z.
Proof.
  unfold int_total_seconds, seconds. intros H.
  rewrite Z.quot_div_nonneg by lia. split.
  - apply Z.div_pos; lia.
  - apply Z.div_le_upper_bound; lia.
Qed.

Lemma int_total_seconds_positive (microseconds : Z) :
  (seconds 1 <= microseconds)%Z -> (1 <= int_total_seconds microseconds)%Z.
Proof.
  unfold int_total_seconds, seconds. intros H.
  rewrite Z.quot_div_nonneg by lia.
  apply Z.div_le_lower_bound; lia.
Qed.

Lemma int_total_seconds_negative (microseconds : Z) :
  (microseconds <= 0)%Z -> (int_total_seconds microseconds <= 0)%Z.
Proof.
  unfold int_total_seconds. intros H.
  destruct (Z.eq_dec microseconds 0) as [->|Hne]; [reflexivity|].
  pose proof (Z.quot_opp_l microseconds 1000000 ltac:(lia)) as Ho.
  assert (0 <= Z.quot (- microseconds) 1000000)%Z
    by (rewrite Z.quot_div_nonneg by lia; apply Z.div_pos; lia).
  lia.
Qed.

(** The service while it is locked: the time the lock ends is set. *)
Definition locked_until (self : AuthenticationService) (t : datetime) : Prop :=
  _lockout_until self = Some t.

(** [is_locked_out] with a reading of the clock before the end of the
    lock: locked, and nothing changes. *)
Lemma is_locked_out_before self lockout_until w :
  locked_until self lockout_until ->
  (clock w (ticks w) < lockout_until)%Z ->
  is_locked_out self w = ((true, self), snd (read_clock w)).
Proof.
  intros Hl Hlt. unfold is_locked_out. rewrite Hl.
  unfold read_clock. cbn [fst snd].
  destruct (Z.leb_spec lockout_until (clock w (ticks w))); [lia | reflexivity].
Qed.

(** ... and with a reading at or after it: the lock and the count of
    failed attempts are cleared. *)
Lemma is_locked_out_after self lockout_until w :
  locked_until self lockout_until ->
  (lockout_until <= clock w (ticks w))%Z ->
  is_locked_out self w =
    ((false, mkAuth (repository self) (_is_authenticated self) (_login_time self)
               (_last_activity_time self) 0 None), snd (read_clock w)).
Proof.
  intros Hl Hle. unfold is_locked_out. rewrite Hl.
  unfold read_clock. cbn [fst snd].
  destruct (Z.leb_spec lockout_until (clock w (ticks w))); [reflexivity | lia].
Qed.

Section WithLib.
Context {L : PyLib}.

(** A call of [authenticate] with a password, on a service that is not
    locked, that does not succeed: one more failed attempt, and a lock of
    300 seconds from now when that makes three. *)
Lemma authenticate_failed self password w r self' w' :
  _lockout_until self = None ->
  password <> "" ->
  authenticate self password w = ((r, self'), w') ->
  success r = false ->
  _failed_attempts self' = (_failed_attempts self + 1)%Z
  /\ if (MAX_LOGIN_ATTEMPTS <=? _failed_attempts self + 1)%Z
     then r = mkAuthResult false true (Some 300%Z) None
          /\ _lockout_until self' = Some (clock w' (ticks w' - 1)%nat + seconds 300)
     else r = mkAuthResult false false None
                (Some (MAX_LOGIN_ATTEMPTS - (_failed_attempts self + 1))%Z)
          /\ _lockout_until self' = None.
Proof.
  intros Hnone Hpw. unfold authenticate, is_locked_out. rewrite Hnone.
  apply String.eqb_neq in Hpw. rewrite Hpw.
  destruct (load_database (repository self) password w) as [[ok repo] w1].
  destruct ok.
  - unfold read_clock. cbn. intros H; inversion H; subst. discriminate.
  - destruct (MAX_LOGIN_ATTEMPTS <=? _failed_attempts self + 1)%Z.
    + unfold read_clock. cbn. intros H _; inversion H; subst. cbn.
      rewrite Nat.sub_0_r. auto.
    + intros H _; inversion H; subst. cbn. auto.
Qed.

(** Three such calls in a row on a new service. *)
Lemma three_failures repo p1 p2 p3 w results self w' :
  p1 <> "" -> p2 <> "" -> p3 <> "" ->
  authenticate_all (AuthenticationService_new repo) [p1; p2; p3] w = ((results, self), w') ->
  Forall (fun r => success r = false) results ->
  _failed_attempts self = 3
  /\ _is_authenticated self = false
  /\ _lockout_until self = Some (clock w' (ticks w' - 1)%nat + seconds 300)
  /\ last results = Some (mkAuthResult false true (Some 300) None).
Proof.
  intros Hp1 Hp2 Hp3. cbn [authenticate_all].
  destruct (authenticate (AuthenticationService_new repo) p1 w) as [[r1 s1] w1] eqn:E1.
  destruct (authenticate s1 p2 w1) as [[r2 s2] w2] eqn:E2.
  destruct (authenticate s2 p3 w2) as [[r3 s3] w3] eqn:E3.
  intros H Hall. inversion H; subst. clear H.
  apply Forall_cons in Hall. destruct Hall as [Hr1 Hall].
  apply Forall_cons in Hall. destruct Hall as [Hr2 Hall].
  apply Forall_cons in Hall. destruct Hall as [Hr3 _].
  assert (Hl0 : _lockout_until (AuthenticationService_new repo) = None) by reflexivity.
  destruct (authenticate_failed _ _ _ _ _ _ Hl0 Hp1 E1 Hr1) as (Hf1 & _ & Hl1).
  cbn in Hf1.
  destruct (authenticate_failed _ _ _ _ _ _ Hl1 Hp2 E2 Hr2) as (Hf2 & H2).
  rewrite Hf1 in Hf2, H2. cbn in Hf2, H2. destruct H2 as (_ & Hl2).
  destruct (authenticate_failed _ _ _ _ _ _ Hl2 Hp3 E3 Hr3) as (Hf3 & H3).
  rewrite Hf2 in Hf3, H3. cbn in Hf3, H3. destruct H3 as (-> & Hl3).
  repeat split; auto.
  (* nothing in the three calls logs the user in *)
  clear - E1 E2 E3 Hr1 Hr2 Hr3 Hp1 Hp2 Hp3 Hl0 Hl1 Hl2.
  assert (Hstep : forall s p w0 r s' w0',
             _lockout_until s = None -> p <> "" ->
             authenticate s p w0 = ((r, s'), w0') -> success r = false ->
             _is_authenticated s' = _is_authenticated s).
  { intros s p w0 r s' w0' Hn Hp. unfold authenticate, is_locked_out. rewrite Hn.
    apply String.eqb_neq in Hp. rewrite Hp.
    destruct (load_database (repository s) p w0) as [[ok repo'] w0''].
    destruct ok.
    - unfold read_clock. cbn. intros H; inversion H; subst. discriminate.
    - destruct (MAX_LOGIN_ATTEMPTS <=? _failed_attempts s + 1);
        unfold read_clock; cbn; intros H _; inversion H; subst; reflexivity. }
  rewrite (Hstep _ _ _ _ _ _ Hl2 Hp3 E3 Hr3), (Hstep _ _ _ _ _ _ Hl1 Hp2 E2 Hr2),
    (Hstep _ _ _ _ _ _ Hl0 Hp1 E1 Hr1).
  reflexivity.
Qed.

(** While the service is locked, [get_lockout_remaining_time] gives the
    whole seconds left at its second reading of the clock, and 0 when that
    reading is past the end. *)
Lemma remaining_time_while_locked self lockout_until w :
  locked_until self lockout_until ->
  clock w (ticks w) < lockout_until ->
  get_lockout_remaining_time self w =
    ((Some (Z.max 0 (int_total_seconds (lockout_until - clock w (S (ticks w))))), self),
     snd (read_clock (snd (read_clock w)))).
Proof.
  intros Hl Hlt. unfold get_lockout_remaining_time.
  rewrite (is_locked_out_before _ _ _ Hl Hlt). cbn.
  rewrite Hl. reflexivity.
Qed.

(** While the service is locked, [authenticate] turns every password down
    without a look at the vault, and the count of failed attempts does not
    grow: it stays, or is cleared together with the lock when the lock runs
    out between the first two readings of the clock. *)
Lemma authenticate_while_locked self lockout_until password w :
  locked_until self lockout_until ->
  clock w (ticks w) < lockout_until ->
  exists r self' w',
    authenticate self password w = ((r, self'), w')
    /\ success r = false /\ locked_out r = true /\ remaining_attempts r = None
    /\ repository self' = repository self
    /\ _is_authenticated self' = _is_authenticated self
    /\ files w' = files w
    /\ if (lockout_until <=? clock w (S (ticks w)))
       then remaining_time r = None
            /\ _failed_attempts self' = 0 /\ _lockout_until self' = None
       else remaining_time r =
              Some (Z.max 0 (int_total_seconds
                               (lockout_until - clock w (S (S (ticks w))))))
            /\ self' = self.
Proof.
  intros Hl Hlt. unfold authenticate.
  rewrite (is_locked_out_before _ _ _ Hl Hlt).
  destruct (Z.leb_spec lockout_until (clock w (S (ticks w)))) as [Hle|Hlt'].
  - unfold get_lockout_remaining_time.
    rewrite (is_locked_out_after _ lockout_until) by (auto; exact Hle).
    cbn. eexists _, _, _. split; [reflexivity|]. cbn. auto 10.
  - rewrite (remaining_time_while_locked _ lockout_until) by (auto; exact Hlt').
    eexists _, _, _. split; [reflexivity|]. cbn. auto 10.
Qed.

(** C5.  Three calls of [authenticate] in a row with passwords that are
    not empty, none of which succeeds, leave a new service locked for 300
    seconds from the third failure.  At every later moment before the end
    of the lock (the clock going forwards), [get_lockout_remaining_time]
    is between 0 and 300, and at least 1 as long as a whole second is left;
    [authenticate] with any password is turned down as locked out, the
    vault is not touched, the service stays logged out and the count of
    failed attempts stays at three or is cleared, never incremented. *)
Theorem lockout_after_three_failures (repo : DataRepository) (p1 p2 p3 : string)
    (w : World) (results : list AuthResult) (self : AuthenticationService) (w' : World) :
  p1 <> "" -> p2 <> "" -> p3 <> "" ->
  authenticate_all (AuthenticationService_new repo) [p1; p2; p3] w = ((results, self), w') ->
  Forall (fun r => success r = false) results ->
  let locked_at := clock w' (ticks w' - 1)%nat in
  _failed_attempts self = 3
  /\ _lockout_until self = Some (locked_at + seconds 300)
  /\ last results = Some (mkAuthResult false true (Some 300) None)
  /\ forall later : World,
       let t1 := clock later (ticks later) in
       let t2 := clock later (S (ticks later)) in
       let t3 := clock later (S (S (ticks later))) in
       locked_at <= t1 < locked_at + seconds 300 -> t1 <= t2 <= t3 ->
       (exists n w2,
          get_lockout_remaining_time self later = ((Some n, self), w2)
          /\ 0 <= n <= 300
          /\ (seconds 1 <= locked_at + seconds 300 - t2 -> 1 <= n))
       /\ forall password, exists r self' w2,
            authenticate self password later = ((r, self'), w2)
            /\ success r = false /\ locked_out r = true
            /\ repository self' = repository self
            /\ _is_authenticated self' = false
            /\ (_failed_attempts self' = 3 \/ _failed_attempts self' = 0)
            /\ (t2 < locked_at + seconds 300 -> self' = self)
            /\ match remaining_time r with
               | Some n => 0 <= n <= 300
               | None => locked_at + seconds 300 <= t2
               end.
Proof.
  intros Hp1 Hp2 Hp3 Hrun Hall locked_at.
  destruct (three_failures _ _ _ _ _ _ _ _ Hp1 Hp2 Hp3 Hrun Hall)
    as (Hf & Hauth & Hlock & Hlast).
  fold locked_at in Hlock.
  split; [exact Hf|]. split; [exact Hlock|]. split; [exact Hlast|].
  intros later t1 t2 t3 Hwin Hmono. split.
  - exists (Z.max 0 (int_total_seconds (locked_at + seconds 300 - t2))), 
      (snd (read_clock (snd (read_clock later)))).
    split; [apply remaining_time_while_locked; [exact Hlock | lia]|].
    destruct (Z.le_gt_cases t2 (locked_at + seconds 300)) as [Hin|Hout].
    + pose proof (int_total_seconds_bounds (locked_at + seconds 300 - t2)
                    ltac:(unfold seconds in *; lia)).
      split; [lia|]. intros H1.
      pose proof (int_total_seconds_positive _ H1). lia.
    + pose proof (int_total_seconds_negative (locked_at + seconds 300 - t2) ltac:(lia)).
      split; [lia|]. unfold seconds in *. lia.
  - intros password.
    destruct (authenticate_while_locked self (locked_at + seconds 300) password later
                Hlock ltac:(lia))
      as (r & self' & w2 & Hr & Hs & Hlo & _ & Hrepo & Hia & _ & Hcase).
    exists r, self', w2. repeat split; auto; [congruence| | |].
    + fold t2 in Hcase.
      destruct (locked_at + seconds 300 <=? t2); [right; tauto|].
      left. destruct Hcase as [_ ->]. exact Hf.
    + intros Hstill. fold t2 in Hcase.
      destruct (Z.leb_spec (locked_at + seconds 300) t2); [lia | tauto].
    + fold t2 t3 in Hcase.
      destruct (Z.leb_spec (locked_at + seconds 300) t2) as [Hle|Hlt].
      * destruct Hcase as (-> & _). exact Hle.
      * destruct Hcase as (-> & _).
        destruct (Z.le_gt_cases t3 (locked_at + seconds 300)) as [Hin|Hout].
        -- pose proof (int_total_seconds_bounds (locked_at + seconds 300 - t3)
                         ltac:(unfold seconds in *; lia)). lia.
        -- pose proof (int_total_seconds_negative (locked_at + seconds 300 - t3)
                         ltac:(lia)). lia.
Qed.

End WithLib.

(** A new service over a directory without a vault file, where no password
    can succeed, and a clock that ticks once a second. *)
Definition three_wrong_passwords :
    (list AuthResult * AuthenticationService) * World :=
  authenticate_all (L := SimpleLib.simple_lib)
    (AuthenticationService_new DataRepository_new) ["a"; "b"; "c"]
    ModelsFacts.sample_world.

Lemma lockout_after_three_failures_sample :
  _failed_attempts (snd (fst three_wrong_passwords)) = 3
  /\ _lockout_until (snd (fst three_wrong_passwords)) = Some (seconds 300)
  /\ last (fst (fst three_wrong_passwords))
     = Some (mkAuthResult false true (Some 300) None).
Proof.
  assert (Hrun : authenticate_all (L := SimpleLib.simple_lib)
                   (AuthenticationService_new DataRepository_new) ["a"; "b"; "c"]
                   ModelsFacts.sample_world
                 = ((fst (fst three_wrong_passwords), snd (fst three_wrong_passwords)),
                    snd three_wrong_passwords)) by reflexivity.
  assert (Hall : Forall (fun r => success r = false) (fst (fst three_wrong_passwords)))
    by (vm_compute; repeat constructor).
  destruct (lockout_after_three_failures (L := SimpleLib.simple_lib)
              DataRepository_new "a" "b" "c" ModelsFacts.sample_world _ _ _
              ltac:(discriminate) ltac:(discriminate) ltac:(discriminate) Hrun Hall)
    as (Hf & Hl & Hlast & _).
  split; [exact Hf|]. split; [exact Hl | exact Hlast].
Defined.

(** A clock that is read at 0 s, then at 299.5 s and at 299.6 s. *)
Definition last_second_world : World :=
  mkWorld CryptoFacts.sample_entropy
    (fun n => match n with
              | O => 0
              | S n' => 299500000 + 100000 * Z.of_nat n'
              end)
    0 (fun n => "") 0 (fun _ => None) (fun _ => None) 0.

(** Three calls without a password fail and do not lock the service; and
    in the last second of a lock the service is locked with a remaining
    time of 0. *)
Lemma lockout_not_positive_or_absent :
  (let '((results, self), w) :=
     authenticate_all (L := SimpleLib.simple_lib)
       (AuthenticationService_new DataRepository_new) [""; ""; ""]
       ModelsFacts.sample_world in
   Forall (fun r => success r = false) results
   /\ length results = 3%nat
   /\ _failed_attempts self = 0
   /\ fst (fst (is_locked_out self w)) = false
   /\ fst (fst (get_lockout_remaining_time self w)) = None)
  /\ (let '((results, self), w) :=
        authenticate_all (L := SimpleLib.simple_lib)
          (AuthenticationService_new DataRepository_new) ["a"; "b"; "c"]
          last_second_world in
      Forall (fun r => success r = false) results
      /\ _lockout_until self = Some (seconds 300)
      /\ fst (fst (is_locked_out self w)) = true
      /\ fst (fst (get_lockout_remaining_time self w)) = Some 0).
Proof.
  split; vm_compute; repeat split; repeat constructor.
Qed.

End AuthenticationFacts.

(** * data/repository.py: the vault file and the master password *)

Module RepositoryFacts.
Import Crypto Models Repository.

(** Running an action that raises nothing and leaves the files alone. *)
Definition returns {A} (m : Py A) (a : A) : Prop :=
  forall w, exists w', m w = (Some a, w') /\ files w' = files w.

Lemma returns_ret {A} (a : A) : returns (mret a) a.
Proof. intros w. exists w. split; reflexivity. Qed.

Lemma returns_of_option {A} (a : A) : returns (of_option (Some a)) a.
Proof. intros w. exists w. split; reflexivity. Qed.

Lemma returns_bind {A B} (m : Py A) (f : A -> Py B) a b :
  returns m a -> returns (f a) b -> returns (m ≫= f) b.
Proof.
  intros Hm Hf w. destruct (Hm w) as (w1 & E1 & F1).
  destruct (Hf w1) as (w2 & E2 & F2).
  exists w2. unfold mbind, Py_bind. rewrite E1, E2. split; [reflexivity | congruence].
Qed.


(** ... whatever it returns. *)
Definition succeeds {A} (m : Py A) : Prop :=
  forall w, exists a w', m w = (Some a, w') /\ files w' = files w.

Lemma succeeds_now : succeeds now.
Proof. intros w. eexists _, _. split; reflexivity. Qed.

Lemma returns_bind_any {A B} (m : Py A) (f : A -> Py B) b :
  succeeds m -> (forall a, returns (f a) b) -> returns (m ≫= f) b.
Proof.
  intros Hm Hf w. destruct (Hm w) as (a & w1 & E1 & F1).
  destruct (Hf a w1) as (w2 & E2 & F2).
  exists w2. unfold mbind, Py_bind. rewrite E1, E2. split; [reflexivity | congruence].
Qed.

Ltac returns_step :=
  first [ apply returns_ret
        | apply returns_of_option
        | eapply returns_bind; [apply returns_of_option|]
        | eapply returns_bind; [apply returns_ret|]
        | eapply returns_bind_any; [apply succeeds_now | intros ?] ].

Section WithLib.
Context {L : PyLib}.

(** *** Reading back what [to_dict] wrote *)

Lemma PasswordEntry_from_to_dict e :
  returns (PasswordEntry_from_dict (PasswordEntry_to_dict e)) e.
Proof.
  destruct e. unfold PasswordEntry_from_dict, PasswordEntry_to_dict, PasswordEntry_new.
  unfold optional, required, defaulted. cbn [dict_get String.eqb Ascii.eqb Bool.eqb].
  cbn.
  rewrite !fromisoformat_isoformat. cbn.
  repeat returns_step.
Qed.

Lemma MasterConfig_from_to_dict c :
  returns (MasterConfig_from_dict (MasterConfig_to_dict c)) c.
Proof.
  destruct c. unfold MasterConfig_from_dict, MasterConfig_to_dict, MasterConfig_new.
  unfold optional, required, defaulted. cbn.
  rewrite !fromisoformat_isoformat. cbn.
  repeat returns_step.
Qed.

Lemma AppSettings_from_to_dict a :
  returns (AppSettings_from_dict (AppSettings_to_dict a)) a.
Proof.
  destruct a. unfold AppSettings_from_dict, AppSettings_to_dict, AppSettings_new.
  unfold optional, required, defaulted. cbn.
  rewrite !fromisoformat_isoformat. cbn.
  repeat returns_step.
Qed.

Lemma entries_from_to_dict l :
  returns (entries_from_dict (map PasswordEntry_to_dict l)) l.
Proof.
  induction l as [|e l IH]; simpl; [apply returns_ret|].
  eapply returns_bind; [apply PasswordEntry_from_to_dict|].
  eapply returns_bind; [apply IH|]. apply returns_ret.
Qed.

Lemma truthy_MasterConfig_to_dict c : truthy (MasterConfig_to_dict c) = true.
Proof. reflexivity. Qed.

Lemma DataStore_new_empty :
  forall w, exists store w',
    DataStore_new w = (Some store, w') /\ files w' = files w
    /\ master_config store = None.
Proof. intros w. eexists _, _. repeat split. Qed.

Lemma returns_if_present {A} d k x (f : json -> Py A) dflt a :
  dict_get k d = Some x -> returns (f x) a ->
  returns (if_present (JDict d) k f dflt) a.
Proof.
  intros Hget Hf. unfold if_present. cbn [contains subscript]. rewrite Hget.
  eapply returns_bind; [apply returns_of_option|].
  rewrite bool_decide_eq_true_2 by eauto.
  eapply returns_bind; [apply returns_of_option | exact Hf].
Qed.

(** [DataStore.from_dict(store.to_dict())] is [store] again. *)
Lemma DataStore_from_to_dict store :
  returns (DataStore_from_dict (DataStore_to_dict store)) store.
Proof.
  destruct store as [l mc a v]. intros w.
  unfold DataStore_from_dict, mbind at 1, Py_bind at 1.
  destruct (DataStore_new_empty w) as (store0 & w0 & E0 & F0 & Hmc0).
  rewrite E0. rewrite <- F0. generalize w0. clear w w0 E0 F0.
  change (returns
    (version ← if_present (DataStore_to_dict (mkDataStore l mc a v)) "version"
                 (fun x => of_option (as_str x)) (version store0);
     entries ← if_present (DataStore_to_dict (mkDataStore l mc a v)) "entries"
                 (fun x => match x with
                           | JList l => entries_from_dict l
                           | JDict [] | JStr EmptyString => mret []
                           | _ => raise
                           end) (entries store0);
     master_config ← if_present (DataStore_to_dict (mkDataStore l mc a v)) "master_config"
                       (fun x => if truthy x
                                 then c ← MasterConfig_from_dict x; mret (Some c)
                                 else mret (master_config store0))
                       (master_config store0);
     app_settings ← if_present (DataStore_to_dict (mkDataStore l mc a v)) "app_settings"
                      AppSettings_from_dict (app_settings store0);
     mret (mkDataStore entries master_config app_settings version))
    (mkDataStore l mc a v)).
  unfold DataStore_to_dict. cbn [entries master_config app_settings version].
  eapply returns_bind;
    [eapply returns_if_present; [reflexivity | apply returns_of_option]|].
  eapply returns_bind;
    [eapply returns_if_present; [reflexivity | apply entries_from_to_dict]|].
  eapply returns_bind with (a := mc).
  { eapply returns_if_present; [reflexivity|].
    destruct mc as [c|].
    - rewrite truthy_MasterConfig_to_dict.
      eapply returns_bind; [apply MasterConfig_from_to_dict | apply returns_ret].
    - cbn [truthy]. rewrite Hmc0. apply returns_ret. }
  eapply returns_bind;
    [eapply returns_if_present; [reflexivity | apply AppSettings_from_to_dict]|].
  apply returns_ret.
Qed.

(** *** Saving and loading *)

(** The disk of a world: its files, and the faults to come. *)
Definition same_disk (w w' : World) : Prop :=
  files w' = files w /\ faults w' = faults w /\ writes w' = writes w.

(** [encrypt] in the environment: a bundle that decrypts to the text, and
    the disk as it was. *)
Lemma encrypt_decrypts data password w :
  exists encrypted_info w',
    encrypt data password w = (Some encrypted_info, w')
    /\ same_disk w w'
    /\ decrypt_data encrypted_info password = Some data.
Proof.
  destruct (CryptoFacts.encrypt_data_bundle data password None (entropy w))
    as (c & salt & iv & Henc & Hiv & _ & Hc).
  unfold encrypt, with_entropy, mbind, Py_bind.
  destruct (encrypt_data data password None (entropy w)) as [r e] eqn:E.
  simpl in Henc. subst r.
  eexists _, _. split; [reflexivity|]. split; [repeat split|].
  now apply CryptoFacts.decrypt_data_bundle.
Qed.

(** What the vault file holds after a save: a bundle that decrypts, under
    the password the repository holds, to the store it holds. *)
Definition vault_holds (w : World) (store : DataStore) (password : string) : Prop :=
  exists encrypted_info,
    files w DataFile = Some (json_dumps false (Some 2) encrypted_info)
    /\ decrypt_data encrypted_info password
       = Some (json_dumps false (Some 2) (DataStore_to_dict store)).

(** No operation that writes goes wrong from now on. *)
Definition untroubled (w : World) : Prop :=
  forall i, writes w <= i -> faults w i = None.

Lemma untroubled_same_disk w w' : same_disk w w' -> untroubled w -> untroubled w'.
Proof. intros (_ & Hf & Hw) H i Hi. rewrite Hf. apply H. lia. Qed.

(** [_save_to_file]: it returns [True] when no operation goes wrong, and
    then the vault file holds the store; in every other case it returns
    [False] and the vault file is as it was, whatever became of the
    temporary file and of the backup. *)
Lemma save_to_file_spec store password w :
  exists ok w',
    _save_to_file (mkDataRepository (Some store) (Some password)) w = (ok, w')
    /\ faults w' = faults w /\ writes w <= writes w'
    /\ (untroubled w -> ok = true)
    /\ (if ok then vault_holds w' store password
        else files w' DataFile = files w DataFile).
Proof.
  unfold _save_to_file, try_except, save_body.
  cbn [_data_store _master_password].
  unfold mbind at 1, Py_bind at 1. cbn [of_option].
  unfold mbind at 1, Py_bind at 1. cbn [of_option].
  unfold mbind at 1, Py_bind at 1.
  destruct (encrypt_decrypts (json_dumps false (Some 2) (DataStore_to_dict store))
              password w) as (info & w1 & Henc & (Hfiles & Hfaults & Hwrites) & Hdec).
  rewrite Henc.
  assert (U : untroubled w -> untroubled w1).
  { apply untroubled_same_disk. repeat split; assumption. }
  cbv [mbind Py_bind now read_clock write_file path_exists copy_file move_file
       read_file mret Py_ret written put].
  cbn [files ticks clock entropy uuids issued faults writes path_eqb].
  destruct (faults w1 (writes w1)) as [[|n]|] eqn:F0.
  1,2: eexists false, _; split; [reflexivity|];
       cbn [files faults writes path_eqb];
       split; [assumption|]; split; [lia|];
       split; [intros Hu; rewrite (U Hu) in F0 by lia; discriminate F0
              | now rewrite Hfiles].
  destruct (files w1 DataFile) as [old|] eqn:Hold.
  - rewrite bool_decide_eq_true_2 by eauto.
    cbn [files ticks clock entropy uuids issued faults writes path_eqb]. rewrite Hold.
    cbn [files ticks clock entropy uuids issued faults writes path_eqb].
    destruct (faults w1 (S (writes w1))) as [[|n]|] eqn:F1.
    1,2: eexists false, _; split; [reflexivity|];
         cbn [files faults writes path_eqb];
         split; [assumption|]; split; [lia|];
         split; [intros Hu; rewrite (U Hu) in F1 by lia; discriminate F1
                | now rewrite Hold, <- Hfiles].
    cbn [files ticks clock entropy uuids issued faults writes path_eqb].
    rewrite String.eqb_refl.
    destruct (faults w1 (S (S (writes w1)))) as [f|] eqn:F2.
    + eexists false, _. split; [reflexivity|].
      cbn [files faults writes path_eqb].
      split; [assumption|]. split; [lia|].
      split; [intros Hu; rewrite (U Hu) in F2 by lia; discriminate F2
             | now rewrite Hold, <- Hfiles].
    + eexists true, _. split; [reflexivity|].
      cbn [files faults writes path_eqb].
      split; [assumption|]. split; [lia|]. split; [reflexivity|].
      exists info. cbn [files path_eqb]. split; [reflexivity | exact Hdec].
  - cbn [files ticks clock entropy uuids issued faults writes path_eqb].
    rewrite Hold.
    rewrite bool_decide_eq_false_2 by (intros [? ?]; discriminate).
    cbn [files ticks clock entropy uuids issued faults writes path_eqb].
    rewrite String.eqb_refl.
    destruct (faults w1 (S (writes w1))) as [f|] eqn:F1.
    + eexists false, _. split; [reflexivity|].
      cbn [files faults writes path_eqb].
      split; [assumption|]. split; [lia|].
      split; [intros Hu; rewrite (U Hu) in F1 by lia; discriminate F1
             | now rewrite Hold, <- Hfiles].
    + eexists true, _. split; [reflexivity|].
      cbn [files faults writes path_eqb].
      split; [assumption|]. split; [lia|]. split; [reflexivity|].
      exists info. cbn [files path_eqb]. split; [reflexivity | exact Hdec].
Qed.

(** The stored hash of a password verifies that password. *)
Lemma verify_hash_password password salt e :
  let hash_info := fst (hash_password password salt e) in
  verify_password password (fst hash_info) (snd hash_info) = true.
Proof.
  unfold hash_password.
  destruct (match salt with None => generate_salt e | Some s => (s, e) end) as [s e'].
  cbn [fst snd]. unfold verify_password. rewrite b64decode_b64encode.
  apply String.eqb_refl.
Qed.

(** Loading a vault file that holds a store whose stored hash verifies
    the password succeeds and gives that store. *)
Lemma load_database_holds repo store password c w :
  vault_holds w store password ->
  master_config store = Some c ->
  verify_password password (password_hash c) (salt c) = true ->
  exists w', load_database repo password w
             = ((true, mkDataRepository (Some store) (Some password)), w')
             /\ files w' = files w.
Proof.
  intros (info & Hfile & Hdec) Hmc Hver.
  unfold load_database. rewrite Hfile.
  unfold mbind at 1, Py_bind at 1. cbn [of_option].
  rewrite json_loads_dumps.
  unfold mbind at 1, Py_bind at 1, mret at 1, Py_ret at 1.
  rewrite Hdec.
  unfold mbind at 1, Py_bind at 1. cbn [of_option].
  rewrite json_loads_dumps.
  unfold mbind at 1, Py_bind at 1.
  destruct (DataStore_from_to_dict store w) as (w' & E & F).
  rewrite E. cbn. rewrite Hmc, Hver.
  exists w'. split; [reflexivity | exact F].
Qed.

(** *** Changing the master password *)

Lemma decrypt_password_loaded store password e :
  decrypt_password (mkDataRepository (Some store) (Some password)) e
  = (encrypted_info ← json_loads (encrypted_password e);
     decrypt_data encrypted_info password).
Proof.
  unfold decrypt_password, is_loaded. cbn [_data_store _master_password].
  rewrite !bool_decide_eq_true_2 by eauto. cbn [andb].
  destruct (json_loads (encrypted_password e)); reflexivity.
Qed.

(** An entry after the rotation: the same entry but for its encrypted
    password and its modification time, with the same password behind
    it. *)
Definition rotated (old_password new_password : string) (e e' : PasswordEntry) : Prop :=
  platform e' = platform e /\ username e' = username e /\ notes e' = notes e
  /\ id e' = id e /\ created_at e' = created_at e /\ expires_at e' = expires_at e
  /\ exists p,
       (encrypted_info ← json_loads (encrypted_password e);
        decrypt_data encrypted_info old_password) = Some p
       /\ (encrypted_info ← json_loads (encrypted_password e');
           decrypt_data encrypted_info new_password) = Some p.

Lemma reencrypt_spec old_password new_password l w ok l' w' :
  reencrypt old_password new_password l w = ((ok, l'), w') ->
  files w' = files w
  /\ (ok = true -> Forall2 (rotated old_password new_password) l l').
Proof.
  revert w ok l' w'; induction l as [|e l IH]; intros w ok l' w' H.
  - cbn in H. inversion H; subst. split; [reflexivity | constructor].
  - cbn [reencrypt] in H.
    unfold mbind at 1, Py_bind at 1 in H. cbn [of_option] in H.
    destruct (json_loads (encrypted_password e)) as [info|] eqn:Einfo;
      [|inversion H; subst; split; [reflexivity | discriminate]].
    unfold mbind at 1, Py_bind at 1 in H. cbn [of_option] in H.
    destruct (decrypt_data info old_password) as [p|] eqn:Edec;
      [|inversion H; subst; split; [reflexivity | discriminate]].
    unfold mbind at 1, Py_bind at 1 in H.
    destruct (encrypt_decrypts p new_password w) as (info' & w1 & Henc & (Hf1 & _) & Hdec').
    rewrite Henc in H.
    cbv [mbind Py_bind now read_clock mret Py_ret] in H.
    destruct (reencrypt old_password new_password l _) as [[ok0 rest'] w2] eqn:Erest in H.
    inversion H; subst. clear H.
    destruct (IH _ _ _ _ Erest) as (Hf2 & Hall).
    split; [rewrite Hf2; cbn [files]; exact Hf1|].
    intros Hok. constructor; [|now apply Hall].
    unfold rotated, update_timestamp, set_encrypted_password.
    cbn [platform username notes id created_at expires_at encrypted_password].
    repeat split; try reflexivity.
    exists p. rewrite Einfo, json_loads_dumps. cbn. auto.
Qed.

(** Every entry that was rotated decrypted under the old password. *)
Lemma rotated_decrypts store old_password new_password l l' :
  Forall2 (rotated old_password new_password) l l' ->
  Exists (fun e => decrypt_password
                     (mkDataRepository (Some store) (Some old_password)) e = None) l ->
  False.
Proof.
  intros Hrot Hex. apply Exists_exists in Hex. destruct Hex as (e & Hin & Hnone).
  apply list_elem_of_lookup in Hin. destruct Hin as [i Hi].
  destruct (Forall2_lookup_l _ _ _ _ _ Hrot Hi) as (e' & _ & Hr).
  destruct Hr as (_ & _ & _ & _ & _ & _ & p & Hp & _).
  rewrite decrypt_password_loaded in Hnone. congruence.
Qed.

Lemma vault_holds_files w w' store password :
  files w' = files w -> vault_holds w store password -> vault_holds w' store password.
Proof. intros Hf (info & Hfile & Hdec). exists info. rewrite Hf. auto. Qed.

(** Loading fails when the bundle in the vault file gives, under the
    password, nothing or a text that is no JSON. *)
Lemma load_database_unreadable repo password w content encrypted_info :
  files w DataFile = Some content ->
  json_loads content = Some encrypted_info ->
  (forall text, decrypt_data encrypted_info password = Some text ->
                json_loads text = None) ->
  load_database repo password w = ((false, repo), w).
Proof.
  intros Hfile Hloads Hdec. unfold load_database. rewrite Hfile.
  unfold mbind at 1, Py_bind at 1. cbn [of_option]. rewrite Hloads.
  unfold mbind at 1, Py_bind at 1, mret at 1, Py_ret at 1.
  destruct (decrypt_data encrypted_info password) as [text|]; [|reflexivity].
  unfold mbind at 1, Py_bind at 1. cbn [of_option].
  rewrite (Hdec text eq_refl). reflexivity.
Qed.

(** C3.  When [change_master_password(old, new)] succeeds on a repository
    that holds a store and the password [old]: the repository holds [new];
    every entry is the entry it was, but for its encrypted password and its
    modification time, and [decrypt_password] gives for it the password it
    gave before; loading the vault file with [new] succeeds and gives the
    same store; loading it with [old] succeeds too when [new] is [old], and
    fails when the saved bundle gives, under [old], nothing or a text that
    is no JSON.  When some entry does not decrypt under [old],
    [change_master_password] returns [False]. *)
Theorem change_master_password_rotation (store : DataStore) (old_password new_password : string)
    (w : World) :
  let self := mkDataRepository (Some store) (Some old_password) in
  let result := change_master_password self old_password new_password w in
  let self' := snd (fst result) in
  let w' := snd result in
  (fst (fst result) = true ->
     (exists store',
        self' = mkDataRepository (Some store') (Some new_password)
        /\ Forall2 (fun e e' =>
                      id e' = id e /\ platform e' = platform e
                      /\ username e' = username e /\ notes e' = notes e
                      /\ is_Some (decrypt_password self e)
                      /\ decrypt_password self' e' = decrypt_password self e)
             (entries store) (entries store'))
     /\ (forall repo later, files later = files w' ->
           exists later', load_database repo new_password later = ((true, self'), later'))
     /\ (forall repo later, files later = files w' -> new_password = old_password ->
           fst (fst (load_database repo old_password later)) = true)
     /\ (exists encrypted_info,
           files w' DataFile = Some (json_dumps false (Some 2) encrypted_info)
           /\ forall repo later,
                files later = files w' ->
                (forall text, decrypt_data encrypted_info old_password = Some text ->
                              json_loads text = None) ->
                fst (fst (load_database repo old_password later)) = false))
  /\ (Exists (fun e => decrypt_password self e = None) (entries store) ->
      fst (fst result) = false).
Proof.
  cbv zeta. unfold change_master_password. cbn [_data_store _master_password].
  rewrite String.eqb_refl. cbn [negb].
  destruct (reencrypt old_password new_password (entries store) w)
    as [[ok l] w1] eqn:Ere.
  destruct (reencrypt_spec _ _ _ _ _ _ _ Ere) as (Hf1 & Hrot).
  destruct ok; cbn [negb]; cycle 1.
  { split; [discriminate | reflexivity]. }
  specialize (Hrot eq_refl).
  cbv [mbind Py_bind with_entropy of_option].
  destruct (hash_password new_password None (entropy w1)) as [hash_info e2] eqn:Ehash.
  cbn [set_entries master_config app_settings version].
  destruct (master_config store) as [c|] eqn:Emc; cycle 1.
  { split; [discriminate|]. intros Hex.
    exfalso. exact (rotated_decrypts _ _ _ _ _ Hrot Hex). }
  cbv [now read_clock mret Py_ret].
  cbn [entropy clock ticks uuids issued files faults writes].
  set (store' := mkDataStore l (Some _) (app_settings store) (version store)).
  set (w2 := mkWorld e2 _ _ _ _ _ _ _).
  unfold save_database. cbn [_data_store _master_password].
  destruct (save_to_file_spec store' new_password w2)
    as (saved & w3 & Esave & _ & _ & _ & Hholds).
  rewrite Esave. cbn [fst snd].
  assert (Hentries : Forall2 (fun e e' =>
                        id e' = id e /\ platform e' = platform e
                        /\ username e' = username e /\ notes e' = notes e
                        /\ is_Some (decrypt_password
                                      (mkDataRepository (Some store) (Some old_password)) e)
                        /\ decrypt_password
                             (mkDataRepository (Some store') (Some new_password)) e'
                           = decrypt_password
                               (mkDataRepository (Some store) (Some old_password)) e)
                       (entries store) l).
  { eapply Forall2_impl; [exact Hrot|].
    intros e e' (Hpl & Hu & Hn & Hid & _ & _ & p & Hp & Hp').
    rewrite !decrypt_password_loaded, Hp, Hp'. eauto 10. }
  assert (Hverify : verify_password new_password hash_info.1 hash_info.2 = true).
  { pose proof (verify_hash_password new_password None (entropy w1)) as Hv.
    rewrite Ehash in Hv. exact Hv. }
  split.
  - intros ->. split; [exists store'; split; [reflexivity | exact Hentries]|].
    split; [|split].
    + intros repo later Hfiles.
      destruct (load_database_holds repo store' new_password _ later
                  (vault_holds_files _ _ _ _ Hfiles Hholds) eq_refl Hverify)
        as (later' & Eload & _).
      exists later'. exact Eload.
    + intros repo later Hfiles ->.
      destruct (load_database_holds repo store' old_password _ later
                  (vault_holds_files _ _ _ _ Hfiles Hholds) eq_refl Hverify)
        as (later' & Eload & _).
      rewrite Eload. reflexivity.
    + destruct Hholds as (info & Hcontent & _). exists info.
      split; [exact Hcontent|].
      intros repo later Hfiles Hdec.
      rewrite (load_database_unreadable repo old_password later
                 (json_dumps false (Some 2) info) info);
        [reflexivity | rewrite Hfiles; exact Hcontent | apply json_loads_dumps
        | exact Hdec].
  - intros Hex. exfalso. exact (rotated_decrypts _ _ _ _ _ Hrot Hex).
Qed.

End WithLib.

(** A vault made with the master password ["old"], holding the password
    ["hunter2"] for one account, on the small implementation of the
    library. *)
Definition sample_vault : DataRepository * World :=
  let '((_, repo), w) :=
    initialize_new_database (L := SimpleLib.simple_lib) DataRepository_new "old"
      ModelsFacts.sample_world in
  let '((_, repo), w) :=
    add_password_entry (L := SimpleLib.simple_lib) repo "GitHub" "a@b.com" "hunter2" "" w in
  (repo, w).

Definition sample_store : DataStore :=
  default (mkDataStore [] None (mkAppSettings "" 0 0 0 0 0 false false 0%Z) "")
    (_data_store (fst sample_vault)).

Lemma change_master_password_rotation_sample :
  let self := mkDataRepository (Some sample_store) (Some "old") in
  let result := change_master_password (L := SimpleLib.simple_lib) self "old" "new"
                  (snd sample_vault) in
  fst sample_vault = self
  /\ fst (fst result) = true
  /\ (decrypt_password (L := SimpleLib.simple_lib) self <$> entries sample_store)
     = [Some "hunter2"]
  /\ (exists later',
        load_database (L := SimpleLib.simple_lib) DataRepository_new "new" (snd result)
        = ((true, snd (fst result)), later'))
  /\ fst (fst (load_database (L := SimpleLib.simple_lib) DataRepository_new "old"
                 (snd result))) = false
  /\ exists store',
       snd (fst result) = mkDataRepository (Some store') (Some "new")
       /\ Forall2 (fun e e' =>
                     id e' = id e /\ platform e' = platform e
                     /\ username e' = username e /\ notes e' = notes e
                     /\ is_Some (decrypt_password (L := SimpleLib.simple_lib) self e)
                     /\ decrypt_password (L := SimpleLib.simple_lib) (snd (fst result)) e'
                        = decrypt_password (L := SimpleLib.simple_lib) self e)
            (entries sample_store) (entries store').
Proof.
  cbv zeta.
  assert (Hok : fst (fst (change_master_password (L := SimpleLib.simple_lib)
                            (mkDataRepository (Some sample_store) (Some "old"))
                            "old" "new" (snd sample_vault))) = true)
    by (vm_compute; reflexivity).
  destruct (change_master_password_rotation (L := SimpleLib.simple_lib)
              sample_store "old" "new" (snd sample_vault)) as [Hrot _].
  destruct (Hrot Hok) as (Hentries & Hload & _ & info & Hcontent & Hold).
  split; [vm_compute; reflexivity|].
  split; [exact Hok|].
  split; [vm_compute; reflexivity|].
  split; [apply (Hload DataRepository_new); reflexivity|].
  split; [|exact Hentries].
  apply (Hold DataRepository_new); [reflexivity|].
  apply (f_equal (fun content => content ≫= @json_loads SimpleLib.simple_lib))
    in Hcontent.
  cbn [mbind option_bind] in Hcontent.
  rewrite (@json_loads_dumps SimpleLib.simple_lib) in Hcontent.
  vm_compute in Hcontent. injection Hcontent as <-.
  intros text Htext. vm_compute in Htext. injection Htext as <-.
  vm_compute. reflexivity.
Defined.

(** Changing the master password to itself succeeds, and the vault file
    still opens with the old password. *)
Lemma change_to_same_password_loads_with_old :
  let result := change_master_password (L := SimpleLib.simple_lib)
                  (fst sample_vault) "old" "old" (snd sample_vault) in
  fst (fst result) = true
  /\ fst (fst (load_database (L := SimpleLib.simple_lib) DataRepository_new "old"
                 (snd result))) = true.
Proof. vm_compute. split; reflexivity. Qed.

End RepositoryFacts.

(** * security/crypto.py: sizes, malformed input and password hashes *)

Module CryptoEdgeFacts.
Import Crypto BytesFacts CryptoFacts.

(** X1.  [_pad_data] adds between 1 and 16 bytes and makes the data a whole
    number of blocks, and [_unpad_data] gives back the data that was
    padded. *)
Theorem pad_then_unpad (data : bytes) :
  let padded := _pad_data data in
  length padded mod 16 = 0
  /\ length data < length padded <= length data + 16
  /\ _unpad_data padded = Some data.
Proof.
  cbv zeta. split; [apply length_pad_data|]. split; [|apply unpad_pad_data].
  unfold _pad_data, block_size. rewrite length_app, repeat_length.
  pose proof (padding_length_bounds (length data)). lia.
Qed.

Section WithLib.
Context {L : PyLib}.

(** X2.  [verify_password] accepts the hash that [hash_password] made of
    the same password, with the salt it returned, and no other hash with
    that salt. *)
Theorem verify_password_own_hash (password : string) (salt : option bytes) (e : Entropy) :
  let hash_info := fst (hash_password password salt e) in
  verify_password password (fst hash_info) (snd hash_info) = true
  /\ forall stored_hash, stored_hash <> fst hash_info ->
       verify_password password stored_hash (snd hash_info) = false.
Proof.
  cbv zeta. unfold hash_password, verify_password.
  destruct (match salt with Some s => (s, e) | None => generate_salt e end)
    as [salt' e'] eqn:Es.
  destruct (get_random_bytes 0 e') as [x y] eqn:Ex. clear Ex x y.
  cbn [fst snd]. rewrite b64decode_b64encode. split.
  - apply String.eqb_refl.
  - intros stored_hash Hne. apply String.eqb_neq. congruence.
Qed.

(** [decrypt_data] returns [None] when the dict lacks one of its three
    keys ... *)
Lemma decrypt_data_missing_key (encrypted_info : json) (password k : string) :
  k ∈ ["encrypted_data"; "salt"; "iv"] ->
  subscript encrypted_info k = None ->
  decrypt_data encrypted_info password = None.
Proof.
  intros Hk Hnone. unfold decrypt_data.
  assert (Hf : b64decode_field encrypted_info k = None)
    by (unfold b64decode_field; now rewrite Hnone).
  rewrite !elem_of_cons, elem_of_nil in Hk.
  destruct Hk as [->|[->|[->|[]]]].
  - now rewrite Hf.
  - rewrite Hf. now destruct (b64decode_field encrypted_info "encrypted_data").
  - rewrite Hf. destruct (b64decode_field encrypted_info "encrypted_data"); [|reflexivity].
    now destruct (b64decode_field encrypted_info "salt").
Qed.

(** ... and when the IV is not 16 bytes long, when the ciphertext is not a
    whole number of blocks and when it is empty. *)
Lemma decrypt_data_bad_sizes (encrypted_data salt iv : bytes) (password : string) :
  length iv <> 16 \/ length encrypted_data mod 16 <> 0 \/ encrypted_data = [] ->
  decrypt_data (bundle encrypted_data salt iv) password = None.
Proof.
  intros H. unfold decrypt_data.
  destruct (b64decode_field_bundle encrypted_data salt iv) as (-> & -> & ->).
  cbn [mbind option_bind]. unfold AES_new.
  rewrite length_derive_key. cbn [bool_decide decide_rel orb andb].
  destruct (decide (length iv = 16)) as [Hiv|Hiv].
  - rewrite (bool_decide_eq_true_2 _ Hiv). cbn [orb andb mbind option_bind].
    unfold cipher_decrypt.
    destruct (decide (length encrypted_data mod 16 = 0)) as [Hc|Hc].
    + rewrite (bool_decide_eq_true_2 _ Hc).
      destruct H as [?|[?| ->]]; [contradiction..|]. reflexivity.
    + rewrite (bool_decide_eq_false_2 _ Hc). reflexivity.
  - rewrite (bool_decide_eq_false_2 _ Hiv).
    now rewrite andb_false_r.
Qed.

(** What [decrypt_data] cannot decrypt for its form alone: a value without
    one of the three keys, or the three fields with an IV that is not 16
    bytes long or a ciphertext that is empty or not a whole number of
    blocks. *)
Inductive malformed : json -> Prop :=
| malformed_key (encrypted_info : json) (k : string) :
    k ∈ ["encrypted_data"; "salt"; "iv"] ->
    subscript encrypted_info k = None ->
    malformed encrypted_info
| malformed_sizes (encrypted_data salt iv : bytes) :
    length iv <> 16 \/ length encrypted_data mod 16 <> 0 \/ encrypted_data = [] ->
    malformed (bundle encrypted_data salt iv).

(** X3.  [decrypt_data] returns [None], and raises nothing, for a value
    that lacks one of the keys ['encrypted_data'], ['salt'] and ['iv'], for
    an IV that is not 16 bytes long, and for a ciphertext that is empty or
    not a whole number of blocks. *)
Theorem decrypt_data_malformed (encrypted_info : json) (password : string) :
  malformed encrypted_info -> decrypt_data encrypted_info password = None.
Proof.
  intros [info k Hk Hnone | c s iv Hsizes].
  - exact (decrypt_data_missing_key info password k Hk Hnone).
  - exact (decrypt_data_bad_sizes c s iv password Hsizes).
Qed.

(** X4.  What [encrypt_data] returns: a ciphertext of one block more than
    the whole blocks of the UTF-8 text, an IV of 16 bytes, and the salt it
    was given or 32 new bytes; it takes 16 random bytes, and 32 more for a
    salt of its own. *)
Theorem encrypt_data_sizes (data password : string) (salt : option bytes) (e : Entropy) :
  exists encrypted_data salt' iv e',
    encrypt_data data password salt e = (Some (bundle encrypted_data salt' iv), e')
    /\ length encrypted_data = 16 * (length (utf8_encode data) / 16 + 1)
    /\ length iv = 16
    /\ match salt with
       | Some s => salt' = s /\ taken e' = taken e + 16
       | None => length salt' = 32 /\ taken e' = taken e + 48
       end.
Proof.
  unfold encrypt_data.
  destruct (match salt with Some s => (s, e) | None => generate_salt e end)
    as [salt' e1] eqn:Es.
  destruct (get_random_bytes iv_length e1) as [iv e2] eqn:Eiv.
  assert (Hiv : length iv = 16).
  { pose proof (length_get_random_bytes iv_length e1) as H.
    rewrite Eiv in H. exact H. }
  assert (He2 : taken e2 = taken e1 + 16).
  { unfold get_random_bytes in Eiv. injection Eiv as _ <-. reflexivity. }
  rewrite (AES_new_derived password salt' iv Hiv). cbn [mbind option_bind].
  set (padded := _pad_data (utf8_encode data)).
  assert (Hmod : length padded mod 16 = 0) by apply length_pad_data.
  assert (Hlen : length padded = 16 * (length (utf8_encode data) / 16 + 1)).
  { unfold padded, _pad_data, block_size. rewrite length_app, repeat_length.
    pose proof (Nat.mod_upper_bound (length (utf8_encode data)) 16 ltac:(lia)).
    pose proof (Nat.div_mod_eq (length (utf8_encode data)) 16). lia. }
  unfold cipher_encrypt. rewrite (bool_decide_eq_true_2 _ Hmod).
  cbn [mbind option_bind c_key c_iv].
  eexists _, salt', iv, e2. split; [reflexivity|].
  split.
  { rewrite (length_cbc_encrypt_blocks (length padded / 16)); [| exact Hiv |].
    - pose proof (Nat.div_mod_eq (length padded) 16). lia.
    - pose proof (Nat.div_mod_eq (length padded) 16). lia. }
  split; [exact Hiv|].
  destruct salt as [s|].
  - injection Es as <- <-. split; [reflexivity | exact He2].
  - unfold generate_salt in Es.
    pose proof (length_get_random_bytes salt_length e) as Hs. rewrite Es in Hs.
    split; [exact Hs|].
    unfold get_random_bytes in Es. injection Es as _ <-. rewrite He2. simpl.
    unfold salt_length. lia.
Qed.

End WithLib.

Lemma decrypt_data_malformed_short_iv :
  @malformed SimpleLib.simple_lib
    (@bundle SimpleLib.simple_lib (repeat x00 16) [] [x01; x02])
  /\ @decrypt_data SimpleLib.simple_lib
       (@bundle SimpleLib.simple_lib (repeat x00 16) [] [x01; x02]) "pw" = None.
Proof.
  assert (H : @malformed SimpleLib.simple_lib
                (@bundle SimpleLib.simple_lib (repeat x00 16) [] [x01; x02])).
  { apply malformed_sizes. left. discriminate. }
  split; [exact H|].
  exact (decrypt_data_malformed (L := SimpleLib.simple_lib) _ "pw" H).
Defined.

End CryptoEdgeFacts.

(** * Python's strings: substrings and lower case *)

Module PyTextFacts.
Import PyText.

Lemma append_nil_l (s : string) : ("" +:+ s)%string = s.
Proof. reflexivity. Qed.

Lemma append_eq_nil (a b : string) : (a +:+ b)%string = "" <-> a = "" /\ b = "".
Proof.
  destruct a as [|c a].
  - rewrite append_nil_l. tauto.
  - rewrite SimpleLib.append_cons. split; [discriminate | intros [? _]; discriminate].
Qed.

Lemma lower_eq_nil (s : string) : lower s = "" <-> s = "".
Proof. destruct s; simpl; split; intros H; try discriminate; reflexivity. Qed.

Lemma lower_char_idempotent (c : ascii) : lower_char (lower_char c) = lower_char c.
Proof.
  destruct c as [[] [] [] [] [] [] [] []]; vm_compute; reflexivity.
Qed.

Lemma lower_idempotent (s : string) : lower (lower s) = lower s.
Proof.
  induction s as [|c s IH]; [reflexivity|].
  cbn [lower]. now rewrite lower_char_idempotent, IH.
Qed.

Lemma any_exists (p : ascii -> bool) (s : string) :
  any p s = true <-> exists c, c ∈ list_ascii_of_string s /\ p c = true.
Proof.
  induction s as [|a s IH]; cbn [any list_ascii_of_string].
  - split; [discriminate|]. intros (c & Hc & _). now apply elem_of_nil in Hc.
  - rewrite orb_true_iff, IH. split.
    + intros [Ha|(c & Hc & Hp)].
      * exists a. split; [left | exact Ha].
      * exists c. split; [now right | exact Hp].
    + intros (c & Hc & Hp). apply elem_of_cons in Hc as [->|Hc]; [now left|].
      right. eauto.
Qed.

End PyTextFacts.

(** * Lists filtered by a test *)

Module FilterFacts.

Lemma filter_sublist {A} (p : A -> bool) (l : list A) : sublist (List.filter p l) l.
Proof.
  induction l as [|x l IH]; simpl; [constructor|].
  destruct (p x); [now constructor | now apply sublist_cons].
Qed.

Lemma filter_ext_eq {A} (p q : A -> bool) (l : list A) :
  (forall x, p x = q x) -> List.filter p l = List.filter q l.
Proof.
  intros H. induction l as [|x l IH]; simpl; [reflexivity|].
  now rewrite H, IH.
Qed.

Lemma elem_of_filter_bool {A} (p : A -> bool) (l : list A) (x : A) :
  x ∈ List.filter p l <-> x ∈ l /\ p x = true.
Proof. rewrite !list_elem_of_In. apply filter_In. Qed.

Lemma length_filter_negb {A} (p : A -> bool) (l : list A) :
  length (List.filter p l) + length (List.filter (fun x => negb (p x)) l) = length l.
Proof.
  induction l as [|x l IH]; simpl; [reflexivity|].
  destruct (p x); simpl; lia.
Qed.

End FilterFacts.

(** * core/models.py: expiry and search *)

Module QueriesFacts.
Import Models Queries PyTextFacts FilterFacts.

Lemma days_1_positive : (0 < days 1)%Z.
Proof. unfold days. lia. Qed.

Lemma timedelta_days_negative (delta : Z) : (timedelta_days delta < 0 <-> delta < 0)%Z.
Proof.
  unfold timedelta_days. pose proof days_1_positive as Hd.
  pose proof (Z.div_mod delta (days 1) ltac:(lia)) as Hdm.
  pose proof (Z.mod_pos_bound delta (days 1) Hd) as Hm.
  split; intros H; nia.
Qed.

(** X5.  At one reading of the clock, [is_expired] holds exactly when
    [days_until_expiry] is negative. *)
Theorem is_expired_iff_negative_days (entry : PasswordEntry) (w : World) :
  exists expired days_left,
    fst (is_expired entry w) = Some expired
    /\ fst (days_until_expiry entry w) = Some days_left
    /\ (expired = true <-> (days_left < 0)%Z).
Proof.
  eexists _, _. split; [reflexivity|]. split; [reflexivity|].
  rewrite timedelta_days_negative, Z.ltb_lt. cbn [fst read_clock]. lia.
Qed.

(** The world after [n] more readings of the clock. *)
Definition later (n : nat) (w : World) : World :=
  mkWorld (entropy w) (clock w) (ticks w + n) (uuids w) (issued w) (files w)
    (faults w) (writes w).

Lemma later_0 w : later 0 w = w.
Proof. destruct w. unfold later. simpl. now rewrite Nat.add_0_r. Qed.

Lemma later_S n w : later n (snd (read_clock w)) = later (S n) w.
Proof. unfold later, read_clock. simpl. f_equal. lia. Qed.

Lemma expired_among_spec (l : list PasswordEntry) (w : World) :
  exists results,
    expired_among l w = (Some results, later (length l) w)
    /\ forall entry, entry ∈ results ->
         exists i, i < length l /\ (expires_at entry < clock w (ticks w + i))%Z.
Proof.
  revert w; induction l as [|e l IH]; intros w.
  - exists []. simpl. rewrite later_0. split; [reflexivity|].
    intros entry H. now apply elem_of_nil in H.
  - destruct (IH (snd (read_clock w))) as (r & Er & Hr).
    cbn [expired_among]. unfold is_expired, mbind, Py_bind, now, mret, Py_ret.
    destruct (read_clock w) as [t w1] eqn:Ew. cbn [snd] in Er, Hr.
    assert (Ht : t = clock w (ticks w)) by (unfold read_clock in Ew; congruence).
    assert (Hw1 : w1 = snd (read_clock w)) by now rewrite Ew.
    unfold mbind, Py_bind in Er. rewrite Er.
    exists (if (expires_at e <? t)%Z then e :: r else r).
    split.
    { f_equal. rewrite Hw1. apply later_S. }
    intros entry Hin.
    assert (Hrest : entry ∈ r ->
              exists i, i < length (e :: l)
                        /\ (expires_at entry < clock w (ticks w + i))%Z).
    { intros Hin'. destruct (Hr entry Hin') as (i & Hi & Hexp).
      exists (S i). split; [simpl; lia|].
      rewrite Hw1 in Hexp. unfold read_clock in Hexp. simpl in Hexp.
      now replace (ticks w + S i) with (S (ticks w + i)) by lia. }
    destruct (Z.ltb_spec (expires_at e) t) as [Hlt|_]; [|auto].
    apply elem_of_cons in Hin as [->|Hin]; [|auto].
    exists 0. split; [simpl; lia|]. now rewrite Nat.add_0_r, <- Ht.
Qed.

Lemma expiring_among_spec (days_ : Z) (l : list PasswordEntry) (w : World) :
  exists results,
    expiring_among days_ l w = (Some results, later (length l) w)
    /\ forall entry, entry ∈ results ->
         exists i, i < length l /\ (clock w (ticks w + i) <= expires_at entry)%Z.
Proof.
  revert w; induction l as [|e l IH]; intros w.
  - exists []. simpl. rewrite later_0. split; [reflexivity|].
    intros entry H. now apply elem_of_nil in H.
  - destruct (IH (snd (read_clock w))) as (r & Er & Hr).
    cbn [expiring_among]. unfold days_until_expiry, mbind, Py_bind, now, mret, Py_ret.
    destruct (read_clock w) as [t w1] eqn:Ew. cbn [snd] in Er, Hr.
    assert (Ht : t = clock w (ticks w)) by (unfold read_clock in Ew; congruence).
    assert (Hw1 : w1 = snd (read_clock w)) by now rewrite Ew.
    unfold mbind, Py_bind in Er. rewrite Er.
    eexists. split.
    { f_equal. rewrite Hw1. apply later_S. }
    intros entry Hin.
    assert (Hrest : entry ∈ r ->
              exists i, i < length (e :: l)
                        /\ (clock w (ticks w + i) <= expires_at entry)%Z).
    { intros Hin'. destruct (Hr entry Hin') as (i & Hi & Hexp).
      exists (S i). split; [simpl; lia|].
      rewrite Hw1 in Hexp. unfold read_clock in Hexp. simpl in Hexp.
      now replace (ticks w + S i) with (S (ticks w + i)) by lia. }
    destruct (Z.leb_spec 0 (timedelta_days (expires_at e - t))) as [Hle|_];
      cbn [andb] in Hin; [|auto].
    destruct (timedelta_days (expires_at e - t) <=? days_)%Z; [|auto].
    apply elem_of_cons in Hin as [->|Hin]; [|auto].
    exists 0. split; [simpl; lia|]. rewrite Nat.add_0_r, <- Ht.
    pose proof (timedelta_days_negative (expires_at e - t)). lia.
Qed.

(** A clock that never goes back. *)
Definition clock_never_goes_back (w : World) : Prop :=
  forall i j, i <= j -> (clock w i <= clock w j)%Z.

(** X6.  With a clock that never goes back, no entry that
    [get_expired_entries] returns is among those that a later
    [get_expiring_soon_entries] returns, whatever the number of days. *)
Theorem expired_not_expiring_soon (s : DataStore) (days_ : Z) (w : World) :
  clock_never_goes_back w ->
  exists expired w1 expiring w2,
    get_expired_entries s w = (Some expired, w1)
    /\ get_expiring_soon_entries days_ s w1 = (Some expiring, w2)
    /\ forall entry, entry ∈ expired -> entry ∉ expiring.
Proof.
  intros Hclock. unfold get_expired_entries, get_expiring_soon_entries.
  destruct (expired_among_spec (entries s) w) as (expired & E1 & H1).
  destruct (expiring_among_spec days_ (entries s) (later (length (entries s)) w))
    as (expiring & E2 & H2).
  eexists _, _, _, _. split; [exact E1|]. split; [exact E2|].
  intros entry Hin1 Hin2.
  destruct (H1 entry Hin1) as (i & Hi & Hexp1).
  destruct (H2 entry Hin2) as (j & Hj & Hexp2).
  cbn [later clock ticks] in Hexp2.
  pose proof (Hclock (ticks w + i) (ticks w + length (entries s) + j) ltac:(lia)).
  lia.
Qed.

(** X8.  [search_entries] does not tell upper case from lower case in the
    search term: two terms with the same lower-case form find the same
    entries. *)
Theorem search_entries_ignores_case (term1 term2 : string) (s : DataStore) :
  PyText.lower term1 = PyText.lower term2 ->
  search_entries term1 s = search_entries term2 s.
Proof.
  intros Hlow. unfold search_entries.
  destruct (String.eqb_spec term1 "") as [->|H1].
  - symmetry in Hlow. apply (proj1 (lower_eq_nil term2)) in Hlow. subst term2.
    reflexivity.
  - destruct (String.eqb_spec term2 "") as [->|H2].
    + apply (proj1 (lower_eq_nil term1)) in Hlow. contradiction.
    + now rewrite Hlow.
Qed.

Definition three_entries : DataStore :=
  mkDataStore
    [mkPasswordEntry "GitHub" "alice" "c1" "work" "id-1" (-9)%Z (-9)%Z (-1)%Z;
     mkPasswordEntry "GitLab" "bob" "c2" "" "id-2" 0%Z 0%Z (days 3);
     mkPasswordEntry "Mail" "carol" "c3" "see github" "id-3" 0%Z 0%Z (days 90)]
    None (mkAppSettings "default" 800 600 100 100 300 true true 0%Z) "1.0.0".

Lemma search_entries_ignores_case_github :
  PyText.lower "GITHUB" = PyText.lower "GitHub"
  /\ search_entries "GITHUB" three_entries = search_entries "GitHub" three_entries.
Proof.
  split; [reflexivity|].
  apply (search_entries_ignores_case "GITHUB" "GitHub" three_entries). reflexivity.
Defined.

Lemma sample_clock_never_goes_back : clock_never_goes_back ModelsFacts.sample_world.
Proof.
  intros i j Hij. unfold ModelsFacts.sample_world, seconds. cbn [clock]. lia.
Defined.

Lemma expired_not_expiring_soon_sample :
  clock_never_goes_back ModelsFacts.sample_world
  /\ exists expired w1 expiring w2,
       get_expired_entries three_entries ModelsFacts.sample_world = (Some expired, w1)
       /\ get_expiring_soon_entries 7 three_entries w1 = (Some expiring, w2)
       /\ forall entry, entry ∈ expired -> entry ∉ expiring.
Proof.
  split; [exact sample_clock_never_goes_back|].
  apply (expired_not_expiring_soon three_entries 7 ModelsFacts.sample_world
           sample_clock_never_goes_back).
Defined.

End QueriesFacts.

(** * core/models.py: adding, finding, updating and deleting entries *)

Module DataStoreFacts.
Import Models.

Definition has_id (entry_id : string) (entry : PasswordEntry) : bool :=
  String.eqb (id entry) entry_id.

Lemma set_entries_same s : set_entries (entries s) s = s.
Proof. now destruct s. Qed.

Lemma find_app_none {A} (p : A -> bool) (l l' : list A) :
  find p l = None -> find p (l ++ l') = find p l'.
Proof.
  induction l as [|x l IH]; simpl; [reflexivity|].
  destruct (p x); [discriminate | exact IH].
Qed.

Lemma find_app_some {A} (p : A -> bool) (l l' : list A) x :
  find p l = Some x -> find p (l ++ l') = Some x.
Proof.
  induction l as [|y l IH]; simpl; [discriminate|].
  destruct (p y); [auto | exact IH].
Qed.

Lemma find_has_id_none entry_id l :
  find (has_id entry_id) l = None <-> entry_id ∉ map id l.
Proof.
  unfold has_id. induction l as [|e l IH]; simpl.
  - split; [intros _ H; now apply elem_of_nil in H | reflexivity].
  - rewrite not_elem_of_cons. destruct (String.eqb_spec (id e) entry_id) as [E|E].
    + split; [discriminate | intros [H _]; congruence].
    + rewrite IH. split; [intros H; split; [congruence | exact H] | tauto].
Qed.

Lemma delete_first_app_fresh entry_id l entry :
  entry_id ∉ map id l -> id entry = entry_id ->
  delete_first entry_id (l ++ [entry]) = Some l.
Proof.
  intros Hfresh Hid. induction l as [|e l IH]; simpl.
  - now rewrite Hid, String.eqb_refl.
  - simpl in Hfresh. apply not_elem_of_cons in Hfresh as [Hne Hfresh].
    destruct (String.eqb_spec (id e) entry_id) as [E|_]; [congruence|].
    now rewrite IH.
Qed.

(** X9.  After [add_entry] took an entry whose id no entry of the store
    had, [get_entry_by_id] finds that entry under its id and every other
    entry as before, and [delete_entry] with that id gives back the store
    as it was. *)
Theorem add_entry_then_get_and_delete (entry : PasswordEntry) (s s' : DataStore) :
  add_entry entry s = (true, s') ->
  id entry ∉ map id (entries s) ->
  get_entry_by_id (id entry) s' = Some entry
  /\ (forall entry_id e, get_entry_by_id entry_id s = Some e ->
        get_entry_by_id entry_id s' = Some e)
  /\ delete_entry (id entry) s' = (true, s).
Proof.
  intros Hadd Hfresh. unfold add_entry in Hadd.
  destruct (existsb _ (entries s)); [discriminate|].
  injection Hadd as <-. unfold get_entry_by_id, delete_entry. cbn [entries set_entries].
  split; [|split].
  - rewrite find_app_none by now apply find_has_id_none.
    simpl. now rewrite String.eqb_refl.
  - intros entry_id e. apply find_app_some.
  - rewrite (delete_first_app_fresh (id entry)) by auto.
    destruct s. reflexivity.
Qed.

Lemma update_first_some current_time entry_id updated_entry l :
  existsb (has_id entry_id) l = true ->
  exists old l',
    find (has_id entry_id) l = Some old
    /\ update_first current_time entry_id updated_entry l = Some l'
    /\ map id l' = map id l
    /\ find (has_id entry_id) l'
       = Some (mkPasswordEntry (platform updated_entry) (username updated_entry)
                 (encrypted_password updated_entry) (notes updated_entry)
                 entry_id (created_at old) current_time (expires_at updated_entry)).
Proof.
  unfold has_id. induction l as [|e l IH]; simpl; [discriminate|].
  destruct (String.eqb_spec (id e) entry_id) as [E|E].
  - intros _. eexists _, _. split; [reflexivity|]. split; [reflexivity|].
    simpl. rewrite String.eqb_refl. split; [now rewrite E | reflexivity].
  - simpl. intros Hex. destruct (IH Hex) as (old & l' & Hfind & Hup & Hids & Hnew).
    exists old, (e :: l'). rewrite Hup. simpl.
    destruct (String.eqb_spec (id e) entry_id) as [?|_]; [contradiction|].
    rewrite Hids. auto.
Qed.


Lemma delete_first_spec entry_id l :
  match delete_first entry_id l with
  | Some l' =>
      entry_id ∈ map id l /\ S (length l') = length l
      /\ (forall other, other <> entry_id ->
            find (has_id other) l' = find (has_id other) l)
      /\ (NoDup (map id l) -> find (has_id entry_id) l' = None)
  | None => entry_id ∉ map id l
  end.
Proof.
  unfold has_id. induction l as [|e l IH]; simpl.
  - intros H. now apply elem_of_nil in H.
  - destruct (String.eqb_spec (id e) entry_id) as [E|E].
    + split; [apply elem_of_cons; left; congruence|]. split; [reflexivity|]. split.
      * intros other Hother.
        destruct (String.eqb_spec (id e) other) as [?|_]; [congruence | reflexivity].
      * intros Hnd. apply NoDup_cons in Hnd as [Hnotin _].
        apply find_has_id_none. congruence.
    + destruct (delete_first entry_id l) as [l'|]; simpl.
      * destruct IH as (Hin & Hlen & Hother & Hgone).
        split; [apply elem_of_cons; now right|]. split; [now rewrite Hlen|]. split.
        -- intros other Ho. rewrite (Hother other Ho). reflexivity.
        -- intros Hnd. apply NoDup_cons in Hnd as [_ Hnd].
           destruct (String.eqb_spec (id e) entry_id) as [?|_]; [contradiction|].
           auto.
      * rewrite not_elem_of_cons. split; [congruence | exact IH].
Qed.


(** X11.  [delete_entry] succeeds exactly when an entry has the id.  It
    then takes one entry away and leaves what [get_entry_by_id] finds under
    every other id as it was; when no two entries share an id, the id is
    not found any more.  Otherwise the store is unchanged. *)
Theorem delete_entry_then_get (entry_id : string) (s : DataStore) :
  let ok := fst (delete_entry entry_id s) in
  let s' := snd (delete_entry entry_id s) in
  (ok = true <-> entry_id ∈ map id (entries s))
  /\ (ok = false -> s' = s)
  /\ (ok = true -> S (length (entries s')) = length (entries s))
  /\ (forall other, other <> entry_id ->
        get_entry_by_id other s' = get_entry_by_id other s)
  /\ (NoDup (map id (entries s)) -> ok = true -> get_entry_by_id entry_id s' = None).
Proof.
  cbv zeta. unfold delete_entry, get_entry_by_id.
  pose proof (delete_first_spec entry_id (entries s)) as H.
  destruct (delete_first entry_id (entries s)) as [l'|]; cbn [fst snd entries set_entries].
  - destruct H as (Hin & Hlen & Hother & Hgone).
    split; [tauto|]. split; [discriminate|]. split; [auto|].
    split; [exact Hother | auto].
  - split; [split; [discriminate | contradiction]|].
    split; [reflexivity|]. split; [discriminate|]. split; [reflexivity | discriminate].
Qed.

Definition empty_store : DataStore :=
  mkDataStore [] None (mkAppSettings "default" 800 600 100 100 300 true true 0%Z) "1.0.0".

Lemma add_entry_then_get_and_delete_github :
  add_entry ModelsFacts.github empty_store
    = (true, set_entries [ModelsFacts.github] empty_store)
  /\ (id ModelsFacts.github ∉ map id (entries empty_store))
  /\ get_entry_by_id (id ModelsFacts.github) (set_entries [ModelsFacts.github] empty_store)
     = Some ModelsFacts.github
  /\ (forall entry_id e, get_entry_by_id entry_id empty_store = Some e ->
        get_entry_by_id entry_id (set_entries [ModelsFacts.github] empty_store) = Some e)
  /\ delete_entry (id ModelsFacts.github) (set_entries [ModelsFacts.github] empty_store)
     = (true, empty_store).
Proof.
  assert (H1 : add_entry ModelsFacts.github empty_store
               = (true, set_entries [ModelsFacts.github] empty_store)) by reflexivity.
  assert (H2 : id ModelsFacts.github ∉ map id (entries empty_store))
    by (simpl; apply not_elem_of_nil).
  split; [exact H1|]. split; [exact H2|].
  exact (add_entry_then_get_and_delete ModelsFacts.github empty_store _ H1 H2).
Defined.

End DataStoreFacts.

(** * data/repository.py: the entries of the vault *)

Module VaultFacts.
Import Crypto Models Repository RepositoryEntries RepositoryFacts DataStoreFacts.

(** The parts of the environment that only the clock, the identifiers and
    the disk are. *)
Definition same_but_entropy (w w' : World) : Prop :=
  clock w' = clock w /\ ticks w' = ticks w /\ uuids w' = uuids w
  /\ issued w' = issued w /\ same_disk w w'.

(** Running the first part of an action first. *)
Lemma bind_bind_run {A B C} (m : Py A) (f : A -> Py B) (g : B -> Py C) w b w1 :
  (m ≫= f) w = (Some b, w1) ->
  (m ≫= (fun x => f x ≫= g)) w = g b w1.
Proof.
  unfold mbind, Py_bind. destruct (m w) as [[a|] w0]; [|discriminate].
  now intros ->.
Qed.

Section WithLib.
Context {L : PyLib}.

(** [encrypt] draws random bytes and touches nothing else. *)
Lemma encrypt_spec data password w :
  exists encrypted_info w',
    encrypt data password w = (Some encrypted_info, w')
    /\ same_but_entropy w w'
    /\ decrypt_data encrypted_info password = Some data.
Proof.
  destruct (CryptoFacts.encrypt_data_bundle data password None (entropy w))
    as (c & salt & iv & Henc & Hiv & _ & Hc).
  unfold encrypt, with_entropy, mbind, Py_bind.
  destruct (encrypt_data data password None (entropy w)) as [r e] eqn:E.
  simpl in Henc. subst r.
  eexists _, _. split; [reflexivity|]. split; [repeat split|].
  now apply CryptoFacts.decrypt_data_bundle.
Qed.

(** The entry that [add_password_entry] and [update_password_entry] build
    for a password. *)
Definition new_entry (platform username notes : string) (encrypted_info : json) (w : World)
    : PasswordEntry :=
  mkPasswordEntry platform username (json_dumps true None encrypted_info) notes
    (uuids w (issued w)) (clock w (ticks w)) (clock w (ticks w))
    (clock w (ticks w) + days 90)%Z.

Lemma decrypt_password_new_entry store master_password encrypted_info password e :
  decrypt_data encrypted_info master_password = Some password ->
  encrypted_password e = json_dumps true None encrypted_info ->
  decrypt_password (mkDataRepository (Some store) (Some master_password)) e = Some password.
Proof.
  intros Hdec He. rewrite decrypt_password_loaded, He, json_loads_dumps. exact Hdec.
Qed.

(** The store carries the hash of the master password, as every store
    does that [initialize_new_database] made. *)
Definition sealed (store : DataStore) (master_password : string) : Prop :=
  exists c, master_config store = Some c
            /\ verify_password master_password (password_hash c) (salt c) = true.

(** Any repository object that loads the vault file with the master
    password gets the store. *)
Definition reopens (w : World) (store : DataStore) (master_password : string) : Prop :=
  forall other, exists w',
    load_database other master_password w
    = ((true, mkDataRepository (Some store) (Some master_password)), w').

Lemma vault_reopens w store master_password :
  vault_holds w store master_password -> sealed store master_password ->
  reopens w store master_password.
Proof.
  intros Hholds (c & Hmc & Hver) other.
  destruct (load_database_holds other store master_password c w Hholds Hmc Hver)
    as (w' & Hload & _).
  exists w'. exact Hload.
Qed.

Lemma sealed_set_entries l store master_password :
  sealed store master_password -> sealed (set_entries l store) master_password.
Proof. intros Hs. exact Hs. Qed.

(** [save_database] on a loaded repository: [True] and the store in the
    vault file when nothing goes wrong, [False] and the vault file as it was
    otherwise. *)
Definition saved (w : World) (store : DataStore) (master_password : string)
    (ok : bool) (w' : World) : Prop :=
  (untroubled w -> ok = true /\ untroubled w')
  /\ (if ok then vault_holds w' store master_password
      else files w' DataFile = files w DataFile).

Lemma untroubled_written w w' :
  faults w' = faults w -> writes w <= writes w' -> untroubled w -> untroubled w'.
Proof. intros Hf Hw H i Hi. rewrite Hf. apply H. lia. Qed.

Lemma save_database_spec store master_password w :
  exists ok w',
    save_database (mkDataRepository (Some store) (Some master_password)) w = (ok, w')
    /\ saved w store master_password ok w'.
Proof.
  destruct (save_to_file_spec store master_password w)
    as (ok & w' & Hsave & Hf & Hw & Hok & Hfile).
  exists ok, w'. split; [exact Hsave|]. split; [|exact Hfile].
  intros Hu. split; [auto | eapply untroubled_written; eauto].
Qed.

(** A save that began on the disk of [w] and on the files of another
    world. *)
Lemma saved_same_disk w w0 store master_password ok w' :
  same_disk w w0 -> saved w0 store master_password ok w' ->
  saved w store master_password ok w'.
Proof.
  intros Hd (Hok & Hfile). split.
  - intros Hu. apply Hok. eapply untroubled_same_disk; eauto.
  - destruct ok; [exact Hfile|]. destruct Hd as (Hf & _). now rewrite Hfile, Hf.
Qed.

(** What [add_password_entry] and [update_password_entry] do before they
    turn to the store: a new entry for the encrypted password. *)
Lemma build_entry platform username password notes master_password w :
  exists encrypted_info w',
    (encrypted_info ← encrypt password master_password;
     PasswordEntry_new platform username (json_dumps true None encrypted_info) notes
       None None None None) w
    = (Some (new_entry platform username notes encrypted_info w), w')
    /\ decrypt_data encrypted_info master_password = Some password
    /\ clock w' = clock w /\ ticks w' = S (ticks w) /\ same_disk w w'.
Proof.
  destruct (encrypt_spec password master_password w)
    as (info & w1 & Henc & (Hclock & Hticks & Huuids & Hissued & Hfiles) & Hdec).
  unfold mbind at 1, Py_bind at 1. rewrite Henc.
  unfold PasswordEntry_new.
  cbv [mbind Py_bind uuid4 now read_clock mret Py_ret].
  cbn [default fst snd entropy clock ticks uuids issued files].
  rewrite Hclock, Hticks, Huuids, Hissued. fold (new_entry platform username notes info w).
  eexists info, _. split; [reflexivity|]. split; [exact Hdec|].
  cbn [clock ticks]. split; [reflexivity|]. split; [reflexivity|].
  exact Hfiles.
Qed.

(** X12.  A store written by [to_dict] and [json.dumps] and read back by
    [json.loads] and [DataStore.from_dict] is the same store, entries,
    master configuration, settings and version; reading it touches no
    file. *)
Theorem DataStore_json_round_trip (store : DataStore) (ensure_ascii : bool)
    (indent : option nat) (w : World) :
  exists w',
    (data ← of_option (json_loads (json_dumps ensure_ascii indent
                                     (DataStore_to_dict store)));
     DataStore_from_dict data) w = (Some store, w')
    /\ files w' = files w.
Proof.
  rewrite json_loads_dumps. unfold mbind at 1, Py_bind at 1. cbn [of_option].
  apply DataStore_from_to_dict.
Qed.


(** X14.  [add_password_entry] for a platform and username that an entry
    of the loaded store has: it returns [False], and the repository and
    the files stay as they were. *)
Theorem add_password_entry_duplicate (store : DataStore) (master_password : string)
    (platform username password notes : string) (w : World) :
  (platform, username) ∈ map ModelsFacts.account (entries store) ->
  exists w',
    add_password_entry (mkDataRepository (Some store) (Some master_password))
      platform username password notes w
    = ((false, mkDataRepository (Some store) (Some master_password)), w')
    /\ files w' = files w.
Proof.
  intros Hdup.
  destruct (build_entry platform username password notes master_password w)
    as (info & w1 & Hbuild & _ & _ & _ & Hfiles & _).
  set (entry := new_entry platform username notes info w) in *.
  unfold add_password_entry. cbn [_data_store _master_password].
  rewrite Hbuild.
  rewrite (ModelsFacts.add_entry_duplicate entry store) by exact Hdup.
  exists w1. split; [reflexivity | exact Hfiles].
Qed.

(** [update_password_entry] when an entry has the id. *)
Lemma update_password_entry_found store master_password entry_id platform username
    password notes w old :
  find (has_id entry_id) (entries store) = Some old ->
  exists encrypted_info l' ok w',
    update_password_entry (mkDataRepository (Some store) (Some master_password))
      entry_id platform username password notes w
    = ((true, mkDataRepository (Some (set_entries l' store)) (Some master_password)), w')
    /\ decrypt_data encrypted_info master_password = Some password
    /\ map id l' = map id (entries store)
    /\ find (has_id entry_id) l'
       = Some (mkPasswordEntry platform username (json_dumps true None encrypted_info)
                 notes entry_id (created_at old) (clock w (S (ticks w)))
                 (clock w (ticks w) + days 90)%Z)
    /\ saved w (set_entries l' store) master_password ok w'.
Proof.
  intros Hfind.
  destruct (build_entry platform username password notes master_password w)
    as (info & w1 & Hbuild & Hdec & Hclock & Hticks & Hdisk).
  set (entry := new_entry platform username notes info w) in *.
  assert (Hex : existsb (has_id entry_id) (entries store) = true).
  { apply existsb_exists. exists old. apply find_some in Hfind. exact Hfind. }
  destruct (update_first_some (clock w (S (ticks w))) entry_id entry (entries store) Hex)
    as (old' & l' & Hfind' & Hup & Hids & Hnew).
  assert (old' = old) by congruence. subst old'.
  unfold update_password_entry. cbn [_data_store _master_password].
  rewrite (bind_bind_run _ _ (fun updated_entry => update_entry entry_id updated_entry store)
             _ _ _ Hbuild).
  unfold update_entry. fold (has_id entry_id). rewrite Hex.
  unfold mbind, Py_bind, now, read_clock. rewrite Hclock, Hticks, Hup.
  cbn [mret Py_ret].
  match goal with
  | |- context [save_database _ ?w0] =>
      destruct (save_database_spec (set_entries l' store) master_password w0)
        as (ok & w2 & Hsave & Hsaved);
      apply (saved_same_disk w) in Hsaved; [|exact Hdisk]
  end.
  rewrite Hsave.
  exists info, l', ok, w2. split; [reflexivity|]. split; [exact Hdec|].
  split; [exact Hids|]. split; [exact Hnew | exact Hsaved].
Qed.



(** What [initialize_new_database] leaves: a loaded repository with an
    empty store that carries the hash of the password, and that store in
    the vault file when the save worked. *)
Lemma initialize_new_database_saved self master_password w :
  exists ok store w',
    initialize_new_database self master_password w
    = ((ok, mkDataRepository (Some store) (Some master_password)), w')
    /\ entries store = []
    /\ sealed store master_password
    /\ (untroubled w -> ok = true)
    /\ (if ok then vault_holds w' store master_password
        else files w' DataFile = files w DataFile).
Proof.
  unfold initialize_new_database.
  cbv [mbind Py_bind DataStore_new AppSettings_new MasterConfig_new now read_clock
       with_entropy mret Py_ret].
  cbn [default fst snd entropy clock ticks uuids issued files faults writes].
  pose proof (verify_hash_password master_password None (entropy w)) as Hver.
  cbv zeta in Hver.
  destruct (hash_password master_password None (entropy w)) as [hash_info e] eqn:Eh.
  cbn [fst snd entries app_settings version] in *.
  match goal with
  | |- context [_save_to_file (mkDataRepository (Some ?s) _) ?w0] =>
      destruct (save_to_file_spec s master_password w0)
        as (ok & w2 & Hsave & _ & _ & Hok & Hfile);
      assert (Hsealed : sealed s master_password)
        by (eexists; split; [reflexivity | exact Hver])
  end.
  rewrite Hsave. eexists ok, _, w2. split; [reflexivity|]. split; [reflexivity|].
  split; [exact Hsealed|]. split; [|exact Hfile].
  intros Hu. apply Hok. intros i Hi. apply Hu. exact Hi.
Qed.


End WithLib.

(** The vault after [initialize_new_database] with the master password
    ["old"] and [add_password_entry] for GitHub, on the small implementation
    of the library. *)
Definition vault_world : World := snd RepositoryFacts.sample_vault.
Definition vault_store : DataStore := RepositoryFacts.sample_store.




Lemma add_password_entry_duplicate_github :
  (("GitHub", "a@b.com") ∈ map ModelsFacts.account (entries vault_store))
  /\ exists w',
       add_password_entry (L := SimpleLib.simple_lib)
         (mkDataRepository (Some vault_store) (Some "old"))
         "GitHub" "a@b.com" "other" "" vault_world
       = ((false, mkDataRepository (Some vault_store) (Some "old")), w')
       /\ files w' = files vault_world.
Proof.
  assert (H : ("GitHub", "a@b.com") ∈ map ModelsFacts.account (entries vault_store)).
  { vm_compute. apply list_elem_of_singleton. reflexivity. }
  split; [exact H|].
  exact (add_password_entry_duplicate (L := SimpleLib.simple_lib) vault_store "old"
           "GitHub" "a@b.com" "other" "" vault_world H).
Defined.


(** The same vault on a disk that is full: every writing breaks off at
    once. *)
Definition full_disk : World :=
  mkWorld (entropy vault_world) (clock vault_world) (ticks vault_world)
    (uuids vault_world) (issued vault_world) (files vault_world)
    (fun _ => Some (Broken 0)) (writes vault_world).

(** A new disk that takes no file. *)
Definition refusing_disk : World :=
  mkWorld (entropy ModelsFacts.sample_world) (clock ModelsFacts.sample_world) 0
    (uuids ModelsFacts.sample_world) 0 (fun _ => None) (fun _ => Some Refused) 0.

(** On the full disk [add_password_entry] returns [True] and the object
    holds the two entries, but the vault file is as it was: a repository
    that loads it finds the one entry it held. *)
Example add_password_entry_full_disk :
  let result := add_password_entry (L := SimpleLib.simple_lib)
                  (mkDataRepository (Some vault_store) (Some "old"))
                  "GitLab" "a@b.com" "tr0ub4dor" "" full_disk in
  fst (fst result) = true
  /\ (map platform <$> (entries <$> _data_store (snd (fst result))))
     = Some ["GitHub"; "GitLab"]
  /\ files (snd result) DataFile = files vault_world DataFile
  /\ fst (load_database (L := SimpleLib.simple_lib) DataRepository_new "old" (snd result))
     = (true, mkDataRepository (Some vault_store) (Some "old")).
Proof. vm_compute. repeat split. Qed.

(** On the disk that takes no file [initialize_new_database] returns
    [False]; the object is loaded, and there is no vault file to load. *)
Example initialize_new_database_refused :
  let result := initialize_new_database (L := SimpleLib.simple_lib) DataRepository_new
                  "old" refusing_disk in
  fst (fst result) = false
  /\ is_loaded (snd (fst result)) = true
  /\ files (snd result) DataFile = None
  /\ fst (fst (load_database (L := SimpleLib.simple_lib) DataRepository_new "old"
                 (snd result))) = false.
Proof. vm_compute. repeat split. Qed.

End VaultFacts.

(** * core/password_manager.py: extending the expiry of a password *)

Module PasswordManagerFacts.
Import Crypto Models Repository RepositoryEntries RepositoryFacts DataStoreFacts VaultFacts.
Import PasswordManager.

Lemma find_modify_first entry_id (f : PasswordEntry -> PasswordEntry) l :
  (forall e, id (f e) = id e) ->
  find (has_id entry_id) (modify_first entry_id f l) = f <$> find (has_id entry_id) l.
Proof.
  intros Hid. unfold has_id. induction l as [|e l IH]; simpl; [reflexivity|].
  destruct (String.eqb_spec (id e) entry_id) as [E|E]; simpl.
  - rewrite Hid. destruct (String.eqb_spec (id e) entry_id); [reflexivity | contradiction].
  - destruct (String.eqb_spec (id e) entry_id); [contradiction | exact IH].
Qed.

Section WithLib.
Context {L : PyLib}.

(** X18.  [extend_password_expiry] for an entry whose password decrypts.
    When the number of days is at most 999999999 either way and the time of
    the call plus the days is a date of the years 1 to 9999, it returns
    success with that time as [new_expiry], but the entry it leaves under
    the id expires 90 days after the update, whatever the number of days;
    the password, platform, username, notes and creation time of the entry
    stay.  Otherwise [OverflowError] leaves the method, after one reading of
    the clock, and the repository is as it was. *)
Theorem extend_password_expiry_stores_90_days (store : DataStore)
    (master_password entry_id : string) (days_ : Z) (w : World)
    (old : PasswordEntry) (password : string) :
  let repository := mkDataRepository (Some store) (Some master_password) in
  let in_range := (Z.abs days_ <= 999999999
                   /\ 0 <= clock w (ticks w) + days days_ < datetime_end)%Z in
  get_entry_by_id entry_id store = Some old ->
  decrypt_password repository old = Some password ->
  (in_range ->
   exists new store' w',
     let repository' := mkDataRepository (Some store') (Some master_password) in
     extend_password_expiry repository entry_id days_ w
     = ((Some (mkExtendResult true (Some (clock w (ticks w) + days days_)%Z)),
         repository'), w')
     /\ get_entry_by_id entry_id store' = Some new
     /\ expires_at new = (clock w (S (S (ticks w))) + days 90)%Z
     /\ decrypt_password repository' new = Some password
     /\ platform new = platform old /\ username new = username old
     /\ notes new = notes old /\ created_at new = created_at old)
  /\ (~ in_range ->
      extend_password_expiry repository entry_id days_ w
      = ((None, repository), snd (read_clock w))).
Proof.
  cbv zeta. intros Hget Hdec.
  unfold extend_password_expiry. cbn [_data_store _master_password]. rewrite Hget.
  unfold read_clock. cbn [clock ticks entropy uuids issued files faults writes snd].
  unfold timedelta_of_days, datetime_add. cbn [mbind option_bind].
  split.
  - intros (Hdays & Hlo & Hhi).
    destruct (Z.leb_spec (Z.abs days_) 999999999) as [_|?]; [|lia].
    cbn [mbind option_bind].
    destruct (Z.leb_spec 0 (clock w (ticks w) + days days_)) as [_|?]; [|lia].
    destruct (Z.ltb_spec (clock w (ticks w) + days days_) datetime_end) as [_|?]; [|lia].
    cbn [andb].
    set (change := fun e => update_timestamp (clock w (S (ticks w)))
                              (set_expires_at (clock w (ticks w) + days days_)%Z e)).
    set (store1 := set_entries (modify_first entry_id change (entries store)) store).
    set (w2 := mkWorld (entropy w) (clock w) (S (S (ticks w))) (uuids w) (issued w)
                 (files w) (faults w) (writes w)).
    assert (Hdec1 : decrypt_password (mkDataRepository (Some store1) (Some master_password))
                      (change old) = Some password).
    { rewrite decrypt_password_loaded in *. exact Hdec. }
    change (update_timestamp (clock w (S (ticks w)))
              (set_expires_at (clock w (ticks w) + days days_)%Z old)) with (change old).
    rewrite Hdec1.
    assert (Hfind1 : find (has_id entry_id) (entries store1) = Some (change old)).
    { unfold store1. cbn [entries set_entries].
      rewrite find_modify_first by reflexivity.
      unfold get_entry_by_id in Hget. fold (has_id entry_id) in Hget. now rewrite Hget. }
    destruct (update_password_entry_found store1 master_password entry_id
                (platform (change old)) (username (change old)) password
                (notes (change old)) w2 (change old) Hfind1)
      as (info & l' & ok & w' & Hrun & Hdec' & Hids & Hnew & _).
    rewrite Hrun.
    eexists _, (set_entries l' store1), w'. cbv zeta.
    split; [reflexivity|]. split; [exact Hnew|]. split; [reflexivity|].
    split.
    { eapply decrypt_password_new_entry; [exact Hdec' | reflexivity]. }
    repeat split.
  - intros Hout.
    destruct (Z.leb_spec (Z.abs days_) 999999999) as [Hdays|?]; [|reflexivity].
    cbn [mbind option_bind].
    destruct (Z.leb_spec 0 (clock w (ticks w) + days days_)) as [Hlo|?]; [|reflexivity].
    destruct (Z.ltb_spec (clock w (ticks w) + days days_) datetime_end) as [Hhi|?];
      [|reflexivity].
    exfalso. apply Hout. lia.
Qed.

End WithLib.

Lemma extend_password_expiry_stores_90_days_github :
  let repository := mkDataRepository (Some vault_store) (Some "old") in
  exists old,
    get_entry_by_id "uuid-0b0" vault_store = Some old
    /\ decrypt_password (L := SimpleLib.simple_lib) repository old = Some "hunter2"
    /\ (exists new store' w',
          let repository' := mkDataRepository (Some store') (Some "old") in
          extend_password_expiry (L := SimpleLib.simple_lib) repository "uuid-0b0" 30
            vault_world
          = ((Some (mkExtendResult true
                      (Some (clock vault_world (ticks vault_world) + days 30)%Z)),
              repository'), w')
          /\ get_entry_by_id "uuid-0b0" store' = Some new
          /\ expires_at new = (clock vault_world (S (S (ticks vault_world))) + days 90)%Z
          /\ decrypt_password (L := SimpleLib.simple_lib) repository' new = Some "hunter2"
          /\ platform new = platform old /\ username new = username old
          /\ notes new = notes old /\ created_at new = created_at old)
    /\ extend_password_expiry (L := SimpleLib.simple_lib) repository "uuid-0b0" 3652059
         vault_world
       = ((None, repository), snd (read_clock vault_world)).
Proof.
  cbv zeta.
  assert (H1 : exists old, get_entry_by_id "uuid-0b0" vault_store = Some old
                 /\ decrypt_password (L := SimpleLib.simple_lib)
                      (mkDataRepository (Some vault_store) (Some "old")) old
                    = Some "hunter2").
  { eexists. split; vm_compute; reflexivity. }
  destruct H1 as (old & Hget & Hdec).
  exists old. split; [exact Hget|]. split; [exact Hdec|].
  split.
  - apply (extend_password_expiry_stores_90_days (L := SimpleLib.simple_lib) vault_store
             "old" "uuid-0b0" 30 vault_world old "hunter2" Hget Hdec).
    vm_compute. repeat split; discriminate.
  - apply (extend_password_expiry_stores_90_days (L := SimpleLib.simple_lib) vault_store
             "old" "uuid-0b0" 3652059 vault_world old "hunter2" Hget Hdec).
    vm_compute. intros (_ & _ & H). discriminate H.
Defined.

End PasswordManagerFacts.

(** * security/validator.py: the master password *)

Module ValidatorFacts.
Import Validator.

Lemma validate_master_password_empty :
  validate_master_password "" = mkMasterValidation false [MasterEmpty] [].
Proof. reflexivity. Qed.

Lemma is_valid_not_empty password :
  is_valid (validate_master_password password) = true -> password <> "".
Proof. intros H ->. discriminate H. Qed.

(** A password of fewer than 8 characters is not valid. *)
Lemma too_short_not_valid password :
  String.length password < 8 ->
  is_valid (validate_master_password password) = false
  /\ errors (validate_master_password password) <> [].
Proof.
  intros Hlen. unfold validate_master_password.
  destruct (String.eqb password ""); [split; [reflexivity | discriminate]|].
  destruct (Nat.ltb_spec (String.length password) 8) as [_|?]; [|lia].
  repeat match goal with
         | |- context [if ?b then _ else _] => destruct b
         end;
    (split; [reflexivity | discriminate]).
Qed.

End ValidatorFacts.

(** * core/authentication.py: the master password and the session *)

Module SessionFacts.
Import Models Repository Authentication AuthenticationSession Validator.
Import RepositoryFacts VaultFacts AuthenticationFacts ValidatorFacts.
#[local] Open Scope Z_scope.

Section WithLib.
Context {L : PyLib}.

(** [authenticate] on a service that is not locked, with a password that
    loads the vault. *)
Lemma authenticate_loaded self password w repository' w1 :
  _lockout_until self = None ->
  password <> "" ->
  load_database (repository self) password w = ((true, repository'), w1) ->
  authenticate self password w
  = ((mkAuthResult true false None None,
      mkAuth repository' true (Some (clock w1 (ticks w1)))
        (Some (clock w1 (S (ticks w1)))) 0 None),
     snd (read_clock (snd (read_clock w1)))).
Proof.
  intros Hnone Hpw Hload. unfold authenticate, is_locked_out. rewrite Hnone.
  apply String.eqb_neq in Hpw. rewrite Hpw, Hload. reflexivity.
Qed.

(** X19.  [create_master_password] with a password that
    [validate_master_password] accepts reports what
    [initialize_new_database] returned, which is success when no operation
    on the files goes wrong, and leaves the repository of the service
    loaded either way.  Whenever it reports success, [authenticate] with
    that password succeeds on a new service over any repository object of
    the vault, which is then authenticated. *)
Theorem create_master_password_then_authenticate (repo other : DataRepository)
    (password : string) (w : World) :
  is_valid (validate_master_password password) = true ->
  exists ok self1 w1,
    create_master_password (AuthenticationService_new repo) password w
    = ((mkPasswordResult ok None
          (if ok then Some (warnings (validate_master_password password)) else None),
        self1), w1)
    /\ is_loaded (repository self1) = true
    /\ (untroubled w -> ok = true)
    /\ (ok = true ->
        exists self2 w2,
          authenticate (AuthenticationService_new other) password w1
          = ((mkAuthResult true false None None, self2), w2)
          /\ is_authenticated self2 = true
          /\ _failed_attempts self2 = 0).
Proof.
  intros Hvalid. unfold create_master_password. rewrite Hvalid. cbn [negb].
  destruct (initialize_new_database_saved (repository (AuthenticationService_new repo))
              password w)
    as (ok & store & w1 & Hinit & _ & Hsealed & Hok & Hfile).
  rewrite Hinit. exists ok.
  destruct ok.
  - eexists _, w1. split; [reflexivity|]. split; [reflexivity|].
    split; [exact Hok|]. intros _.
    destruct (vault_reopens _ _ _ Hfile Hsealed other) as (w2 & Hload).
    rewrite (authenticate_loaded (AuthenticationService_new other) password w1
               (mkDataRepository (Some store) (Some password)) w2);
      [| reflexivity | now apply is_valid_not_empty | exact Hload].
    eexists _, _. split; [reflexivity|]. split; reflexivity.
  - eexists _, w1. split; [reflexivity|]. split; [reflexivity|].
    split; [exact Hok | discriminate].
Qed.

(** [create_master_password] with a password of fewer than 8
    characters fails with a list of errors that is not empty, and leaves
    the service and the environment, the files among it, as they were. *)
Lemma create_master_password_too_short (self : AuthenticationService) (password : string)
    (w : World) :
  (String.length password < 8)%nat ->
  exists errors_ warnings_,
    create_master_password self password w
    = ((mkPasswordResult false (Some errors_) (Some warnings_), self), w)
    /\ errors_ <> [].
Proof.
  intros Hlen. destruct (too_short_not_valid password Hlen) as [Hinvalid Herrors].
  unfold create_master_password. rewrite Hinvalid. cbn [negb].
  eexists _, _. split; [reflexivity | exact Herrors].
Qed.

(** X20.  A login clears the count of failed attempts: when, on a new
    service, two calls of [authenticate] fail, the third succeeds and the
    fourth fails, the passwords not being empty, that fourth call reports 2
    remaining attempts and the service is not locked. *)
Theorem success_clears_failed_attempts (repo : DataRepository) (p1 p2 p3 p4 : string)
    (w : World) (r1 r2 r3 r4 : AuthResult) (self : AuthenticationService) (w' : World) :
  p1 <> "" -> p2 <> "" -> p4 <> "" ->
  authenticate_all (AuthenticationService_new repo) [p1; p2; p3; p4] w
  = (([r1; r2; r3; r4], self), w') ->
  success r1 = false -> success r2 = false -> success r3 = true -> success r4 = false ->
  r2 = mkAuthResult false false None (Some 1)
  /\ r4 = mkAuthResult false false None (Some 2)
  /\ _failed_attempts self = 1
  /\ _lockout_until self = None.
Proof.
  intros Hp1 Hp2 Hp4. cbn [authenticate_all].
  destruct (authenticate (AuthenticationService_new repo) p1 w) as [[r1' s1] w1] eqn:E1.
  destruct (authenticate s1 p2 w1) as [[r2' s2] w2] eqn:E2.
  destruct (authenticate s2 p3 w2) as [[r3' s3] w3] eqn:E3.
  destruct (authenticate s3 p4 w3) as [[r4' s4] w4] eqn:E4.
  intros H Hr1 Hr2 Hr3 Hr4. inversion H; subst. clear H.
  assert (Hl0 : _lockout_until (AuthenticationService_new repo) = None) by reflexivity.
  destruct (authenticate_failed _ _ _ _ _ _ Hl0 Hp1 E1 Hr1) as (Hf1 & _ & Hl1).
  cbn in Hf1.
  destruct (authenticate_failed _ _ _ _ _ _ Hl1 Hp2 E2 Hr2) as (Hf2 & H2).
  rewrite Hf1 in Hf2, H2. cbn in Hf2, H2. destruct H2 as (Er2 & Hl2).
  (* the successful call *)
  assert (H3 : _failed_attempts s3 = 0 /\ _lockout_until s3 = None).
  { revert E3. unfold authenticate, is_locked_out. rewrite Hl2.
    destruct (String.eqb p3 "").
    - intros E; inversion E; subst. discriminate Hr3.
    - destruct (load_database (repository s2) p3 w2) as [[ok repo'] w2'].
      destruct ok.
      + unfold read_clock. cbn. intros E; inversion E; subst. split; reflexivity.
      + destruct (MAX_LOGIN_ATTEMPTS <=? _failed_attempts s2 + 1);
          unfold read_clock; cbn; intros E; inversion E; subst; discriminate Hr3. }
  destruct H3 as [Hf3 Hl3].
  destruct (authenticate_failed _ _ _ _ _ _ Hl3 Hp4 E4 Hr4) as (Hf4 & H4).
  rewrite Hf3 in Hf4, H4. cbn in Hf4, H4. destruct H4 as (Er4 & Hl4).
  auto.
Qed.

(** X21.  Once the lock has run out, [authenticate] does what it does
    after [reset_failed_attempts]: the count of failed attempts starts
    again, so that a password that is not empty and fails reports 2
    remaining attempts. *)
Theorem authenticate_after_lock_expired (self : AuthenticationService)
    (lockout_until : datetime) (password : string) (w : World) :
  _lockout_until self = Some lockout_until ->
  lockout_until <= clock w (ticks w) ->
  authenticate self password w
  = authenticate (reset_failed_attempts self) password (snd (read_clock w))
  /\ forall r self' w',
       authenticate self password w = ((r, self'), w') ->
       password <> "" -> success r = false ->
       r = mkAuthResult false false None (Some 2)
       /\ _failed_attempts self' = 1 /\ _lockout_until self' = None.
Proof.
  intros Hl Hle.
  assert (Heq : authenticate self password w
                = authenticate (reset_failed_attempts self) password (snd (read_clock w))).
  { unfold authenticate at 1. rewrite (is_locked_out_after self lockout_until w Hl Hle).
    unfold authenticate, is_locked_out, reset_failed_attempts. reflexivity. }
  split; [exact Heq|].
  intros r self' w' Hrun Hpw Hfail. rewrite Heq in Hrun.
  destruct (authenticate_failed _ _ _ _ _ _ (eq_refl : _lockout_until
              (reset_failed_attempts self) = None) Hpw Hrun Hfail) as (Hf & H).
  cbn in Hf, H. destruct H as [-> Hnone]. auto.
Qed.

End WithLib.

Lemma create_master_password_then_authenticate_sample :
  is_valid (validate_master_password "Str0ng-Pass") = true
  /\ exists self1 w1,
       create_master_password (L := SimpleLib.simple_lib)
         (AuthenticationService_new DataRepository_new) "Str0ng-Pass"
         ModelsFacts.sample_world
       = ((mkPasswordResult true None
             (Some (warnings (validate_master_password "Str0ng-Pass"))), self1), w1)
       /\ is_loaded (repository self1) = true
       /\ exists self2 w2,
            authenticate (L := SimpleLib.simple_lib)
              (AuthenticationService_new DataRepository_new) "Str0ng-Pass" w1
            = ((mkAuthResult true false None None, self2), w2)
            /\ is_authenticated self2 = true
            /\ _failed_attempts self2 = 0.
Proof.
  assert (H : is_valid (validate_master_password "Str0ng-Pass") = true)
    by (vm_compute; reflexivity).
  split; [exact H|].
  destruct (create_master_password_then_authenticate (L := SimpleLib.simple_lib)
              DataRepository_new DataRepository_new "Str0ng-Pass"
              ModelsFacts.sample_world H)
    as (ok & self1 & w1 & Hrun & Hloaded & Hok & Hauth).
  assert (Hu : untroubled ModelsFacts.sample_world) by (intros i _; reflexivity).
  rewrite (Hok Hu) in Hrun. exists self1, w1.
  split; [exact Hrun|]. split; [exact Hloaded|]. exact (Hauth (Hok Hu)).
Defined.

(** Two wrong passwords, the right one and a wrong one again, on the vault
    with the master password ["old"]. *)
Definition four_logins : (list AuthResult * AuthenticationService) * World :=
  authenticate_all (L := SimpleLib.simple_lib)
    (AuthenticationService_new DataRepository_new) ["x"; "y"; "old"; "z"] vault_world.

Definition login (i : nat) : AuthResult :=
  nth i (fst (fst four_logins)) (mkAuthResult false false None None).

Lemma success_clears_failed_attempts_sample :
  "x" <> "" /\ "y" <> "" /\ "z" <> ""
  /\ authenticate_all (L := SimpleLib.simple_lib)
       (AuthenticationService_new DataRepository_new) ["x"; "y"; "old"; "z"] vault_world
     = (([login 0; login 1; login 2; login 3], snd (fst four_logins)), snd four_logins)
  /\ success (login 0) = false /\ success (login 1) = false
  /\ success (login 2) = true /\ success (login 3) = false
  /\ login 1 = mkAuthResult false false None (Some 1)
  /\ login 3 = mkAuthResult false false None (Some 2)
  /\ _failed_attempts (snd (fst four_logins)) = 1
  /\ _lockout_until (snd (fst four_logins)) = None.
Proof.
  assert (Hx : "x" <> "") by discriminate.
  assert (Hy : "y" <> "") by discriminate.
  assert (Hz : "z" <> "") by discriminate.
  assert (Hrun : authenticate_all (L := SimpleLib.simple_lib)
                   (AuthenticationService_new DataRepository_new) ["x"; "y"; "old"; "z"]
                   vault_world
                 = (([login 0; login 1; login 2; login 3], snd (fst four_logins)),
                    snd four_logins)) by (vm_compute; reflexivity).
  assert (H1 : success (login 0) = false) by (vm_compute; reflexivity).
  assert (H2 : success (login 1) = false) by (vm_compute; reflexivity).
  assert (H3 : success (login 2) = true) by (vm_compute; reflexivity).
  assert (H4 : success (login 3) = false) by (vm_compute; reflexivity).
  split; [exact Hx|]. split; [exact Hy|]. split; [exact Hz|].
  split; [exact Hrun|].
  split; [exact H1|]. split; [exact H2|]. split; [exact H3|]. split; [exact H4|].
  exact (success_clears_failed_attempts (L := SimpleLib.simple_lib) DataRepository_new
           "x" "y" "old" "z" vault_world (login 0) (login 1) (login 2) (login 3)
           (snd (fst four_logins)) (snd four_logins) Hx Hy Hz Hrun H1 H2 H3 H4).
Defined.

(** A service that was locked until the end of second 300, and the wrong
    password at second 400. *)
Definition expired_lock : AuthenticationService :=
  mkAuth DataRepository_new false None None 3 (Some (seconds 300)).

Definition second_400 : World :=
  mkWorld CryptoFacts.sample_entropy (fun n => seconds (400 + Z.of_nat n)) 0
    (fun n => "") 0 (fun _ => None) (fun _ => None) 0.

Lemma authenticate_after_lock_expired_sample :
  _lockout_until expired_lock = Some (seconds 300)
  /\ seconds 300 <= clock second_400 (ticks second_400)
  /\ authenticate (L := SimpleLib.simple_lib) expired_lock "wrong" second_400
     = authenticate (L := SimpleLib.simple_lib) (reset_failed_attempts expired_lock)
         "wrong" (snd (read_clock second_400))
  /\ forall r self' w',
       authenticate (L := SimpleLib.simple_lib) expired_lock "wrong" second_400
       = ((r, self'), w') ->
       "wrong" <> "" -> success r = false ->
       r = mkAuthResult false false None (Some 2)
       /\ _failed_attempts self' = 1 /\ _lockout_until self' = None.
Proof.
  assert (H1 : _lockout_until expired_lock = Some (seconds 300)) by reflexivity.
  assert (H2 : seconds 300 <= clock second_400 (ticks second_400))
    by (vm_compute; discriminate).
  split; [exact H1|]. split; [exact H2|].
  exact (authenticate_after_lock_expired (L := SimpleLib.simple_lib) expired_lock
           (seconds 300) "wrong" second_400 H1 H2).
Defined.

(** On a disk that takes no file, [create_master_password] reports the
    failure; the repository of the service is loaded all the same, no vault
    file is there, and [authenticate] on a new service fails. *)
Example create_master_password_refused :
  let result := create_master_password (L := SimpleLib.simple_lib)
                  (AuthenticationService_new DataRepository_new) "Str0ng-Pass"
                  VaultFacts.refusing_disk in
  fst (fst result) = mkPasswordResult false None None
  /\ is_loaded (repository (snd (fst result))) = true
  /\ files (snd result) DataFile = None
  /\ fst (fst (authenticate (L := SimpleLib.simple_lib)
                 (AuthenticationService_new DataRepository_new) "Str0ng-Pass"
                 (snd result)))
     = mkAuthResult false false None (Some 2%Z).
Proof. vm_compute. repeat split. Qed.

End SessionFacts.

(** * security/password_generator.py and security/validator.py: generated
      passwords, their strength and their validity *)

Module StrengthFacts.
Import PasswordGenerator PasswordGeneratorFacts PasswordStrength Validator PyTextFacts.

(** What [generate_password] returns when all four classes are asked
    for. *)
Lemma generate_password_all_classes (length : Z) (r : PyRandom) :
  (4 <= length)%Z ->
  exists password,
    fst (generate_password length true true true true r) = Some password
    /\ Z.of_nat (String.length password) = length
    /\ (exists c, c ∈ chars password /\ c ∈ chars lowercase)
    /\ (exists c, c ∈ chars password /\ c ∈ chars uppercase)
    /\ (exists c, c ∈ chars password /\ c ∈ chars digits)
    /\ (exists c, c ∈ chars password /\ c ∈ chars symbols)
    /\ (forall c, c ∈ chars password -> c ∈ enabled_pools true true true true).
Proof.
  intros Hlen. unfold generate_password.
  destruct (Z.ltb_spec length 4) as [?|_]; [lia|].
  destruct (add_class_spec true lowercase "" [] r) as
    (cs1 & rq1 & r1 & E1 & -> & c1 & -> & Hc1); [discriminate|]. rewrite E1.
  destruct (add_class_spec true uppercase ("" +:+ lowercase) ([] ++ [c1]) r1) as
    (cs2 & rq2 & r2 & E2 & -> & c2 & -> & Hc2); [discriminate|]. rewrite E2.
  destruct (add_class_spec true digits (("" +:+ lowercase) +:+ uppercase)
              (([] ++ [c1]) ++ [c2]) r2) as
    (cs3 & rq3 & r3 & E3 & -> & c3 & -> & Hc3); [discriminate|]. rewrite E3.
  destruct (add_class_spec true symbols ((("" +:+ lowercase) +:+ uppercase) +:+ digits)
              ((([] ++ [c1]) ++ [c2]) ++ [c3]) r3) as
    (cs4 & rq4 & r4 & E4 & -> & c4 & -> & Hc4); [discriminate|]. rewrite E4.
  clear E1 E2 E3 E4.
  set (charset := (((("" +:+ lowercase) +:+ uppercase) +:+ digits) +:+ symbols)%string).
  set (required := [c1; c2; c3; c4]).
  change (((([] ++ [c1]) ++ [c2]) ++ [c3]) ++ [c4]) with required.
  assert (Hcs : chars charset = enabled_pools true true true true) by reflexivity.
  assert (Hne : chars charset <> []) by discriminate.
  assert (Hnes : String.eqb charset "" = false) by reflexivity.
  rewrite Hnes.
  assert (Hrq : Forall (fun c => c ∈ chars charset) required).
  { rewrite Hcs. unfold enabled_pools, required.
    repeat apply Forall_cons_2; [..|apply Forall_nil_2];
      rewrite !elem_of_app; tauto. }
  change (List.length required) with 4.
  assert (Hext : exists l r',
             (if (0 <? length - Z.of_nat 4)%Z
              then match random_chars (Z.to_nat (length - Z.of_nat 4))
                           (list_ascii_of_string charset) r4 with
                   | (Some cs, r') => (Some (required ++ cs), r')
                   | (None, r') => (None, r')
                   end
              else (Some required, r4)) = (Some l, r')
             /\ Z.of_nat (List.length l) = length
             /\ Forall (fun c => c ∈ chars charset) l
             /\ forall c, c ∈ required -> c ∈ l).
  { destruct (Z.ltb_spec 0 (length - Z.of_nat 4)) as [Hpos|Hzero].
    - destruct (random_chars_spec (Z.to_nat (length - Z.of_nat 4))
                  (chars charset) r4 Hne) as (cs & Ecs & Hcslen & Hcsin).
      fold (chars charset). rewrite Ecs. eexists _, _. split; [reflexivity|].
      split; [rewrite length_app; simpl; lia|].
      split; [now apply Forall_app|].
      intros c Hc. apply elem_of_app. now left.
    - exists required, r4. split; [reflexivity|]. split; [simpl; lia|]. auto. }
  destruct Hext as (l & r' & El & Hllen & Hlin & Hlrq). rewrite El.
  rewrite (BytesFacts.slice_to_length l length) by lia.
  destruct (shuffle l r') as [shuffled r''] eqn:Esh.
  pose proof (shuffle_Permutation l r') as Hperm. rewrite Esh in Hperm. simpl in Hperm.
  exists (string_of_list_ascii shuffled). cbn [fst].
  split; [reflexivity|].
  rewrite chars_string_of_list.
  assert (Hmem : forall c, c ∈ shuffled <-> c ∈ l) by (intros c; now rewrite Hperm).
  split.
  { rewrite <- length_chars, chars_string_of_list, Hperm. exact Hllen. }
  assert (Hreq : forall c, c ∈ required -> c ∈ shuffled)
    by (intros c Hc; apply Hmem, Hlrq, Hc).
  split; [exists c1; split; [apply Hreq; unfold required; rewrite !elem_of_cons; auto
                            | exact Hc1]|].
  split; [exists c2; split; [apply Hreq; unfold required; rewrite !elem_of_cons; auto
                            | exact Hc2]|].
  split; [exists c3; split; [apply Hreq; unfold required; rewrite !elem_of_cons; auto
                            | exact Hc3]|].
  split; [exists c4; split; [apply Hreq; unfold required; rewrite !elem_of_cons; auto
                            | exact Hc4]|].
  intros c Hc. rewrite <- Hcs. rewrite Forall_forall in Hlin. apply Hlin, Hmem, Hc.
Qed.

(** A test that holds for every character of a pool. *)
Lemma pool_forall (p : ascii -> bool) (pool : list ascii) :
  forallb p pool = true -> forall c, c ∈ pool -> p c = true.
Proof.
  intros H c Hc. rewrite forallb_forall in H. apply H. now apply list_elem_of_In.
Qed.

Lemma any_of_pool (p : ascii -> bool) (pool : list ascii) (s : string) :
  forallb p pool = true ->
  (exists c, c ∈ chars s /\ c ∈ pool) -> PyText.any p s = true.
Proof.
  intros Hpool (c & Hc & Hin). apply any_exists. exists c.
  split; [exact Hc | now apply (pool_forall p pool)].
Qed.

Lemma any_none (p : ascii -> bool) (s : string) :
  (forall c, c ∈ chars s -> p c = false) -> PyText.any p s = false.
Proof.
  intros H. apply not_true_is_false. intros Hany.
  apply any_exists in Hany as (c & Hc & Hp). rewrite (H c Hc) in Hp. discriminate.
Qed.

Lemma chars_lower (s : string) : chars (PyText.lower s) = map PyText.lower_char (chars s).
Proof. unfold chars. induction s as [|c s IH]; simpl; [reflexivity | now rewrite IH]. Qed.

(** A password with one of the generator's symbols is none of the weak
    passwords, whatever its case. *)
Lemma symbol_not_weak (s : string) :
  (exists c, c ∈ chars s /\ c ∈ chars symbols) ->
  existsb (String.eqb (PyText.lower s)) weak_passwords = false.
Proof.
  intros (c & Hc & Hsym). apply not_true_is_false. intros Hex.
  apply existsb_exists in Hex as (weak & Hweak & Heq).
  apply String.eqb_eq in Heq.
  assert (Hin : PyText.lower_char c ∈ chars weak).
  { rewrite <- Heq, chars_lower. now apply list_elem_of_fmap_2. }
  assert (Hfix : PyText.lower_char c = c).
  { apply (pool_forall (fun c => Ascii.eqb (PyText.lower_char c) c) (chars symbols)) in Hsym;
      [now apply Ascii.eqb_eq | vm_compute; reflexivity]. }
  rewrite Hfix in Hin.
  assert (Hnone : forallb (fun weak => forallb (fun c => negb (existsb (Ascii.eqb c)
                     (chars symbols))) (chars weak)) weak_passwords = true)
    by (vm_compute; reflexivity).
  rewrite forallb_forall in Hnone. specialize (Hnone weak Hweak).
  apply (pool_forall _ _ Hnone) in Hin. apply negb_true_iff in Hin.
  assert (Hyes : existsb (Ascii.eqb c) (chars symbols) = true).
  { apply existsb_exists. exists c. split; [now apply list_elem_of_In | apply Ascii.eqb_refl]. }
  congruence.
Qed.

Lemma length_not_empty (s : string) : 0 < String.length s -> String.eqb s "" = false.
Proof. destruct s; simpl; [lia | reflexivity]. Qed.

(** X22.  Every password that [generate_password] makes with all four
    classes and a length from 8 to 128 passes [validate_master_password]
    without an error, and [validate_password] too. *)
Theorem generated_password_is_valid (length : Z) (r : PyRandom) :
  (8 <= length <= 128)%Z ->
  exists password,
    fst (generate_password length true true true true r) = Some password
    /\ is_valid (validate_master_password password) = true
    /\ errors (validate_master_password password) = []
    /\ validate_password password = (true, []).
Proof.
  intros Hlen.
  destruct (generate_password_all_classes length r ltac:(lia))
    as (password & Hgen & Hl & Hlow & Hup & Hdig & Hsym & Hall).
  exists password. split; [exact Hgen|].
  assert (Hne : String.eqb password "" = false) by (apply length_not_empty; lia).
  assert (H8 : (String.length password <? 8)%nat = false) by (apply Nat.ltb_ge; lia).
  assert (H128 : (128 <? String.length password)%nat = false) by (apply Nat.ltb_ge; lia).
  assert (H1 : (String.length password <? 1)%nat = false) by (apply Nat.ltb_ge; lia).
  assert (H500 : (500 <? String.length password)%nat = false) by (apply Nat.ltb_ge; lia).
  assert (Hlower : PyText.any PyText.islower password = true)
    by (apply (any_of_pool _ (chars lowercase)); [vm_compute; reflexivity | exact Hlow]).
  assert (Hupper : PyText.any PyText.isupper password = true)
    by (apply (any_of_pool _ (chars uppercase)); [vm_compute; reflexivity | exact Hup]).
  assert (Hdigit : PyText.any PyText.isdigit password = true)
    by (apply (any_of_pool _ (chars digits)); [vm_compute; reflexivity | exact Hdig]).
  assert (Hsymbol : PyText.any (fun c => PyText.contains_char c master_symbols) password
                    = true)
    by (apply (any_of_pool _ (chars symbols)); [vm_compute; reflexivity | exact Hsym]).
  assert (Hweak : existsb (String.eqb (PyText.lower password)) weak_passwords = false)
    by (apply symbol_not_weak; exact Hsym).
  assert (Hprint : PyText.any (fun char => negb (PyText.contains_char char printable_chars))
                     password = false).
  { apply any_none. intros c Hc. apply negb_false_iff.
    apply (pool_forall (fun c => PyText.contains_char c printable_chars)
             (enabled_pools true true true true));
      [vm_compute; reflexivity | apply Hall, Hc]. }
  unfold validate_master_password, validate_password.
  rewrite Hne, H8, H128, H1, H500, Hlower, Hupper, Hdigit, Hsymbol, Hweak, Hprint.
  change (count_true [true; true; true; true]) with 4%Z.
  cbn. repeat split.
Qed.

Lemma count_true_bounds (l : list bool) : (0 <= count_true l <= Z.of_nat (length l))%Z.
Proof.
  unfold count_true. split; [lia|].
  apply inj_le. induction l as [|b l IH]; simpl; [lia|].
  destruct b; simpl; lia.
Qed.

Lemma level_of_medium (score : Z) :
  (40 <= score)%Z -> level_of score ∈ [VeryStrong; Strong; Medium].
Proof.
  intros H. unfold level_of.
  destruct (80 <=? score)%Z; [rewrite !elem_of_cons; auto|].
  destruct (60 <=? score)%Z; [rewrite !elem_of_cons; auto|].
  destruct (Z.leb_spec 40 score); [rewrite !elem_of_cons; auto | lia].
Qed.

(** X23.  The score of [calculate_strength] is between 0 and 95, so that
    the limit of 100 is never reached; the feedback is never empty; and the
    level is 无密码 for the empty password only. *)
Theorem calculate_strength_bounds (password : string) :
  (0 <= score (calculate_strength password) <= 95)%Z
  /\ feedback (calculate_strength password) <> []
  /\ (level (calculate_strength password) = NoPassword <-> password = "").
Proof.
  destruct (String.eqb_spec password "") as [->|Hne].
  { split; [simpl; lia|]. split; [discriminate | tauto]. }
  apply String.eqb_neq in Hne.
  pose proof (count_true_bounds
                [PyText.any PyText.islower password; PyText.any PyText.isupper password;
                 PyText.any PyText.isdigit password;
                 PyText.any (fun c => PyText.contains_char c symbols) password]) as Hct.
  cbn [length Z.of_nat Pos.of_succ_nat Pos.succ] in Hct.
  assert (Hfb : forall f : list Feedback,
            match f with [] => [GoodStrength] | _ :: _ => f end <> [])
    by (intros [|? ?]; discriminate).
  assert (Hlevel : forall s, level_of s = NoPassword <-> False).
  { intros s. unfold level_of.
    repeat match goal with |- context [if ?b then _ else _] => destruct b end;
      split; (discriminate || tauto). }
  apply String.eqb_neq in Hne.
  assert (Hne' : String.eqb password "" = false) by now apply String.eqb_neq.
  unfold calculate_strength. rewrite Hne'. cbv zeta.
  set (ct := count_true _) in *.
  destruct (12 <=? String.length password)%nat;
  [| destruct (8 <=? String.length password)%nat;
     [| destruct (6 <=? String.length password)%nat ] ];
  (destruct (PyText.distinct_chars password =? String.length password)%nat;
   [| destruct (PrimFloat.leb _ _) ]);
  destruct (find _ common_patterns);
  destruct (3 <=? PyText.count_pairs _ password)%nat;
  destruct (2 <=? PyText.count_pairs Ascii.eqb password)%nat;
  cbn [score level feedback];
  (split; [lia|]); (split; [apply Hfb|]);
  rewrite Hlevel; (split; [tauto | intros ->; discriminate Hne']).
Qed.

(** X24.  Every password that [generate_password] makes with all four
    classes and a length of at least 12 has a score of at least 45, and a
    level of 中等, 强 or 很强. *)
Theorem generated_password_strength (length : Z) (r : PyRandom) :
  (12 <= length)%Z ->
  exists password,
    fst (generate_password length true true true true r) = Some password
    /\ (45 <= score (calculate_strength password))%Z
    /\ level (calculate_strength password) ∈ [VeryStrong; Strong; Medium].
Proof.
  intros Hlen.
  destruct (generate_password_all_classes length r ltac:(lia))
    as (password & Hgen & Hl & Hlow & Hup & Hdig & Hsym & Hall).
  exists password. split; [exact Hgen|].
  assert (Hne : String.eqb password "" = false) by (apply length_not_empty; lia).
  assert (H12 : (12 <=? String.length password)%nat = true) by (apply Nat.leb_le; lia).
  assert (Hlower : PyText.any PyText.islower password = true)
    by (apply (any_of_pool _ (chars lowercase)); [vm_compute; reflexivity | exact Hlow]).
  assert (Hupper : PyText.any PyText.isupper password = true)
    by (apply (any_of_pool _ (chars uppercase)); [vm_compute; reflexivity | exact Hup]).
  assert (Hdigit : PyText.any PyText.isdigit password = true)
    by (apply (any_of_pool _ (chars digits)); [vm_compute; reflexivity | exact Hdig]).
  assert (Hsymbol : PyText.any (fun c => PyText.contains_char c symbols) password = true)
    by (apply (any_of_pool _ (chars symbols)); [vm_compute; reflexivity | exact Hsym]).
  unfold calculate_strength. rewrite Hne, H12, Hlower, Hupper, Hdigit, Hsymbol. cbv zeta.
  change (count_true [true; true; true; true]) with 4%Z.
  (destruct (PyText.distinct_chars password =? String.length password)%nat;
   [| destruct (PrimFloat.leb _ _) ]);
  destruct (find _ common_patterns);
  destruct (3 <=? PyText.count_pairs _ password)%nat;
  destruct (2 <=? PyText.count_pairs Ascii.eqb password)%nat;
  cbn [score level feedback];
  (split; [lia | apply level_of_medium; lia]).
Qed.

Lemma generated_password_is_valid_16 :
  (8 <= 16 <= 128)%Z
  /\ exists password,
       fst (generate_password 16 true true true true sample_random) = Some password
       /\ is_valid (validate_master_password password) = true
       /\ errors (validate_master_password password) = []
       /\ validate_password password = (true, []).
Proof.
  assert (H : (8 <= 16 <= 128)%Z) by lia.
  split; [exact H|].
  exact (generated_password_is_valid 16 sample_random H).
Defined.

Lemma generated_password_strength_16 :
  (12 <= 16)%Z
  /\ exists password,
       fst (generate_password 16 true true true true sample_random) = Some password
       /\ (45 <= score (calculate_strength password))%Z
       /\ level (calculate_strength password) ∈ [VeryStrong; Strong; Medium].
Proof.
  assert (H : (12 <= 16)%Z) by lia.
  split; [exact H|].
  exact (generated_password_strength 16 sample_random H).
Defined.

End StrengthFacts.

(** * src/models/data_models.py: the lists of a result and the checks of
      the configurations *)

Module DataModelsChecksFacts.
Import DataModels DataModelsChecks DataModelsFacts FilterFacts PyTextFacts.

Lemma filter_partition {A} (p : A -> bool) (l : list A) :
  List.filter p l ++ List.filter (fun x => negb (p x)) l ≡ₚ l.
Proof.
  induction l as [|x l IH]; simpl; [reflexivity|].
  destruct (p x); simpl.
  - now rewrite IH.
  - rewrite <- Permutation_middle. now rewrite IH.
Qed.

(** The list that [__post_init__] counts is the one [get_occupied_ports]
    returns. *)
Lemma filter_is_occupied (l : list PortInfo) :
  filter (fun p => is_occupied p = true) l = List.filter is_occupied l.
Proof.
  induction l as [|x l IH]; [reflexivity|].
  rewrite filter_cons. simpl. destruct (decide (is_occupied x = true)) as [E|E].
  - rewrite E, IH. reflexivity.
  - apply not_true_is_false in E. rewrite E, IH. reflexivity.
Qed.

(** X25.  [get_occupied_ports] and [get_free_ports] split the ports of a
    result between them, each in the order of the scan, and their lengths
    are the two counts of the result. *)
Theorem occupied_and_free_ports (scan_time : datetime) (scan_type : ScanType + string)
    (port_info_list : list PortInfo) (success : bool) (error_message : string)
    (scan_duration : float) (total occupied : Z) (remote_config : option RemoteConfig) :
  let r := ScanResult_new scan_time scan_type port_info_list success error_message
             scan_duration total occupied remote_config in
  get_occupied_ports r ++ get_free_ports r ≡ₚ port_info_list
  /\ sublist (get_occupied_ports r) port_info_list
  /\ sublist (get_free_ports r) port_info_list
  /\ (forall port, port ∈ get_occupied_ports r -> port ∉ get_free_ports r)
  /\ Z.of_nat (length (get_occupied_ports r)) = occupied_ports r
  /\ Z.of_nat (length (get_free_ports r)) = free_ports r.
Proof.
  cbv zeta. unfold get_occupied_ports, get_free_ports, free_ports, ScanResult_new.
  cbn [DataModels.port_info_list total_ports occupied_ports].
  rewrite filter_is_occupied.
  split; [apply filter_partition|].
  split; [apply filter_sublist|]. split; [apply filter_sublist|].
  split.
  { intros port H1 H2. apply elem_of_filter_bool in H1 as [_ H1].
    apply elem_of_filter_bool in H2 as [_ H2]. rewrite H1 in H2. discriminate. }
  split; [reflexivity|].
  pose proof (length_filter_negb is_occupied port_info_list). lia.
Qed.

Lemma filter_all {A} (P : A -> Prop) `{!forall x, Decision (P x)} (l : list A) :
  Forall P l -> filter P l = l.
Proof.
  induction 1 as [|x l Hx _ IH]; [reflexivity|].
  rewrite filter_cons_True by exact Hx. now rewrite IH.
Qed.

Lemma sorted_set_le (l : list Z) : StronglySorted Z.le (sorted_set l).
Proof. apply (StronglySorted_merge_sort Z.le). Qed.

Lemma sorted_set_NoDup (l : list Z) : NoDup (sorted_set l).
Proof.
  unfold sorted_set. rewrite merge_sort_Permutation. apply NoDup_remove_dups.
Qed.

(** [sorted(list(set(l)))] of a list that is sorted and has no
    duplicates is that list. *)
Lemma sorted_set_idempotent (l : list Z) : sorted_set (sorted_set l) = sorted_set l.
Proof.
  apply (StronglySorted_unique Z.le); [apply sorted_set_le.. |].
  unfold sorted_set at 1. rewrite merge_sort_Permutation.
  apply NoDup_Permutation; [apply NoDup_remove_dups | apply sorted_set_NoDup |].
  intros x. apply elem_of_remove_dups.
Qed.

(** A list of integers between two bounds that goes strictly up is no
    longer than the bounds allow. *)
Lemma sorted_length_bound (l : list Z) (lo hi : Z) :
  StronglySorted Z.lt l -> Forall (fun x => lo <= x <= hi)%Z l -> (lo <= hi + 1)%Z ->
  (Z.of_nat (length l) <= hi - lo + 1)%Z.
Proof.
  intros Hs. revert lo. induction Hs as [|x l Hs IH Hx]; intros lo Hb Hlo; simpl.
  - lia.
  - apply Forall_cons in Hb as [Hxb Hb].
    assert (Hb' : Forall (fun y => x + 1 <= y <= hi)%Z l).
    { rewrite Forall_forall in *. intros y Hy. specialize (Hb y Hy).
      specialize (Hx y Hy). lia. }
    specialize (IH (x + 1)%Z Hb' ltac:(lia)). lia.
Qed.

(** X26.  What [ScanConfig.__post_init__] leaves: between 1 and 200
    threads, a timeout that is not 0 or below, at most 65535 ports; and a
    configuration made of the fields of a configuration is that
    configuration again. *)
Theorem ScanConfig_new_normal_form (ports : list Z) (scan_type : ScanType)
    (timeout : float) (threads : Z) (protocols_ : option (list Protocol))
    (remote_config : option RemoteConfig) :
  let c := ScanConfig_new ports scan_type timeout threads protocols_ remote_config in
  (1 <= max_threads c <= 200)%Z
  /\ PrimFloat.leb (sc_timeout c) 0%float = false
  /\ (port_count c <= 65535)%Z
  /\ ScanConfig_new (port_range c) (sc_scan_type c) (sc_timeout c) (max_threads c)
       (Some (protocols c)) (sc_remote_config c) = c.
Proof.
  cbv zeta. unfold ScanConfig_new, port_count.
  cbn [port_range sc_scan_type sc_timeout max_threads protocols sc_remote_config default].
  set (valid := filter (fun port => (1 <= port <= 65535)%Z) ports).
  assert (Hvalid : Forall (fun port => (1 <= port <= 65535)%Z) (sorted_set valid)).
  { apply Forall_forall. intros x Hx. apply (proj1 (elem_of_sorted_set _ _)) in Hx.
    unfold valid in Hx. apply list_elem_of_filter in Hx. tauto. }
  assert (Hthreads :
    forall t, let t' := if (t <=? 0)%Z then 50%Z else if (200 <? t)%Z then 200%Z else t in
              (1 <= t' <= 200)%Z
              /\ (if (t' <=? 0)%Z then 50%Z else if (200 <? t')%Z then 200%Z else t') = t').
  { intros t. cbv zeta.
    destruct (Z.leb_spec t 0); [split; [lia | reflexivity]|].
    destruct (Z.ltb_spec 200 t); [split; [lia | reflexivity]|].
    split; [lia|].
    destruct (Z.leb_spec t 0); [lia|]. destruct (Z.ltb_spec 200 t); [lia | reflexivity]. }
  destruct (Hthreads threads) as [Hrange Hsame].
  assert (Htimeout :
    let t' := if PrimFloat.leb timeout 0%float then 1%float else timeout in
    PrimFloat.leb t' 0%float = false
    /\ (if PrimFloat.leb t' 0%float then 1%float else t') = t').
  { cbv zeta. destruct (PrimFloat.leb timeout 0%float) eqn:E.
    - split; reflexivity.
    - rewrite E. split; reflexivity. }
  destruct Htimeout as [Hpos Hsamet].
  split; [exact Hrange|]. split; [exact Hpos|].
  split.
  { pose proof (sorted_length_bound (sorted_set valid) 1 65535
                  (sorted_set_sorted valid) Hvalid ltac:(lia)). lia. }
  rewrite Hsame, Hsamet, (filter_all _ _ Hvalid), sorted_set_idempotent. reflexivity.
Qed.

(** [RemoteConfig(...)] raises exactly when the port is not between
    1 and 65535.  Otherwise the profile has that port, a timeout above 0
    (the one given, or 10), and a name that is not empty (the one given, or
    user@host). *)
Lemma RemoteConfig_new_invariants (host_ username_ password_ private_key_path_ : string)
    (port_ timeout_ : Z) (name_ : string) :
  match RemoteConfig_new host_ username_ password_ private_key_path_ port_ timeout_ name_ with
  | Some c =>
      (1 <= port_ <= 65535)%Z
      /\ host c = host_ /\ username c = username_ /\ password c = password_
      /\ private_key_path c = private_key_path_ /\ ssh_port c = port_
      /\ (0 < DataModels.timeout c)%Z
      /\ DataModels.timeout c = (if (timeout_ <=? 0)%Z then 10%Z else timeout_)
      /\ name c <> ""
      /\ name c = (if String.eqb name_ "" then username_ +:+ "@" +:+ host_ else name_)
  | None => ~ (1 <= port_ <= 65535)%Z
  end.
Proof.
  unfold RemoteConfig_new.
  destruct (Z.leb_spec 1 port_); destruct (Z.leb_spec port_ 65535); cbn [andb negb];
    try lia.
  cbn [host username password private_key_path ssh_port DataModels.timeout name].
  split; [lia|]. repeat (split; [reflexivity|]).
  split; [destruct (Z.leb_spec timeout_ 0); lia|]. split; [reflexivity|].
  split; [|reflexivity].
  destruct (String.eqb_spec name_ "") as [_|Hne]; [|exact Hne].
  intros Hnil. apply append_eq_nil in Hnil as [_ Hnil].
  apply append_eq_nil in Hnil as [Hnil _]. discriminate Hnil.
Qed.

End DataModelsChecksFacts.

(** * src/utils/config.py: the file of the remote profiles *)

Module ConfigFilesFacts.
Import DataModels DataModelsChecks ConfigManager ConfigFiles ConfigManagerFacts.
Import DataModelsChecksFacts.

(** What [__post_init__] makes sure of when a profile is built. *)
Definition well_formed (c : RemoteConfig) : Prop :=
  (1 <= ssh_port c <= 65535)%Z /\ (0 < timeout c)%Z /\ name c <> "".

(** The host and user that [add_remote_config] and [remove_remote_config]
    tell profiles apart by. *)
Definition server (c : RemoteConfig) : string * string := (host c, username c).

Lemma RemoteConfig_new_well_formed c :
  well_formed c ->
  RemoteConfig_new (host c) (username c) (password c) (private_key_path c) (ssh_port c)
    (timeout c) (name c) = Some c.
Proof.
  intros (Hport & Htimeout & Hname). unfold RemoteConfig_new.
  apply String.eqb_neq in Hname. rewrite Hname.
  destruct (Z.leb_spec 1 (ssh_port c)); [|lia].
  destruct (Z.leb_spec (ssh_port c) 65535); [|lia]. cbn [andb negb].
  destruct (Z.leb_spec (timeout c) 0); [lia|]. now destruct c.
Qed.

Lemma RemoteConfig_of_item_asdict c :
  well_formed c -> RemoteConfig_of_item (JDict (asdict c)) = Some c.
Proof.
  intros Hwf. unfold RemoteConfig_of_item, asdict.
  unfold Models.only_keys, Models.required, Models.defaulted. cbn.
  now apply RemoteConfig_new_well_formed.
Qed.

Lemma RemoteConfig_of_item_well_formed item c :
  RemoteConfig_of_item item = Some c -> well_formed c.
Proof.
  unfold RemoteConfig_of_item. destruct item as [| | | | |d]; try discriminate.
  destruct (Models.only_keys _ d); [|discriminate].
  destruct (Models.required as_str "host" d) as [h|]; [|discriminate].
  destruct (Models.required as_str "username" d) as [u|]; [|discriminate].
  destruct (Models.defaulted as_str "" "password" d) as [p|]; [|discriminate].
  destruct (Models.defaulted as_str "" "private_key_path" d) as [k|]; [|discriminate].
  destruct (Models.defaulted as_int 22%Z "port" d) as [port_|]; [|discriminate].
  destruct (Models.defaulted as_int 10%Z "timeout" d) as [t|]; [|discriminate].
  destruct (Models.defaulted as_str "" "name" d) as [n|]; [|discriminate].
  cbn [mbind option_bind]. intros Hnew.
  pose proof (RemoteConfig_new_invariants h u p k port_ t n) as Hinv.
  rewrite Hnew in Hinv. destruct Hinv as (Hport & _ & _ & _ & _ & Hp & Ht & _ & Hn & _).
  unfold well_formed. rewrite Hp. auto.
Qed.

Lemma without_password_well_formed c : well_formed c -> well_formed (without_password c).
Proof. intros H. exact H. Qed.

Lemma omap_config_dicts configs :
  Forall well_formed configs ->
  omap RemoteConfig_of_item (config_dicts configs) = map without_password configs.
Proof.
  intros Hwf. rewrite config_dicts_without_password.
  induction Hwf as [|c l Hc _ IH]; [reflexivity|].
  change (omap RemoteConfig_of_item
            (map (fun c => JDict (asdict (without_password c))) (c :: l)))
    with (match RemoteConfig_of_item (JDict (asdict (without_password c))) with
          | Some y => y :: omap RemoteConfig_of_item
                             (map (fun c => JDict (asdict (without_password c))) l)
          | None => omap RemoteConfig_of_item
                      (map (fun c => JDict (asdict (without_password c))) l)
          end).
  rewrite RemoteConfig_of_item_asdict by exact Hc.
  rewrite IH. reflexivity.
Qed.

Section WithLib.
Context {L : PyLib}.

(** Reading back the file that [save_remote_configs] wrote. *)
Lemma load_saved configs file :
  Forall well_formed configs ->
  exists content,
    save_remote_configs configs None file = (true, Some content)
    /\ load_remote_configs false (Some content) = Some (map without_password configs).
Proof.
  intros Hwf. unfold save_remote_configs. eexists. split; [reflexivity|].
  unfold load_remote_configs. rewrite json_loads_dumps. cbn [dict_get String.eqb].
  cbn. rewrite omap_config_dicts by exact Hwf. reflexivity.
Qed.

Lemma load_well_formed io_error file configs :
  load_remote_configs io_error file = Some configs -> Forall well_formed configs.
Proof.
  unfold load_remote_configs.
  destruct file as [content|]; [|intros [= <-]; constructor].
  destruct io_error; [intros [= <-]; constructor|].
  destruct (json_loads content) as [[| | | | |d]|]; try discriminate;
    [|intros [= <-]; constructor].
  destruct (default (JList []) (dict_get "remote_servers" d)) as [| | | |items|];
    try discriminate; try (intros [= <-]; constructor).
  intros [= <-]. apply Forall_forall. intros c Hc.
  apply list_elem_of_omap in Hc as (item & _ & Hitem).
  eapply RemoteConfig_of_item_well_formed, Hitem.
Qed.

(** X27.  [load_remote_configs] of the file that [save_remote_configs]
    wrote for profiles as the constructor leaves them gives those
    profiles, in their order, each without its password: none of them has
    password authentication, and only those with a key path pass
    [validate]. *)
Theorem save_then_load_remote_configs (configs : list RemoteConfig)
    (remote_config_file : option string) :
  Forall well_formed configs ->
  exists content loaded,
    save_remote_configs configs None remote_config_file = (true, Some content)
    /\ load_remote_configs false (Some content) = Some loaded
    /\ loaded = map without_password configs
    /\ forall c, c ∈ loaded ->
         has_password_auth c = false /\ (validate c = true -> has_key_auth c = true).
Proof.
  intros Hwf. destruct (load_saved configs remote_config_file Hwf) as (content & Hs & Hl).
  exists content, (map without_password configs).
  split; [exact Hs|]. split; [exact Hl|]. split; [reflexivity|].
  intros c Hc. apply list_elem_of_fmap in Hc as (c0 & -> & _).
  unfold has_password_auth, validate, has_password_auth, without_password.
  cbn [password host username private_key_path]. split; [reflexivity|].
  destruct (String.eqb (host c0) "" || String.eqb (username c0) ""); [discriminate|].
  cbn [negb orb String.eqb]. auto.
Qed.

Lemma update_existing_spec config configs :
  well_formed config -> Forall well_formed configs ->
  match update_existing config configs with
  | Some configs' =>
      server config ∈ map server configs
      /\ map server configs' = map server configs
      /\ Forall well_formed configs'
      /\ without_password config ∈ map without_password configs'
  | None => server config ∉ map server configs
  end.
Proof.
  intros Hc Hall. induction Hall as [|x l Hx Hl IH]; cbn [update_existing].
  - apply not_elem_of_nil.
  - unfold same_server.
    destruct (String.eqb_spec (host x) (host config)) as [Eh|Eh];
      [destruct (String.eqb_spec (username x) (username config)) as [Eu|Eu]|];
      cbn [andb].
    + split; [apply elem_of_cons; left; unfold server; congruence|].
      split; [reflexivity|]. split.
      * apply Forall_cons. split; [exact Hc | exact Hl].
      * apply elem_of_cons. left. unfold without_password. cbn. now rewrite Eh, Eu.
    + destruct (update_existing config l) as [l'|]; cbn [fmap option_fmap option_map].
      * destruct IH as (Hin & Hmap & Hwf & Hmem).
        split; [apply elem_of_cons; now right|].
        split; [cbn [map]; now rewrite Hmap|].
        split; [apply Forall_cons; split; assumption|].
        cbn [map]. apply elem_of_cons. now right.
      * cbn [map]. apply not_elem_of_cons. split; [unfold server; congruence | exact IH].
    + destruct (update_existing config l) as [l'|]; cbn [fmap option_fmap option_map].
      * destruct IH as (Hin & Hmap & Hwf & Hmem).
        split; [apply elem_of_cons; now right|].
        split; [cbn [map]; now rewrite Hmap|].
        split; [apply Forall_cons; split; assumption|].
        cbn [map]. apply elem_of_cons. now right.
      * cbn [map]. apply not_elem_of_cons. split; [unfold server; congruence | exact IH].
Qed.

Lemma map_server_without_password configs :
  map server (map without_password configs) = map server configs.
Proof. rewrite map_map. reflexivity. Qed.

(** X28.  [add_remote_config] on a file that loads: the file then holds
    the new profile without its password, in the place of the first
    profile of its host and user when there was one, at the end otherwise;
    the hosts and users of the other profiles stay, so that profiles with
    different hosts or users stay so; and no profile of the file has a
    password. *)
Theorem add_remote_config_keeps_servers (config : RemoteConfig)
    (remote_config_file : option string) (configs : list RemoteConfig) :
  well_formed config ->
  load_remote_configs false remote_config_file = Some configs ->
  exists content configs',
    add_remote_config config false None remote_config_file = Some (true, Some content)
    /\ load_remote_configs false (Some content) = Some configs'
    /\ without_password config ∈ configs'
    /\ map server configs'
       = (if bool_decide (server config ∈ map server configs)
          then map server configs else map server configs ++ [server config])
    /\ (NoDup (map server configs) -> NoDup (map server configs'))
    /\ Forall (fun c => password c = "") configs'.
Proof.
  intros Hc Hload. pose proof (load_well_formed _ _ _ Hload) as Hwf.
  unfold add_remote_config. rewrite Hload. cbn [mbind option_bind].
  pose proof (update_existing_spec config configs Hc Hwf) as Hup.
  assert (Hblank : forall l, Forall (fun c => password c = "") (map without_password l)).
  { intros l. apply Forall_forall. intros c Hin.
    apply list_elem_of_fmap in Hin as (c0 & -> & _). reflexivity. }
  destruct (update_existing config configs) as [configs1|].
  - destruct Hup as (Hin & Hmap & Hwf1 & Hmem).
    destruct (load_saved configs1 remote_config_file Hwf1) as (content & Hs & Hl).
    rewrite Hs. exists content, (map without_password configs1).
    split; [reflexivity|]. split; [exact Hl|]. split; [exact Hmem|].
    rewrite map_server_without_password, Hmap.
    rewrite bool_decide_eq_true_2 by exact Hin.
    split; [reflexivity|]. split; [auto | apply Hblank].
  - assert (Hwf1 : Forall well_formed (configs ++ [config]))
      by (apply Forall_app; split; [exact Hwf | now apply Forall_singleton]).
    destruct (load_saved (configs ++ [config]) remote_config_file Hwf1)
      as (content & Hs & Hl).
    rewrite Hs. exists content, (map without_password (configs ++ [config])).
    split; [reflexivity|]. split; [exact Hl|].
    split.
    { rewrite map_app. apply elem_of_app. right. cbn. apply list_elem_of_singleton.
      reflexivity. }
    rewrite map_server_without_password, map_app.
    rewrite bool_decide_eq_false_2 by exact Hup.
    split; [reflexivity|]. split; [|apply Hblank].
    intros Hnd. cbn [map]. apply NoDup_app. split; [exact Hnd|].
    split; [|apply NoDup_singleton].
    intros x Hx Hx'. apply list_elem_of_singleton in Hx'. subst x. contradiction.
Qed.

Lemma remove_first_app_fresh config configs :
  server config ∉ map server configs ->
  remove_first (host config) (username config)
    (map without_password (configs ++ [config]))
  = Some (map without_password configs).
Proof.
  intros Hfresh. induction configs as [|x l IH]; cbn [app map remove_first].
  - unfold same_server, without_password. cbn. now rewrite !String.eqb_refl.
  - cbn [map] in Hfresh. apply not_elem_of_cons in Hfresh as [Hne Hfresh].
    change (same_server (host config) (username config) (without_password x))
      with (same_server (host config) (username config) x).
    destruct (same_server (host config) (username config) x) eqn:Esame.
    + exfalso. apply Hne. unfold same_server in Esame.
      apply andb_true_iff in Esame as [Eh Eu].
      apply String.eqb_eq in Eh, Eu. unfold server. congruence.
    + rewrite (IH Hfresh). reflexivity.
Qed.

(** X29.  [remove_remote_config] after [add_remote_config] of a profile
    whose host and user no profile of the file had: both succeed, and the
    file holds the profiles it held before, without their passwords. *)
Theorem add_then_remove_remote_config (config : RemoteConfig)
    (remote_config_file : option string) (configs : list RemoteConfig) :
  well_formed config ->
  load_remote_configs false remote_config_file = Some configs ->
  server config ∉ map server configs ->
  exists added removed,
    add_remote_config config false None remote_config_file = Some (true, Some added)
    /\ remove_remote_config (host config) (username config) false None (Some added)
       = Some (true, Some removed)
    /\ load_remote_configs false (Some removed) = Some (map without_password configs).
Proof.
  intros Hc Hload Hfresh. pose proof (load_well_formed _ _ _ Hload) as Hwf.
  unfold add_remote_config. rewrite Hload. cbn [mbind option_bind].
  pose proof (update_existing_spec config configs Hc Hwf) as Hup.
  destruct (update_existing config configs) as [configs1|].
  { destruct Hup as (Hin & _). contradiction. }
  assert (Hwf1 : Forall well_formed (configs ++ [config]))
    by (apply Forall_app; split; [exact Hwf | now apply Forall_singleton]).
  destruct (load_saved (configs ++ [config]) remote_config_file Hwf1)
    as (added & Hs & Hl).
  rewrite Hs.
  assert (Hwf2 : Forall well_formed (map without_password configs)).
  { apply Forall_forall. intros c Hin. apply list_elem_of_fmap in Hin as (c0 & -> & Hc0).
    rewrite Forall_forall in Hwf. apply without_password_well_formed, Hwf, Hc0. }
  destruct (load_saved (map without_password configs) (Some added) Hwf2)
    as (removed & Hs2 & Hl2).
  exists added, removed. split; [reflexivity|].
  unfold remove_remote_config. rewrite Hl. cbn [mbind option_bind].
  rewrite (remove_first_app_fresh config configs Hfresh), Hs2.
  split; [reflexivity|].
  rewrite Hl2. f_equal. rewrite map_map. apply map_ext. intros c. reflexivity.
Qed.

End WithLib.

Lemma save_then_load_remote_configs_two_profiles :
  Forall well_formed two_profiles
  /\ exists content loaded,
       save_remote_configs (L := SimpleLib.simple_lib) two_profiles None None
       = (true, Some content)
       /\ load_remote_configs (L := SimpleLib.simple_lib) false (Some content) = Some loaded
       /\ loaded = map without_password two_profiles
       /\ forall c, c ∈ loaded ->
            has_password_auth c = false /\ (validate c = true -> has_key_auth c = true).
Proof.
  assert (H : Forall well_formed two_profiles).
  { repeat apply Forall_cons_2; [..|apply Forall_nil_2];
      (split; [cbn; lia | split; [cbn; lia | discriminate]]). }
  split; [exact H|].
  exact (save_then_load_remote_configs (L := SimpleLib.simple_lib) two_profiles None H).
Defined.

(** A third profile, and the file of the two profiles. *)
Definition backup_profile : RemoteConfig :=
  mkRemoteConfig "backup.example.org" "ops" "pw" "" 22 10 "backup".

Definition two_profiles_file : option string :=
  snd (save_remote_configs (L := SimpleLib.simple_lib) two_profiles None None).

Lemma two_profiles_file_loads :
  load_remote_configs (L := SimpleLib.simple_lib) false two_profiles_file
  = Some (map without_password two_profiles).
Proof. vm_compute. reflexivity. Qed.

Lemma backup_profile_well_formed : well_formed backup_profile.
Proof. split; [cbn; lia | split; [cbn; lia | discriminate]]. Defined.

Lemma add_remote_config_keeps_servers_backup :
  well_formed backup_profile
  /\ load_remote_configs (L := SimpleLib.simple_lib) false two_profiles_file
     = Some (map without_password two_profiles)
  /\ exists content configs',
       add_remote_config (L := SimpleLib.simple_lib) backup_profile false None
         two_profiles_file = Some (true, Some content)
       /\ load_remote_configs (L := SimpleLib.simple_lib) false (Some content)
          = Some configs'
       /\ without_password backup_profile ∈ configs'
       /\ map server configs'
          = (if bool_decide (server backup_profile
                             ∈ map server (map without_password two_profiles))
             then map server (map without_password two_profiles)
             else map server (map without_password two_profiles)
                  ++ [server backup_profile])
       /\ (NoDup (map server (map without_password two_profiles)) ->
           NoDup (map server configs'))
       /\ Forall (fun c => password c = "") configs'.
Proof.
  split; [exact backup_profile_well_formed|].
  split; [exact two_profiles_file_loads|].
  exact (add_remote_config_keeps_servers (L := SimpleLib.simple_lib) backup_profile
           two_profiles_file _ backup_profile_well_formed two_profiles_file_loads).
Defined.

Lemma add_then_remove_remote_config_backup :
  well_formed backup_profile
  /\ load_remote_configs (L := SimpleLib.simple_lib) false two_profiles_file
     = Some (map without_password two_profiles)
  /\ (server backup_profile ∉ map server (map without_password two_profiles))
  /\ exists added removed,
       add_remote_config (L := SimpleLib.simple_lib) backup_profile false None
         two_profiles_file = Some (true, Some added)
       /\ remove_remote_config (L := SimpleLib.simple_lib) (host backup_profile)
            (username backup_profile) false None (Some added)
          = Some (true, Some removed)
       /\ load_remote_configs (L := SimpleLib.simple_lib) false (Some removed)
          = Some (map without_password (map without_password two_profiles)).
Proof.
  assert (Hfresh : server backup_profile ∉ map server (map without_password two_profiles)).
  { cbn. rewrite !not_elem_of_cons. repeat split; try discriminate. apply not_elem_of_nil. }
  split; [exact backup_profile_well_formed|].
  split; [exact two_profiles_file_loads|]. split; [exact Hfresh|].
  exact (add_then_remove_remote_config (L := SimpleLib.simple_lib) backup_profile
           two_profiles_file _ backup_profile_well_formed two_profiles_file_loads Hfresh).
Defined.

End ConfigFilesFacts.
